(** * wdom: the web-synchronised node layer

    A shallow embedding of [wdom/web_node.py] (class [WdomElement]) and of
    [wdom/webif.py] (the mixin [WebIF]), together with the statements about
    the connection gate, the pending-request tracker, the mutation emitter,
    the listener bookkeeping, event synthesis and the identity registry.

    Python objects live in a store indexed by their identity (the value of
    [id(obj)]); methods are computations in a state-and-exception monad
    over that store. *)

From Stdlib Require Import ZArith Ascii String.
From stdpp Require Import gmap strings list fin_maps pretty.

Local Open Scope Z_scope.
Local Set Warnings "-register-all".

(** ** Strings *)

(** The double quote character, as a one-character string. *)
Definition dq : string := String "034"%char EmptyString.

(** ['sep'.join(l)] *)
Fixpoint join (sep : string) (l : list string) : string :=
  match l with
  | [] => EmptyString
  | [s] => s
  | s :: rest => s +:+ sep +:+ join sep rest
  end.

(** [''.join(l)] *)
Definition concat_str (l : list string) : string := foldr String.append EmptyString l.

(** ** The regular expression [_remove_id_re]

    The pattern is: a space, the word rimo_id, an equals sign and a double
    quote; then one or more decimal digits ([\d+]); then a closing double
    quote.  Characters are the code
    points below 256, where [\d] is exactly ['0'..'9']. *)

Definition is_digit (c : ascii) : bool :=
  ((48 <=? nat_of_ascii c) && (nat_of_ascii c <=? 57))%nat.

(** [strip_prefix p s] is the rest of [s] once the literal [p] is read off
    its front. *)
Fixpoint strip_prefix (p s : string) : option string :=
  match p with
  | EmptyString => Some s
  | String a p' =>
      match s with
      | EmptyString => None
      | String b s' => if Ascii.eqb a b then strip_prefix p' s' else None
      end
  end.

(** The longest run of digits at the front of [s]: its length and what
    follows it. *)
Fixpoint span_digits (s : string) : nat * string :=
  match s with
  | String c s' =>
      if is_digit c then let '(n, r) := span_digits s' in (S n, r) else (O, s)
  | EmptyString => (O, s)
  end.

Definition rimo_id_literal : string := " rimo_id=" +:+ dq.

(** [_remove_id_re.match(s)]: the length of the match at the front of [s].
    [\d+] is greedy, and giving digits back never helps, as the character
    after a shorter run is a digit and not the closing quote. *)
Definition _remove_id_re_match (s : string) : option nat :=
  match strip_prefix rimo_id_literal s with
  | None => None
  | Some r =>
      match span_digits r with
      | (O, _) => None
      | (S n, String c _) =>
          if Ascii.eqb c "034"%char
          then Some (String.length rimo_id_literal + S n + 1)%nat
          else None
      | (S _, EmptyString) => None
      end
  end.

(** [_remove_id_re.sub('', s)]: leftmost non-overlapping matches are dropped.
    [skip] counts the characters of the current match still to drop. *)
Fixpoint _remove_id_re_sub (skip : nat) (s : string) : string :=
  match s with
  | EmptyString => EmptyString
  | String c s' =>
      match skip with
      | S k => _remove_id_re_sub k s'
      | O =>
          match _remove_id_re_match s with
          | Some len => _remove_id_re_sub (len - 1) s'
          | None => String c (_remove_id_re_sub O s')
          end
      end
  end.

(** [remove_rimo_id(html)] *)
Definition remove_rimo_id (html : string) : string := _remove_id_re_sub O html.

(** ** Python values

    The values that travel in messages: what [json.loads] produces, and the
    positional arguments of an outbound command.  Floating-point numbers
    are left out. *)

Inductive pyval :=
| PNone
| PBool (b : bool)
| PInt (z : Z)
| PStr (s : string)
| PList (l : list pyval)
| PDict (d : gmap string pyval).

(** [bool(v)] *)
Definition truthy (v : pyval) : bool :=
  match v with
  | PNone => false
  | PBool b => b
  | PInt z => negb (z =? 0)
  | PStr s => negb (String.eqb s EmptyString)
  | PList l => match l with [] => false | _ => true end
  | PDict d => negb (bool_decide (d = ∅))
  end.

(** A message is a [dict] with string keys. *)
Abbreviation msg := (gmap string pyval).

(** [d.get(key, default)] *)
Definition dict_get (d : msg) (key : string) (default : pyval) : pyval :=
  match d !! key with Some v => v | None => default end.

(** Exceptions that can reach the caller. *)
Inductive exn :=
  ValueError | TypeError | KeyError | RecursionError | ReferenceError | InvalidStateError.

(** How a Python [int] key is found from a value used as a [dict] key:
    [True] and [False] hash and compare as 1 and 0, [None] and strings are
    hashable but equal to no integer, lists and dicts are unhashable. *)
Inductive key_lookup := IntKey (z : Z) | NoIntKey | Unhashable.

Definition int_key (v : pyval) : key_lookup :=
  match v with
  | PInt z => IntKey z
  | PBool b => IntKey (Z.b2z b)
  | PNone | PStr _ => NoIntKey
  | PList _ | PDict _ => Unhashable
  end.

(** ** Futures

    An [asyncio.Future] is a shared object: the caller of [js_query] and the
    node's table hold the same one.  Futures live in a heap of their own. *)

Inductive future := Pending | Finished (result : pyval) | Cancelled.

(** [fut.done()] *)
Definition done (f : future) : bool :=
  match f with Pending => false | _ => true end.

(** [fut.cancelled()] *)
Definition cancelled (f : future) : bool :=
  match f with Cancelled => true | _ => false end.

(** Object identities, the values of [id(obj)]. *)
Abbreviation ref := nat.

(** ** Events and listeners *)

(** An event object: its [type] and the identities of [currentTarget] and
    [target]. *)
Record Event := mkEvent {
  ev_type : string;
  ev_currentTarget : option string;
  ev_target : option string;
}.

(** A listener is either the bound method [self._on_mount] of a node, or a
    callback of the host program, known by a name. *)
Inductive listener := OnMount (self : ref) | Callback (name : nat).

Global Instance listener_eq_dec : EqDecision listener.
Proof. solve_decision. Defined.

(** ** Outbound commands

    A command is the [dict] that [js_exec] builds and [ws_send] completes;
    it is kept as a [dict]. *)
Abbreviation command := (gmap string pyval).

(** ** Nodes *)

Inductive node_class := CDocument | CWdomElement | CText.

Global Instance node_class_eq_dec : EqDecision node_class.
Proof. solve_decision. Defined.

(** One node object.  [data] is the text of a [CharacterData] node;
    [rimo_id], [reqid], [tasks] and [event_listeners] are the attributes
    [__rimo_id], [__reqid], [__tasks] and [_event_listeners].
    [event_listeners] keeps insertion order, as a Python [dict] does. *)
Record Node := mkNode {
  nodeClass : node_class;
  tag : string;
  rimo_id : string;
  attributes : list (string * string);
  data : string;
  parentNode : option ref;
  childNodes : list ref;
  reqid : Z;
  tasks : gmap Z ref;
  event_listeners : list (string * list listener);
}.

(** A live transport session and the document it shows. *)
Record connection := mkConnection {
  conn_id : nat;
  conn_document : ref;
}.

(** The state of the process.  [elements_with_rimo_id] is the class
    attribute [WdomElement._elements_with_rimo_id], whose keys have type
    [Union[int, str]]; [connections] and [message_queue] belong to the
    server module; [calls] records every invocation of a listener. *)
Record world := mkWorld {
  nodes : gmap ref Node;
  futures : gmap ref future;
  elements_with_rimo_id : gmap (Z + string) ref;
  connections : list connection;
  message_queue : list command;
  calls : list (listener * Event);
}.

Definition set_nodes (f : gmap ref Node -> gmap ref Node) (w : world) : world :=
  mkWorld (f (nodes w)) (futures w) (elements_with_rimo_id w)
          (connections w) (message_queue w) (calls w).

Definition set_futures (f : gmap ref future -> gmap ref future) (w : world) : world :=
  mkWorld (nodes w) (f (futures w)) (elements_with_rimo_id w)
          (connections w) (message_queue w) (calls w).

Definition set_registry (f : gmap (Z + string) ref -> gmap (Z + string) ref)
    (w : world) : world :=
  mkWorld (nodes w) (futures w) (f (elements_with_rimo_id w))
          (connections w) (message_queue w) (calls w).

Definition set_message_queue (f : list command -> list command) (w : world) : world :=
  mkWorld (nodes w) (futures w) (elements_with_rimo_id w)
          (connections w) (f (message_queue w)) (calls w).

Definition set_calls (f : list (listener * Event) -> list (listener * Event))
    (w : world) : world :=
  mkWorld (nodes w) (futures w) (elements_with_rimo_id w)
          (connections w) (message_queue w) (f (calls w)).

Definition set_parentNode (p : option ref) (nd : Node) : Node :=
  mkNode (nodeClass nd) (tag nd) (rimo_id nd) (attributes nd) (data nd)
         p (childNodes nd) (reqid nd) (tasks nd) (event_listeners nd).

Definition set_childNodes (l : list ref) (nd : Node) : Node :=
  mkNode (nodeClass nd) (tag nd) (rimo_id nd) (attributes nd) (data nd)
         (parentNode nd) l (reqid nd) (tasks nd) (event_listeners nd).

Definition set_rimo_id (i : string) (nd : Node) : Node :=
  mkNode (nodeClass nd) (tag nd) i (attributes nd) (data nd)
         (parentNode nd) (childNodes nd) (reqid nd) (tasks nd) (event_listeners nd).

Definition set_reqid (r : Z) (nd : Node) : Node :=
  mkNode (nodeClass nd) (tag nd) (rimo_id nd) (attributes nd) (data nd)
         (parentNode nd) (childNodes nd) r (tasks nd) (event_listeners nd).

Definition set_tasks (t : gmap Z ref) (nd : Node) : Node :=
  mkNode (nodeClass nd) (tag nd) (rimo_id nd) (attributes nd) (data nd)
         (parentNode nd) (childNodes nd) (reqid nd) t (event_listeners nd).

Definition set_event_listeners (l : list (string * list listener)) (nd : Node) : Node :=
  mkNode (nodeClass nd) (tag nd) (rimo_id nd) (attributes nd) (data nd)
         (parentNode nd) (childNodes nd) (reqid nd) (tasks nd) l.

(** ** The monad of methods: state and exceptions

    A raised exception carries the world as it was when raised, so that
    what a failing call left behind can be stated. *)

Inductive outcome (A : Type) :=
| Ok (a : A) (w : world)
| Raise (e : exn) (w : world).
Arguments Ok {A} a w.
Arguments Raise {A} e w.

Definition M (A : Type) : Type := world -> outcome A.

Definition ret {A} (a : A) : M A := fun w => Ok a w.

Definition bind {A B} (m : M A) (k : A -> M B) : M B :=
  fun w => match m w with
           | Ok a w' => k a w'
           | Raise e w' => Raise e w'
           end.

Definition raise {A} (e : exn) : M A := fun w => Raise e w.

Definition gets {A} (f : world -> A) : M A := fun w => Ok (f w) w.

Definition modify (f : world -> world) : M unit := fun w => Ok tt (f w).

Declare Scope py_scope.
Delimit Scope py_scope with py.
Notation "x ← y ; z" := (bind y (fun x => z)) (only parsing) : py_scope.
Notation "y ;; z" := (bind y (fun _ => z)) (only parsing) : py_scope.
Local Open Scope py_scope.

(** [for x in l: f(x)] *)
Fixpoint for_each {A} (f : A -> M unit) (l : list A) : M unit :=
  match l with
  | [] => ret tt
  | x :: rest => f x;; for_each f rest
  end.

(** Reading a node object through a reference. *)
Definition get_node (r : ref) : M Node :=
  fun w => match nodes w !! r with
           | Some nd => Ok nd w
           | None => Raise ReferenceError w
           end.

(** Assigning to the attributes of a node object. *)
Definition update_node (r : ref) (f : Node -> Node) : M unit :=
  modify (set_nodes (fun ns => match ns !! r with
                               | Some nd => <[r := f nd]> ns
                               | None => ns
                               end)).

(** ** The transport: module [wdom.server] *)
Module server.

(** Modelled from the spec: module [wdom.server] is not among the sources.
    [is_connected()] takes no argument; it is the process-wide predicate
    that at least one transport session is live. *)
Definition is_connected (w : world) : bool :=
  match connections w with [] => false | _ :: _ => true end.

(** Modelled from the spec: [push_message(obj)] of the absent module
    [wdom.server] hands one command to the transport; commands leave in the
    order they were pushed. *)
Definition push_message (obj : command) : M unit :=
  modify (set_message_queue (fun q => q ++ [obj])).

(** Modelled from the spec: a connection is a live session associated with
    a document; these are the sessions of document [d]
    ([d.connections] in [webif.py]). *)
Definition connections_of (w : world) (d : ref) : list connection :=
  filter (fun c => conn_document c = d) (connections w).

End server.

(** ** Futures: [asyncio.Future] *)
Module asyncio.

(** [Future()]: a new pending future, distinct from every live one. *)
Definition Future : M ref :=
  fun w => let f := fresh (dom (futures w)) in
           Ok f (set_futures (insert f Pending) w).

Definition get_future (f : ref) : M future :=
  fun w => match futures w !! f with
           | Some st => Ok st w
           | None => Raise ReferenceError w
           end.

(** [fut.set_result(v)]: raises on a future that is done. *)
Definition set_result (f : ref) (v : pyval) : M unit :=
  st ← get_future f;
  if done st then raise InvalidStateError
  else modify (set_futures (insert f (Finished v))).

End asyncio.

(** ** Attributes and serialisation *)

Module element.

(** Modelled from the spec: [HTMLElement._get_attrs_by_string] of the
    absent module [wdom.element]; the attributes of the element, each as
    name, equals sign and the value in double quotes, separated by
    spaces. *)
Definition _get_attrs_by_string (nd : Node) : string :=
  join " " (map (fun '(k, v) => k +:+ "=" +:+ dq +:+ v +:+ dq) (attributes nd)).

End element.

(** [WdomElement._get_attrs_by_string]: the identity attribute comes first. *)
Definition _get_attrs_by_string (nd : Node) : string :=
  let res := "rimo_id=" +:+ dq +:+ rimo_id nd +:+ dq in
  let attrs := element._get_attrs_by_string nd in
  if negb (String.eqb attrs EmptyString) then join " " [res; attrs] else res.

(** ** The tree library: module [wdom.node] *)
Module node.

(** Modelled from the spec: the owning-document relation of the absent tree
    library.  A document owns itself and every node below it; the walk
    follows [parentNode].  The fuel bounds the walk by the number of
    objects. *)
Fixpoint ownerDocument_fuel (k : nat) (ns : gmap ref Node) (r : ref) : option ref :=
  match k with
  | O => None
  | S k =>
      match ns !! r with
      | None => None
      | Some nd =>
          if decide (nodeClass nd = CDocument) then Some r
          else match parentNode nd with
               | Some p => ownerDocument_fuel k ns p
               | None => None
               end
      end
  end.

Definition ownerDocument (w : world) (r : ref) : option ref :=
  ownerDocument_fuel (S (size (nodes w))) (nodes w) r.

(** [child in self.childNodes] *)
Definition is_child (c : ref) (nd : Node) : bool :=
  bool_decide (c ∈ childNodes nd).

(** [l.remove(x)]: the first occurrence goes. *)
Fixpoint list_remove (x : ref) (l : list ref) : list ref :=
  match l with
  | [] => []
  | y :: rest => if decide (x = y) then rest else y :: list_remove x rest
  end.

(** [l.index(x)] *)
Fixpoint list_index (x : ref) (l : list ref) : option nat :=
  match l with
  | [] => None
  | y :: rest => if decide (x = y) then Some O else S <$> list_index x rest
  end.

(** Modelled from the spec: [Node.index] of the absent tree library, the
    position of a child among the children. *)
Definition index (self child : ref) : M Z :=
  nd ← get_node self;
  match list_index child (childNodes nd) with
  | Some i => ret (Z.of_nat i)
  | None => raise ValueError
  end.

(** Modelled from the spec: [Node._remove_child] of the absent tree
    library, the local removal.  A node that is not a child of the target
    is a structural violation, raised as [ValueError]. *)
Definition _remove_child (self child : ref) : M ref :=
  nd ← get_node self;
  if negb (is_child child nd) then raise ValueError
  else
    update_node self (set_childNodes (list_remove child (childNodes nd)));;
    update_node child (set_parentNode None);;
    ret child.

(** Modelled from the spec: [html.escape] as used by the serialiser, which
    by default translates the two quote characters as well. *)
Fixpoint escape (s : string) : string :=
  match s with
  | EmptyString => EmptyString
  | String c rest =>
      (if Ascii.eqb c "&" then "&amp;"
       else if Ascii.eqb c "<" then "&lt;"
       else if Ascii.eqb c ">" then "&gt;"
       else if Ascii.eqb c "034" then "&quot;"
       else if Ascii.eqb c "'" then "&#x27;"
       else String c EmptyString) +:+ escape rest
  end.

(** Modelled from the spec: the elements of the absent tree library whose
    text is not escaped. *)
Definition raw_text_tag (t : string) : bool :=
  String.eqb t "script" || String.eqb t "style".

(** Modelled from the spec: whether a text node of the absent tree library
    escapes its data.  It asks its parent (the text node needs to know its
    parent to escape or not its content, as [_get_child_html] notes), and a
    text node without a parent does not escape. *)
Definition should_escape (ns : gmap ref Node) (nd : Node) : bool :=
  match parentNode nd with
  | Some q =>
      match ns !! q with
      | Some nq => negb (raw_text_tag (tag nq))
      | None => false
      end
  | None => false
  end.

(** Modelled from the spec: the start tag and the end tag that the
    serialiser of the absent tree library writes for an element. *)
Definition start_tag (nd : Node) : string :=
  "<" +:+ tag nd +:+ " " +:+ _get_attrs_by_string nd +:+ ">".

(** Modelled from the spec: the void elements of HTML, which are written
    without an end tag (the set [HTML_EMPTY] of the Python library). *)
Definition void_tag (t : string) : bool :=
  bool_decide (t ∈ ["area"; "base"; "basefont"; "br"; "col"; "embed"; "frame"; "hr"; "img";
                    "input"; "isindex"; "link"; "meta"; "param"; "source"; "track"; "wbr"]).

Definition end_tag (nd : Node) : string :=
  if void_tag (tag nd) then EmptyString else "</" +:+ tag nd +:+ ">".

(** Modelled from the spec: the HTML serialiser of the absent tree library,
    the property [html] of a node.  A text node gives its data, escaped
    according to its parent; an element gives its start tag (with the
    attributes of [_get_attrs_by_string]), its children and its end tag; a
    document gives its children.  Running out of fuel stands for the
    recursion never ending, which a tree does not cause. *)
Fixpoint html_fuel (k : nat) (ns : gmap ref Node) (r : ref) : option string :=
  match k with
  | O => None
  | S k =>
      match ns !! r with
      | None => None
      | Some nd =>
          match nodeClass nd with
          | CText => Some (if should_escape ns nd then escape (data nd) else data nd)
          | CWdomElement =>
              match mapM (html_fuel k ns) (childNodes nd) with
              | Some inner => Some (start_tag nd +:+ concat_str inner +:+ end_tag nd)
              | None => None
              end
          | CDocument =>
              match mapM (html_fuel k ns) (childNodes nd) with
              | Some inner => Some (concat_str inner)
              | None => None
              end
          end
      end
  end.

Definition html_of (w : world) (r : ref) : option string :=
  html_fuel (S (size (nodes w))) (nodes w) r.

(** [node.html] *)
Definition html (r : ref) : M string :=
  fun w => match html_of w r with
           | Some h => Ok h w
           | None => Raise RecursionError w
           end.

End node.

(** ** Listeners and events: module [wdom.event] *)
Module event.

(** The listeners registered for one event type. *)
Fixpoint listeners_for (ev : string) (t : list (string * list listener)) : list listener :=
  match t with
  | [] => []
  | (k, ls) :: rest => if String.eqb k ev then ls else listeners_for ev rest
  end.

(** [event in self._event_listeners] *)
Definition registered (ev : string) (t : list (string * list listener)) : bool :=
  bool_decide (ev ∈ map fst t).

Fixpoint add_listener (ev : string) (l : listener) (t : list (string * list listener))
  : list (string * list listener) :=
  match t with
  | [] => [(ev, [l])]
  | (k, ls) :: rest =>
      if String.eqb k ev then (k, ls ++ [l]) :: rest
      else (k, ls) :: add_listener ev l rest
  end.

Fixpoint remove_first (l : listener) (ls : list listener) : list listener :=
  match ls with
  | [] => []
  | x :: rest => if decide (l = x) then rest else x :: remove_first l rest
  end.

(** [del d[ev]]: no entry is left under the key. *)
Definition delete_key (ev : string) (t : list (string * list listener))
  : list (string * list listener) :=
  filter (fun kv => kv.1 ≠ ev) t.

(** Modelled from the spec: the table of listeners of the absent module
    [wdom.event] is a dictionary that makes an empty entry for a key that
    is looked up and not there.  Removal looks the event type up: with no
    listener under it, the entry stays, empty; otherwise the first listener
    equal to [l] leaves, and the entry is deleted when no listener is
    left. *)
Fixpoint remove_listener (ev : string) (l : listener) (t : list (string * list listener))
  : list (string * list listener) :=
  match t with
  | [] => [(ev, [])]
  | (k, ls) :: rest =>
      if String.eqb k ev then
        match ls with
        | [] => (k, []) :: rest
        | _ :: _ =>
            match remove_first l ls with
            | [] => delete_key ev rest
            | ls' => (k, ls') :: rest
            end
        end
      else (k, ls) :: remove_listener ev l rest
  end.

(** Modelled from the spec: [EventTarget.addEventListener] of the absent
    module [wdom.event], the local registration: the listener joins, last,
    the listeners of its event type. *)
Definition addEventListener (self : ref) (ev : string) (l : listener) : M unit :=
  update_node self (fun nd => set_event_listeners (add_listener ev l (event_listeners nd)) nd).

(** Modelled from the spec: [EventTarget.removeEventListener] of the absent
    module [wdom.event], the local removal: the listener leaves, and an
    event type whose last listener has left is no longer registered. *)
Definition removeEventListener (self : ref) (ev : string) (l : listener) : M unit :=
  update_node self (fun nd => set_event_listeners (remove_listener ev l (event_listeners nd)) nd).

(** The identity carried by [{'id': ...}]. *)
Definition target_id (v : pyval) : option string :=
  match v with
  | PDict t => match t !! "id" with Some (PStr s) => Some s | _ => None end
  | _ => None
  end.

(** Modelled from the spec: the construction of an event object from an
    event descriptor, as done by [create_event(msg)] of the absent module
    [wdom.event] and by [Event( **kwargs)] of the absent module
    [wdom.interface].  The object carries [type] and the identities of
    [currentTarget] and [target]; a descriptor without a [type] is
    refused. *)
Definition event_of_descriptor (d : msg) (missing : exn) : M Event :=
  match d !! "type" with
  | Some (PStr t) =>
      ret (mkEvent t (target_id (dict_get d "currentTarget" PNone))
                      (target_id (dict_get d "target" PNone)))
  | Some _ => raise TypeError
  | None => raise missing
  end.

(** [create_event(msg)] *)
Definition create_event (m : msg) : M Event := event_of_descriptor m KeyError.

End event.

Module interface.

(** [Event( **kwargs)] *)
Definition Event (kwargs : msg) : M Event := event.event_of_descriptor kwargs TypeError.

End interface.

(** ** Class [WdomElement] of [web_node.py] *)

(** [connected]: [bool(server.is_connected() and self.ownerDocument)] *)
Definition connected (self : ref) (w : world) : bool :=
  server.is_connected w &&
  match node.ownerDocument w self with Some _ => true | None => false end.

(** [self.__tasks.pop(key, False)]; [None] stands for the default. *)
Definition tasks_pop (self : ref) (key : pyval) : M (option ref) :=
  nd ← get_node self;
  match int_key key with
  | Unhashable => raise TypeError
  | NoIntKey => ret None
  | IntKey z =>
      match tasks nd !! z with
      | Some f => update_node self (set_tasks (delete z (tasks nd)));; ret (Some f)
      | None => ret None
      end
  end.

(** [on_response(msg)] *)
Definition on_response (self : ref) (m : msg) : M unit :=
  let response := dict_get m "data" (PBool false) in
  if truthy response then
    task ← tasks_pop self (dict_get m "reqid" PNone);
    match task with
    | Some f =>
        st ← asyncio.get_future f;
        if negb (cancelled st) && negb (done st)
        then asyncio.set_result f (dict_get m "data" PNone)
        else ret tt
    | None => ret tt
    end
  else ret tt.

(** [ws_send(obj)] *)
Definition ws_send (self : ref) (obj : command) : M unit :=
  d ← gets (fun w => node.ownerDocument w self);
  match d with
  | Some _ =>
      nd ← get_node self;
      let obj := <["target" := PStr "node"]> obj in
      let obj := <["id" := PStr (rimo_id nd)]> obj in
      let obj := <["tag" := PStr (tag nd)]> obj in
      server.push_message obj
  | None => ret tt
  end.

(** [js_exec(method, *args)] *)
Definition js_exec (self : ref) (method : string) (args : list pyval) : M unit :=
  c ← gets (connected self);
  if c then ws_send self (<["params" := PList args]> {["method" := PStr method]})
  else ret tt.

(** [js_query(query)] *)
Definition js_query (self : ref) (query : string) : M ref :=
  c ← gets (connected self);
  if c then
    nd ← get_node self;
    js_exec self query [PInt (reqid nd)];;
    fut ← asyncio.Future;
    update_node self (fun nd => set_tasks (<[reqid nd := fut]> (tasks nd)) nd);;
    update_node self (fun nd => set_reqid (reqid nd + 1) nd);;
    ret fut
  else
    f ← asyncio.Future;
    asyncio.set_result f PNone;;
    ret f.

(** [_add_event_listener_web(event)] *)
Definition _add_event_listener_web (self : ref) (ev : string) : M unit :=
  js_exec self "addEventListener" [PStr ev].

(** [_on_mount(e)] *)
Definition _on_mount (self : ref) (e : Event) : M unit :=
  nd ← get_node self;
  for_each (_add_event_listener_web self) (map fst (event_listeners nd)).

(** [addEventListener(event, listener)] *)
Definition addEventListener (self : ref) (ev : string) (l : listener) : M unit :=
  event.addEventListener self ev l;;
  c ← gets (connected self);
  if c then _add_event_listener_web self ev else ret tt.

(** [_remove_event_listener_web(event)] *)
Definition _remove_event_listener_web (self : ref) (ev : string) : M unit :=
  nd ← get_node self;
  if negb (event.registered ev (event_listeners nd))
  then js_exec self "removeEventListener" [PStr ev]
  else ret tt.

(** [removeEventListener(event, listener)] *)
Definition removeEventListener (self : ref) (ev : string) (l : listener) : M unit :=
  event.removeEventListener self ev l;;
  c ← gets (connected self);
  if c then _remove_event_listener_web self ev else ret tt.

(** Modelled from the spec: calling a listener with an event, as the
    absent dispatch routine does.  The call is recorded; the bound method
    [_on_mount] then runs, while what a callback of the host program does
    is its own affair. *)
Definition call_listener (l : listener) (e : Event) : M unit :=
  modify (set_calls (fun cs => cs ++ [(l, e)]));;
  match l with
  | OnMount r => _on_mount r e
  | Callback _ => ret tt
  end.

(** Modelled from the spec: the local dispatch routine
    [EventTarget._dispatch_event] of the absent module [wdom.event]; the
    listeners registered for the type of the event are called with it, in
    the order of their registration. *)
Definition _dispatch_event (self : ref) (e : Event) : M unit :=
  nd ← get_node self;
  for_each (fun l => call_listener l e) (event.listeners_for (ev_type e) (event_listeners nd)).

(** Modelled from the spec: [dispatchEvent(event)], the public entry of the
    same dispatch routine. *)
Definition dispatchEvent (self : ref) (e : Event) : M unit := _dispatch_event self e.

(** [click()] *)
Definition click (self : ref) : M unit :=
  c ← gets (connected self);
  if c then js_exec self "click" []
  else
    nd ← get_node self;
    let m : msg :=
      <["target" := PDict {["id" := PStr (rimo_id nd)]}]>
      (<["currentTarget" := PDict {["id" := PStr (rimo_id nd)]}]>
      (<["type" := PStr "click"]> {["proto" := PStr EmptyString]})) in
    e ← event.create_event m;
    _dispatch_event self e.

(** [_remove_child_web(child)] *)
Definition _remove_child_web (self child : ref) : M ref :=
  nd ← get_node self;
  (if node.is_child child nd then
     nc ← get_node child;
     if decide (nodeClass nc = CWdomElement)
     then js_exec self "removeChildById" [PStr (rimo_id nc)]
     else i ← node.index self child; js_exec self "removeChildByIndex" [PInt i]
   else ret tt);;
  ret child.

(** [removeChild(child)] *)
Definition removeChild (self child : ref) : M ref :=
  c ← gets (connected self);
  (if c then _remove_child_web self child else ret child);;
  node._remove_child self child.

(** Modelled from the spec: the call [q.removeChild(child)] that the absent
    tree library makes on the parent of a node it is about to move.  The
    method is that of the class of [q]: a [WdomElement] answers with the
    [removeChild] of [web_node.py], which tells the browser when [q] is
    connected; any other node answers with [Node.removeChild], the local
    removal. *)
Definition removeChild_of (q child : ref) : M ref :=
  nq ← get_node q;
  if decide (nodeClass nq = CWdomElement) then removeChild q child
  else node._remove_child q child.

(** Modelled from the spec: [Node._append_child] of the absent tree
    library, the local append.  A node has one parent: a child that hangs
    elsewhere is first taken from there, by [removeChild] of its parent. *)
Definition _append_child (self child : ref) : M ref :=
  nc ← get_node child;
  match parentNode nc with
  | Some q => removeChild_of q child;; ret tt
  | None => ret tt
  end;;
  update_node self (fun nd => set_childNodes (childNodes nd ++ [child]) nd);;
  update_node child (set_parentNode (Some self));;
  ret child.

(** [_get_child_html(child)] *)
Definition _get_child_html (self child : ref) : M string :=
  nc ← get_node child;
  if decide (nodeClass nc = CText) then
    _append_child self child;;
    html ← node.html child;
    node._remove_child self child;;
    ret html
  else node.html child.

(** [_append_child_web(child)] *)
Definition _append_child_web (self child : ref) : M ref :=
  html ← _get_child_html self child;
  js_exec self "insertAdjacentHTML" [PStr "beforeend"; PStr html];;
  ret child.

(** [appendChild(child)] *)
Definition appendChild (self child : ref) : M ref :=
  c ← gets (connected self);
  (if c then _append_child_web self child else ret child);;
  _append_child self child.

(** [html_noid] *)
Definition html_noid (self : ref) : M string :=
  html ← node.html self;
  ret (remove_rimo_id html).

(** [str(rimo_id)] for an identity of type [Union[int, str]]. *)
Definition str (v : Z + string) : string :=
  match v with
  | inl z => pretty z
  | inr s => s
  end.

(** Modelled from the spec: [super().__init__(...)], the constructor of
    the absent class [HTMLElement]; a new element object, with no parent,
    no children and no listeners.  Its reference is [id(self)]. *)
Definition new_element (t : string) (attrs : list (string * string)) : M ref :=
  fun w => let self := fresh (dom (nodes w)) in
           Ok self (set_nodes (insert self
             (mkNode CWdomElement t EmptyString attrs EmptyString None [] 0 ∅ [])) w).

(** [__init__(tag, parent=None, rimo_id=None, **attrs)] *)
Definition __init__ (t : string) (attrs : list (string * string))
    (parent : option ref) (rimo_id_arg : option (Z + string)) : M ref :=
  self ← new_element t attrs;
  update_node self (set_reqid 0);;
  update_node self (set_tasks ∅);;
  match rimo_id_arg with
  | None => update_node self (set_rimo_id (str (inl (Z.of_nat self))))
  | Some i => update_node self (set_rimo_id (str i))
  end;;
  nd ← get_node self;
  modify (set_registry (insert (inr (rimo_id nd)) self));;
  addEventListener self "mount" (OnMount self);;
  match parent with
  | Some p => appendChild p self;; ret tt
  | None => ret tt
  end;;
  ret self.

(** ** The mixin [WebIF] of [webif.py] *)
Module WebIF.

(** [connected]: [bool(self.ownerDocument and self.ownerDocument.connections)] *)
Definition connected (self : ref) (w : world) : bool :=
  match node.ownerDocument w self with
  | Some d => match server.connections_of w d with [] => false | _ :: _ => true end
  | None => false
  end.

(** [_handle_event(msg)] *)
Definition _handle_event (self : ref) (m : msg) : M unit :=
  match dict_get m "event" (PDict ∅) with
  | PDict _e =>
      ev ← interface.Event _e;
      dispatchEvent self ev
  | _ => raise TypeError
  end.

(** [self._tasks.pop(key, False)] *)
Definition tasks_pop := tasks_pop.

(** [_handle_response(msg)] *)
Definition _handle_response (self : ref) (m : msg) : M unit :=
  let response := dict_get m "data" (PBool false) in
  if truthy response then
    task ← tasks_pop self (dict_get m "reqid" PNone);
    match task with
    | Some f =>
        st ← asyncio.get_future f;
        if negb (cancelled st) && negb (done st)
        then asyncio.set_result f (dict_get m "data" PNone)
        else ret tt
    | None => ret tt
    end
  else ret tt.

(** [msg_type == 'event'] and the like: equality of a value with a string. *)
Definition is_str (v : pyval) (s : string) : bool :=
  match v with PStr t => String.eqb t s | _ => false end.

(** [on_message(msg)] *)
Definition on_message (self : ref) (m : msg) : M unit :=
  let msg_type := dict_get m "type" PNone in
  if is_str msg_type "event" then _handle_event self m
  else if is_str msg_type "response" then _handle_response self m
  else ret tt.

End WebIF.

(** ** Auxiliary notions for the statements *)

(** Connections opening and closing. *)
Definition set_connections (f : list connection -> list connection) (w : world) : world :=
  mkWorld (nodes w) (futures w) (elements_with_rimo_id w)
          (f (connections w)) (message_queue w) (calls w).

(** The world a call leaves behind, whether it returns or raises. *)
Definition world_of {A} (o : outcome A) : world :=
  match o with Ok _ w => w | Raise _ w => w end.

(** What a call returns, if it returns. *)
Definition value_of {A} (o : outcome A) : option A :=
  match o with Ok a _ => Some a | Raise _ _ => None end.

(** The command that [js_exec(method, *args)] sends for a node. *)
Definition command_of (nd : Node) (method : string) (args : list pyval) : command :=
  <["tag" := PStr (tag nd)]>
  (<["id" := PStr (rimo_id nd)]>
  (<["target" := PStr "node"]>
  (<["params" := PList args]> {["method" := PStr method]}))).

(** ** Sample worlds *)

Definition a_document (kids : list ref) : Node :=
  mkNode CDocument EmptyString EmptyString [] EmptyString None kids 0 ∅ [].

Definition an_element (t i : string) (parent : option ref) (kids : list ref) : Node :=
  mkNode CWdomElement t i [] EmptyString parent kids 0 ∅ [].

Definition a_text (s : string) (parent : option ref) : Node :=
  mkNode CText EmptyString EmptyString [] s parent [] 0 ∅ [].

(** Two documents; a browser shows the first, and the element 2 hangs in
    the second. *)
Definition two_documents : world :=
  mkWorld (<[2%nat := an_element "div" "2" (Some 1%nat) []]>
           (<[1%nat := a_document [2%nat]]> {[0%nat := a_document []]}))
          ∅ ∅ [mkConnection 0 0] [] [].

(** The world in which the node object [r] has become [nd]. *)
Definition with_node (r : ref) (nd : Node) (w : world) : world :=
  set_nodes (insert r nd) w.

(** The world in which the future [f] has become [st]. *)
Definition with_future (f : ref) (st : future) (w : world) : world :=
  set_futures (insert f st) w.

(** A connected element 1 below the document 0, which a browser shows.
    The element has issued the requests 0 and 1: the future 0 is still
    pending, the future 1 was cancelled by its caller. *)
Definition pending_requests : world :=
  mkWorld (<[1%nat := set_reqid 2 (set_tasks (<[1 := 1%nat]> {[0 := 0%nat]})
                        (an_element "div" "1" (Some 0%nat) []))]>
           {[0%nat := a_document [1%nat]]})
          (<[1%nat := Cancelled]> {[0%nat := Pending]}) ∅
          [mkConnection 0 0] [] [].

(** The response messages [{'type': 'response', 'reqid': i, 'data': v}]. *)
Definition response (i : Z) (v : pyval) : msg :=
  <["data" := v]> (<["reqid" := PInt i]> {["type" := PStr "response"]}).

(** A detached element 3, next to the connected element 1 of document 0. *)
Definition detached_button : world :=
  mkWorld (<[3%nat := set_event_listeners [("click", [Callback 7; Callback 8])]
                        (an_element "button" "3" None [])]>
           (<[1%nat := an_element "div" "1" (Some 0%nat) []]>
           {[0%nat := a_document [1%nat]]}))
          {[0%nat := Pending]} ∅ [mkConnection 0 0] [] [].

(** ** The shape of the tree *)

(** [anc ns r x]: [x] is [r] or one of its ancestors. *)
Inductive anc (ns : gmap ref Node) : ref -> ref -> Prop :=
| anc_refl (r : ref) : anc ns r r
| anc_step (r p x : ref) (nd : Node) :
    ns !! r = Some nd -> parentNode nd = Some p -> anc ns p x -> anc ns r x.

(** [desc ns r x]: [x] is [r] or one of its descendants. *)
Inductive desc (ns : gmap ref Node) : ref -> ref -> Prop :=
| desc_refl (r : ref) : desc ns r r
| desc_step (r c x : ref) (nd : Node) :
    ns !! r = Some nd -> c ∈ childNodes nd -> desc ns c x -> desc ns r x.

(** What the walk to the owning document reads of a node. *)
Definition shape (nd : Node) : node_class * option ref := (nodeClass nd, parentNode nd).

(** Every event type that is registered has a listener. *)
Definition listeners_ok (t : list (string * list listener)) : Prop :=
  Forall (fun kv => kv.2 ≠ []) t.

(** The connected element 1 of document 0, with one click listener. *)
Definition listening_div : world :=
  mkWorld (<[1%nat := set_event_listeners [("click", [Callback 7])]
                        (an_element "div" "1" (Some 0%nat) [])]>
           {[0%nat := a_document [1%nat]]})
          ∅ ∅ [mkConnection 0 0] [] [].



(** The same button, now a child of the connected element 1. *)
Definition attached_button : world :=
  mkWorld (<[3%nat := set_event_listeners [("click", [Callback 7; Callback 8])]
                        (an_element "button" "3" (Some 1%nat) [])]>
           (<[1%nat := an_element "div" "1" (Some 0%nat) [3%nat]]>
           {[0%nat := a_document [1%nat]]}))
          {[0%nat := Pending]} ∅ [mkConnection 0 0] [] [].

(** The world of a process that has created no object yet. *)
Definition empty_world : world := mkWorld ∅ ∅ ∅ [] [] [].

(** ** Histories of one node's tracker *)





(** The commands queued since the queue was [before] long. *)
Definition queued_since (before : world) (after : world) : list command :=
  drop (length (message_queue before)) (message_queue after).

(** The node object that [__init__] leaves for a new element, before it is
    hung below its parent. *)
Definition new_node (self : ref) (t : string) (attrs : list (string * string))
    (rid : string) : Node :=
  mkNode CWdomElement t rid attrs EmptyString None [] 0 ∅ [("mount", [OnMount self])].

(** The identity that [__init__] gives to the object [self]. *)
Definition identity_of (self : ref) (rimo_id_arg : option (Z + string)) : string :=
  match rimo_id_arg with
  | None => pretty (Z.of_nat self)
  | Some i => str i
  end.

(** ** Well-formed trees *)

(** The number of steps from a node up to its root. *)
Fixpoint depth_fuel (k : nat) (ns : gmap ref Node) (x : ref) : option nat :=
  match k with
  | O => None
  | S k =>
      match ns !! x with
      | None => None
      | Some nx =>
          match parentNode nx with
          | None => Some O
          | Some q => S <$> depth_fuel k ns q
          end
      end
  end.

(** The parent of a node lists it among its children. *)
Definition parent_ok (ns : gmap ref Node) (x : ref) (nx : Node) : bool :=
  match parentNode nx with
  | None => true
  | Some q =>
      match ns !! q with
      | Some nq => bool_decide (x ∈ childNodes nq)
      | None => false
      end
  end.

(** The children of a node are distinct live objects that name it as their
    parent. *)
Definition children_ok (ns : gmap ref Node) (q : ref) (nq : Node) : bool :=
  bool_decide (NoDup (childNodes nq)) &&
  forallb (fun x => match ns !! x with
                    | Some nx => bool_decide (parentNode nx = Some q)
                    | None => false
                    end) (childNodes nq).

(** Going up from a node ends at a root. *)
Definition rooted (ns : gmap ref Node) (x : ref) : bool :=
  match depth_fuel (size ns) ns x with Some _ => true | None => false end.

Definition node_ok (ns : gmap ref Node) (x : ref) (nx : Node) : bool :=
  parent_ok ns x nx && children_ok ns x nx && rooted ns x.

(** The node objects of the world form trees. *)
Definition tree_ok (w : world) : bool :=
  bool_decide (map_Forall (fun x nx => node_ok (nodes w) x nx = true) (nodes w)).

(** What the serialiser reads of a node: everything but the tracker, the
    listeners and, for a node that is not text, the parent. *)
Definition html_view (ns : gmap ref Node) (x : ref)
  : option (node_class * string * string * list (string * string) * string * list ref * bool) :=
  match ns !! x with
  | Some nx => Some (nodeClass nx, tag nx, rimo_id nx, attributes nx, data nx, childNodes nx,
                     match nodeClass nx with
                     | CText => node.should_escape ns nx
                     | _ => false
                     end)
  | None => None
  end.

(** The connected element 1 of document 0 holds the text 2; the element 3,
    with the text 4 in it, and the text 5 are detached. *)
Definition a_page : world :=
  mkWorld (<[5%nat := a_text "a<b" None]>
           (<[4%nat := a_text "x&y" (Some 3%nat)]>
           (<[3%nat := an_element "span" "3" None [4%nat]]>
           (<[2%nat := a_text "old" (Some 1%nat)]>
           (<[1%nat := an_element "div" "1" (Some 0%nat) [2%nat]]>
           {[0%nat := a_document [1%nat]]})))))
          ∅ ∅ [mkConnection 0 0] [] [].

(** ** The tree after a child has been hung below a parent *)

(** What becomes of the node object [x] when [c] is appended to [p]: [c]
    gets its new parent, [p] gets [c] as its last child, and [c] leaves the
    children of its former parent (it is among the children of no other
    node). *)
Definition move_node (p c x : ref) (nx : Node) : Node :=
  if decide (x = c) then set_parentNode (Some p) nx
  else if decide (x = p)
       then set_childNodes (node.list_remove c (childNodes nx) ++ [c]) nx
       else set_childNodes (node.list_remove c (childNodes nx)) nx.

Definition moved (p c : ref) (ns : gmap ref Node) : gmap ref Node :=
  map_imap (fun x nx => Some (move_node p c x nx)) ns.

(** ** More of the tree library *)
Module tree.

(** Modelled from the spec: [Node._remove] of the absent tree library: a
    node with a parent is taken from it by [removeChild] of the parent; a
    node without a parent stays as it is. *)
Definition _remove (self : ref) : M unit :=
  nd ← get_node self;
  match parentNode nd with
  | Some q => removeChild_of q self;; ret tt
  | None => ret tt
  end.

(** Modelled from the spec: [Node._empty] of the absent tree library, the
    local removal of all children, first to last. *)
Definition _empty (self : ref) : M unit :=
  nd ← get_node self;
  for_each (fun c => node._remove_child self c;; ret tt) (childNodes nd).

(** [l.insert(i, x)] for an index within the list. *)
Fixpoint list_insert_at (i : nat) (x : ref) (l : list ref) : list ref :=
  match i, l with
  | O, _ => x :: l
  | S i, y :: rest => y :: list_insert_at i x rest
  | S _, [] => [x]
  end.

(** Modelled from the spec: [Node._insert_before] of the absent tree
    library, the local insertion of a child before a reference child.  A
    child that hangs elsewhere is first taken from there, by [removeChild]
    of its parent; a reference node that is then not a child of the target
    is a structural violation, raised as [ValueError]. *)
Definition _insert_before (self child ref_node : ref) : M ref :=
  nc ← get_node child;
  match parentNode nc with
  | Some q => removeChild_of q child;; ret tt
  | None => ret tt
  end;;
  i ← node.index self ref_node;
  update_node self (fun nd => set_childNodes (list_insert_at (Z.to_nat i) child (childNodes nd)) nd);;
  update_node child (set_parentNode (Some self));;
  ret child.

(** Modelled from the spec: [Node._replace_child] of the absent tree
    library, the local replacement: the new child is inserted before the
    old one, which is then removed. *)
Definition _replace_child (self new_child old_child : ref) : M ref :=
  _insert_before self new_child old_child;;
  node._remove_child self old_child.

End tree.

(** ** More of class [WdomElement] *)
Module WdomElement.

(** [_remove_web()] *)
Definition _remove_web (self : ref) : M unit := js_exec self "remove" [].

(** [remove()] *)
Definition remove (self : ref) : M unit :=
  c ← gets (connected self);
  (if c then _remove_web self else ret tt);;
  tree._remove self.

(** [_empty_web()] *)
Definition _empty_web (self : ref) : M unit := js_exec self "empty" [].

(** [empty()] *)
Definition empty (self : ref) : M unit :=
  c ← gets (connected self);
  (if c then _empty_web self else ret tt);;
  tree._empty self.

(** [_insert_before_web(child, ref_node)] *)
Definition _insert_before_web (self child ref_node : ref) : M ref :=
  html ← _get_child_html self child;
  nr ← get_node ref_node;
  (if decide (nodeClass nr = CWdomElement)
   then js_exec ref_node "insertAdjacentHTML" [PStr "beforebegin"; PStr html]
   else index ← node.index self ref_node;
        js_exec self "insert" [PInt index; PStr html]);;
  ret child.

(** [insertBefore(child, ref_node)] *)
Definition insertBefore (self child ref_node : ref) : M ref :=
  c ← gets (connected self);
  (if c then _insert_before_web self child ref_node else ret child);;
  tree._insert_before self child ref_node.

(** [_replace_child_web(new_child, old_child)] *)
Definition _replace_child_web (self new_child old_child : ref) : M unit :=
  html ← _get_child_html self new_child;
  no ← get_node old_child;
  if decide (nodeClass no = CWdomElement)
  then js_exec self "replaceChildById" [PStr html; PStr (rimo_id no)]
  else match parentNode no with
       | Some q =>
           index ← node.index q old_child;
           _remove_child_web self old_child;;
           js_exec self "insert" [PInt index; PStr html]
       | None => ret tt
       end.

(** [replaceChild(new_child, old_child)] *)
Definition replaceChild (self new_child old_child : ref) : M ref :=
  c ← gets (connected self);
  (if c then _replace_child_web self new_child old_child else ret tt);;
  tree._replace_child self new_child old_child.

(** [exec(script)] *)
Definition exec (self : ref) (script : string) : M unit :=
  js_exec self "eval" [PStr script].

(** [scroll(x, y)] *)
Definition scroll (self : ref) (x y : Z) : M unit :=
  js_exec self "scroll" [PInt x; PInt y].

(** [scrollTo(x, y)] *)
Definition scrollTo (self : ref) (x y : Z) : M unit :=
  js_exec self "scrollTo" [PInt x; PInt y].

(** [scrollBy(x, y)] *)
Definition scrollBy (self : ref) (x y : Z) : M unit :=
  js_exec self "scrollBy" [PInt x; PInt y].

(** [scrollX()] *)
Definition scrollX (self : ref) : M ref := js_query self "scrollX".

(** [scrollY()] *)
Definition scrollY (self : ref) : M ref := js_query self "scrollY".

End WdomElement.

(** ** Histories of calls *)

(** The calls that the host program and the router make on node objects.
    [ws_send] is left out: it is the one method that queues a command
    without asking whether a connection is live. *)
Inductive call :=
| CallInit (t : string) (attrs : list (string * string)) (parent : option ref)
           (rimo_id_arg : option (Z + string))
| CallAppendChild (self child : ref)
| CallInsertBefore (self child ref_node : ref)
| CallRemoveChild (self child : ref)
| CallReplaceChild (self new_child old_child : ref)
| CallRemove (self : ref)
| CallEmpty (self : ref)
| CallJsExec (self : ref) (method : string) (args : list pyval)
| CallExec (self : ref) (script : string)
| CallScroll (self : ref) (x y : Z)
| CallScrollTo (self : ref) (x y : Z)
| CallScrollBy (self : ref) (x y : Z)
| CallJsQuery (self : ref) (query : string)
| CallScrollX (self : ref)
| CallScrollY (self : ref)
| CallAddEventListener (self : ref) (ev : string) (l : listener)
| CallRemoveEventListener (self : ref) (ev : string) (l : listener)
| CallClick (self : ref)
| CallOnMount (self : ref) (e : Event)
| CallOnResponse (self : ref) (m : msg)
| CallOnMessage (self : ref) (m : msg).

Definition do_call (c : call) : M unit :=
  match c with
  | CallInit t attrs parent i => __init__ t attrs parent i;; ret tt
  | CallAppendChild self child => appendChild self child;; ret tt
  | CallInsertBefore self child ref_node =>
      WdomElement.insertBefore self child ref_node;; ret tt
  | CallRemoveChild self child => removeChild self child;; ret tt
  | CallReplaceChild self new_child old_child =>
      WdomElement.replaceChild self new_child old_child;; ret tt
  | CallRemove self => WdomElement.remove self
  | CallEmpty self => WdomElement.empty self
  | CallJsExec self method args => js_exec self method args
  | CallExec self script => WdomElement.exec self script
  | CallScroll self x y => WdomElement.scroll self x y
  | CallScrollTo self x y => WdomElement.scrollTo self x y
  | CallScrollBy self x y => WdomElement.scrollBy self x y
  | CallJsQuery self query => js_query self query;; ret tt
  | CallScrollX self => WdomElement.scrollX self;; ret tt
  | CallScrollY self => WdomElement.scrollY self;; ret tt
  | CallAddEventListener self ev l => addEventListener self ev l
  | CallRemoveEventListener self ev l => removeEventListener self ev l
  | CallClick self => click self
  | CallOnMount self e => _on_mount self e
  | CallOnResponse self m => on_response self m
  | CallOnMessage self m => WebIF.on_message self m
  end.

(** The calls in order; one that raises is caught by the host program, and
    the next call finds the world as the failed one left it. *)
Fixpoint history (cs : list call) (w : world) : world :=
  match cs with
  | [] => w
  | c :: rest => history rest (world_of (do_call c w))
  end.

(** What no call changes of a node object. *)
Definition static (nd : Node) : node_class * string * string * list (string * string) * string :=
  (nodeClass nd, tag nd, rimo_id nd, attributes nd, data nd).

(** The command names a live node object as its sender: it carries the
    identity and the tag of that object, and the target [node]. *)
Definition sent_by_live_node (w : world) (c : command) : Prop :=
  ∃ r nd, nodes w !! r = Some nd ∧
          c !! "id" = Some (PStr (rimo_id nd)) ∧
          c !! "tag" = Some (PStr (tag nd)) ∧
          c !! "target" = Some (PStr "node").

(** What a call may do to the world. *)
Record footprint (w w' : world) : Prop := mkFootprint {
  fp_connections : connections w' = connections w;
  fp_queue : ∃ new, message_queue w' = message_queue w ++ new ∧
                    (connections w = [] → new = []) ∧
                    Forall (sent_by_live_node w') new;
  fp_calls : ∃ more, calls w' = calls w ++ more;
  fp_nodes : ∀ r nd, nodes w !! r = Some nd →
               ∃ nd', nodes w' !! r = Some nd' ∧ static nd' = static nd ∧
                      reqid nd ≤ reqid nd';
  fp_futures : ∀ f st, futures w !! f = Some st →
                 ∃ st', futures w' !! f = Some st' ∧ (st ≠ Pending → st' = st);
  fp_tasks : ∀ r nd' z f, nodes w' !! r = Some nd' → tasks nd' !! z = Some f →
               (∃ nd, nodes w !! r = Some nd ∧ tasks nd !! z = Some f) ∨
               (z < reqid nd' ∧ ∀ nd, nodes w !! r = Some nd → reqid nd ≤ z);
  fp_registry : ∀ k r, elements_with_rimo_id w' !! k = Some r →
                  elements_with_rimo_id w !! k = Some r ∨
                  ∃ s nd, k = inr s ∧ nodes w' !! r = Some nd ∧ rimo_id nd = s;
}.

(** The registry finds, under a key, a live node object with that very
    identity; its keys are strings. *)
Definition registry_ok (w : world) : Prop :=
  ∀ k r, elements_with_rimo_id w !! k = Some r →
    ∃ s nd, k = inr s ∧ nodes w !! r = Some nd ∧ rimo_id nd = s.

(** The request ids in the table of every node are below its counter. *)
Definition tracker_ok (w : world) : Prop :=
  ∀ r nd z f, nodes w !! r = Some nd → tasks nd !! z = Some f → z < reqid nd.

(** A method keeps within the footprint, whether it returns or raises. *)
Definition preserves {A} (m : M A) : Prop := ∀ w, footprint w (world_of (m w)).

(** The sample page with no browser connected. *)
Definition offline_page : world := set_connections (fun _ => []) a_page.

(** The HTML that [_get_child_html] computes for a child of the node
    [self]: a text child is serialised as if it hung below [self]. *)
Definition child_html_in (w : world) (self child : ref) : option string :=
  match nodes w !! child, nodes w !! self with
  | Some nc, Some nd =>
      if decide (nodeClass nc = CText)
      then Some (if node.raw_text_tag (tag nd) then data nc else node.escape (data nc))
      else node.html_of w child
  | _, _ => None
  end.

(** ** Identities made of digits *)

(** Every character of [s] is a decimal digit. *)
Fixpoint all_digits (s : string) : bool :=
  match s with
  | EmptyString => true
  | String c s' => is_digit c && all_digits s'
  end.

(** No character of [s] is a space. *)
Fixpoint no_space (s : string) : bool :=
  match s with
  | EmptyString => true
  | String c s' => negb (Ascii.eqb c " ") && no_space s'
  end.

(** ** Taking a child from its former parent *)

(** The commands that the call [q.removeChild(c)] queues, for the parent
    [q] of [c]: one command of [q] when [q] is a connected [WdomElement],
    removeChildById for a child that is a [WdomElement] and
    removeChildByIndex for any other; none otherwise, and none for a node
    without a parent. *)
Definition detach_commands (w : world) (c : ref) : list command :=
  match nodes w !! c with
  | Some nc =>
      match parentNode nc with
      | Some q =>
          match nodes w !! q with
          | Some nq =>
              if decide (nodeClass nq = CWdomElement) then
                if connected q w then
                  match node.list_index c (childNodes nq) with
                  | Some i => [if decide (nodeClass nc = CWdomElement)
                               then command_of nq "removeChildById" [PStr (rimo_id nc)]
                               else command_of nq "removeChildByIndex" [PInt (Z.of_nat i)]]
                  | None => []
                  end
                else []
              else []
          | None => []
          end
      | None => []
      end
  | None => []
  end.

(** * Properties *)

(** ** Stripping the identity attribute *)

Example remove_rimo_id_ex1 :
  remove_rimo_id ("<a rimo_id=" +:+ dq +:+ "123" +:+ dq +:+ " b>x</a>") = "<a b>x</a>"%string.
Proof. reflexivity. Qed.

Example remove_rimo_id_ex2 :
  remove_rimo_id ("<a rimo_id=" +:+ dq +:+ "abc" +:+ dq +:+ ">") = ("<a rimo_id=" +:+ dq +:+ "abc" +:+ dq +:+ ">").
Proof. reflexivity. Qed.


(** C9, at the failing input.  The element made by
    [WdomElement('div', rimo_id='abc')] serialises with its identity
    attribute, and [html_noid] returns that very string, identity attribute
    included: the pattern asks for digits.  An element made with the
    identity 5 loses the attribute. *)
Theorem html_noid_keeps_named_id :
  let named := "<div rimo_id=" +:+ dq +:+ "abc" +:+ dq +:+ "></div>" in
  remove_rimo_id named = named ∧
  value_of (bind (__init__ "div" [] None (Some (inr "abc"%string))) html_noid empty_world)
    = Some named ∧
  value_of (bind (__init__ "div" [] None (Some (inl 5))) html_noid empty_world)
    = Some "<div></div>"%string.
Proof. repeat split; reflexivity. Qed.

(** ** The connection gate *)

Lemma filter_nonempty_nonempty {A} (P : A -> Prop) `{!∀ x, Decision (P x)} (l : list A) :
  filter P l ≠ [] → l ≠ [].
Proof. intros Hne ->. by apply Hne. Qed.

Lemma connected_iff (w : world) (self : ref) :
  connected self w = true ↔
  (∃ d, node.ownerDocument w self = Some d) ∧ connections w ≠ [].
Proof.
  unfold connected, server.is_connected.
  destruct (connections w) as [|c cs], (node.ownerDocument w self) as [d|]; simpl;
    split; try done; try (intros [[d' ?] ?]; done); eauto.
Qed.

Lemma WebIF_connected_iff (w : world) (self : ref) :
  WebIF.connected self w = true ↔
  ∃ d, node.ownerDocument w self = Some d ∧ server.connections_of w d ≠ [].
Proof.
  unfold WebIF.connected.
  destruct (node.ownerDocument w self) as [d|]; [|split; [done | by intros (? & ? & _)]].
  destruct (server.connections_of w d) eqn:E; split; try done.
  - intros (d' & [= <-] & H). by rewrite E in H.
  - intros _. exists d. by rewrite E.
Qed.

(** C1, as the code has it.  [WebIF.connected] is true exactly when the node
    has an owning document and that document has a live connection.
    [WdomElement.connected] is true exactly when the node has an owning
    document and the transport has a live connection to any document.  A
    node without an owning document is not connected under either, whatever
    the connections; and after any change of the live connections both
    predicates are decided by the connections as they then are. *)
Theorem connected_gate (w : world) (self : ref) :
  (WebIF.connected self w = true ↔
     ∃ d, node.ownerDocument w self = Some d ∧ server.connections_of w d ≠ []) ∧
  (connected self w = true ↔
     (∃ d, node.ownerDocument w self = Some d) ∧ connections w ≠ []) ∧
  (node.ownerDocument w self = None →
     ∀ f, connected self (set_connections f w) = false ∧
          WebIF.connected self (set_connections f w) = false) ∧
  (∀ f,
     (connected self (set_connections f w) = true ↔
        (∃ d, node.ownerDocument w self = Some d) ∧ f (connections w) ≠ []) ∧
     (WebIF.connected self (set_connections f w) = true ↔
        ∃ d, node.ownerDocument w self = Some d ∧
             filter (fun c => conn_document c = d) (f (connections w)) ≠ []) ∧
     ((∃ d, node.ownerDocument w self = Some d ∧
            filter (fun c => conn_document c = d) (f (connections w)) ≠ []) →
      connected self (set_connections f w) = true)).
Proof.
  split; [apply WebIF_connected_iff|].
  split; [apply connected_iff|].
  split.
  - intros Hnone f. split.
    + destruct (connected self (set_connections f w)) eqn:E; [|done].
      apply connected_iff in E as [[d Hd] _].
      change (node.ownerDocument w self = Some d) in Hd. congruence.
    + destruct (WebIF.connected self (set_connections f w)) eqn:E; [|done].
      apply WebIF_connected_iff in E as (d & Hd & _).
      change (node.ownerDocument w self = Some d) in Hd. congruence.
  - intros f.
    pose proof (connected_iff (set_connections f w) self) as H1.
    pose proof (WebIF_connected_iff (set_connections f w) self) as H2.
    split; [exact H1|]. split; [exact H2|].
    intros (d & Hd & Hf). apply H1. split; [by exists d|].
    by apply filter_nonempty_nonempty in Hf.
Qed.

(** C1, counterexample.  The element 2 is owned by document 1, which has no
    live connection; the only connection shows document 0.  Yet
    [WdomElement.connected] holds of the element. *)
Lemma connected_without_connection_to_owner :
  node.ownerDocument two_documents 2%nat = Some 1%nat ∧
  server.connections_of two_documents 1%nat = [] ∧
  connected 2%nat two_documents = true.
Proof. by vm_compute. Qed.

(** ** Running methods *)

Lemma get_node_ok (w : world) (r : ref) (nd : Node) :
  nodes w !! r = Some nd → get_node r w = Ok nd w.
Proof. intros H. unfold get_node. by rewrite H. Qed.

Lemma update_node_ok (w : world) (r : ref) (nd : Node) (f : Node -> Node) :
  nodes w !! r = Some nd → update_node r f w = Ok tt (with_node r (f nd) w).
Proof.
  intros H. unfold update_node, modify, with_node, set_nodes. by rewrite H.
Qed.

Lemma get_future_ok (w : world) (f : ref) (st : future) :
  futures w !! f = Some st → asyncio.get_future f w = Ok st w.
Proof. intros H. unfold asyncio.get_future. by rewrite H. Qed.

Lemma bind_ok {A B} (m : M A) (k : A -> M B) (w w1 : world) (a : A) :
  m w = Ok a w1 → bind m k w = k a w1.
Proof. intros H. unfold bind. by rewrite H. Qed.

(** Unfolds the plumbing of the monad, so that a method becomes a cascade
    of lookups in the world. *)
Ltac unfold_world :=
  unfold with_node, with_future, set_nodes, set_futures, set_message_queue,
    set_calls, set_registry, set_connections; simpl.

Ltac run_method :=
  repeat (progress (
    unfold tasks_pop, bind, ret, gets, modify, raise, get_node, update_node,
      asyncio.get_future, asyncio.set_result, asyncio.Future,
      server.push_message;
    unfold_world)).

(** ** The pending-request tracker: responses *)

Lemma truthy_data_present (m : msg) :
  truthy (dict_get m "data" (PBool false)) = true →
  dict_get m "data" PNone = dict_get m "data" (PBool false).
Proof. unfold dict_get. by destruct (m !! "data"). Qed.

(** C2, as the code has it.  [WebIF._handle_response] and
    [WdomElement.on_response] are the same computation.  A response with an
    empty payload (absent, [None], [False], 0, the empty string, list or
    dict) changes nothing.  With a non-empty payload: a request id that is
    not in the table changes nothing; an id stored with a pending handle
    completes the handle with the payload and drops the entry; an id stored
    with a handle that is finished or cancelled leaves the handle as it is
    and drops the entry.  None of these raises. *)
Theorem on_response_cases (w : world) (self : ref) (nd : Node) (m : msg) :
  nodes w !! self = Some nd →
  let data := dict_get m "data" (PBool false) in
  let key := int_key (dict_get m "reqid" PNone) in
  WebIF._handle_response self m w = on_response self m w ∧
  (truthy data = false → on_response self m w = Ok tt w) ∧
  (truthy data = true →
   key = NoIntKey ∨ (∃ z, key = IntKey z ∧ tasks nd !! z = None) →
   on_response self m w = Ok tt w) ∧
  (∀ z f, truthy data = true → key = IntKey z → tasks nd !! z = Some f →
     futures w !! f = Some Pending →
     on_response self m w =
       Ok tt (with_future f (Finished data)
                (with_node self (set_tasks (delete z (tasks nd)) nd) w))) ∧
  (∀ z f st, truthy data = true → key = IntKey z → tasks nd !! z = Some f →
     futures w !! f = Some st → st ≠ Pending →
     on_response self m w =
       Ok tt (with_node self (set_tasks (delete z (tasks nd)) nd) w)).
Proof.
  intros Hnd data key. split; [reflexivity|].
  unfold on_response. fold data. split; [by intros ->|].
  split; [|split].
  - intros -> Hkey. run_method. rewrite Hnd. fold key.
    by destruct Hkey as [-> | (z & -> & ->)].
  - intros z f Hd Hkey Hf Hst. rewrite Hd. run_method. rewrite Hnd. fold key.
    rewrite Hkey, Hf. simpl. rewrite Hst. simpl. run_method. rewrite Hst. simpl.
    unfold data in Hd. rewrite (truthy_data_present _ Hd).
    unfold_world. by rewrite Hnd.
  - intros z f st Hd Hkey Hf Hst Hne. rewrite Hd. run_method. rewrite Hnd. fold key.
    rewrite Hkey, Hf. simpl. rewrite Hst.
    unfold_world. rewrite Hnd. by destruct st.
Qed.

(** C2, witness: the pending request 0 of the sample world is answered. *)
Lemma on_response_cases_witness :
  on_response 1%nat (response 0 (PStr "12")) pending_requests =
    Ok tt (with_future 0%nat (Finished (PStr "12"))
            (with_node 1%nat
               (set_reqid 2 (set_tasks {[1 := 1%nat]} (an_element "div" "1" (Some 0%nat) [])))
               pending_requests)).
Proof.
  destruct (on_response_cases pending_requests 1%nat
              (set_reqid 2 (set_tasks (<[1 := 1%nat]> {[0 := 0%nat]})
                 (an_element "div" "1" (Some 0%nat) [])))
              (response 0 (PStr "12")) eq_refl) as (_ & _ & _ & H & _).
  rewrite (H 0 0%nat eq_refl eq_refl eq_refl eq_refl).
  reflexivity.
Defined.

(** C2, counterexample.  In the sample world the request 0 is stored with a
    pending handle and the request 1 with a cancelled one.  A response to 0
    whose payload is the number 0 completes nothing: the world is as
    before.  A response to 1 is not without effect: the entry is dropped
    from the table. *)
Lemma on_response_not_as_claimed :
  (∃ nd, nodes pending_requests !! 1%nat = Some nd ∧ tasks nd !! 0 = Some 0%nat ∧
         futures pending_requests !! 0%nat = Some Pending ∧
         on_response 1%nat (response 0 (PInt 0)) pending_requests = Ok tt pending_requests) ∧
  (∃ nd nd', nodes pending_requests !! 1%nat = Some nd ∧ tasks nd !! 1 = Some 1%nat ∧
         futures pending_requests !! 1%nat = Some Cancelled ∧
         nodes (world_of (on_response 1%nat (response 1 (PStr "12")) pending_requests)) !! 1%nat
           = Some nd' ∧
         tasks nd' !! 1 = None).
Proof.
  split.
  - eexists. repeat split; reflexivity.
  - eexists _, _. repeat split; reflexivity.
Qed.

(** ** The pending-request tracker: queries *)

Lemma fresh_future_unused (w : world) : futures w !! fresh (dom (futures w)) = None.
Proof. apply not_elem_of_dom, is_fresh. Qed.



(** ** The mutation emitter: removing a child *)

Lemma is_child_false (c : ref) (nd : Node) :
  c ∉ childNodes nd → node.is_child c nd = false.
Proof. intros H. unfold node.is_child. by rewrite bool_decide_eq_false. Qed.

(** C6.  When the argument is not among the children of the node,
    [removeChild] raises [ValueError], and the world it leaves is the world
    it found: the tree is as before and, connected or not, no command has
    been queued. *)
Theorem removeChild_not_a_child (w : world) (self child : ref) (nd : Node) :
  nodes w !! self = Some nd →
  child ∉ childNodes nd →
  removeChild self child w = Raise ValueError w.
Proof.
  intros Hnd Hc. apply is_child_false in Hc.
  unfold removeChild, _remove_child_web, node._remove_child. run_method.
  destruct (connected self w); run_method; rewrite Hnd; simpl; rewrite Hc; simpl;
    [rewrite Hnd; simpl; by rewrite Hc | done].
Qed.

(** C6, witness: the detached element 3 is not a child of the connected
    element 1. *)
Lemma removeChild_not_a_child_witness :
  connected 1%nat detached_button = true ∧
  removeChild 1%nat 3%nat detached_button = Raise ValueError detached_button.
Proof.
  split; [reflexivity|].
  apply (removeChild_not_a_child detached_button 1%nat 3%nat
           (an_element "div" "1" (Some 0%nat) [])).
  - reflexivity.
  - simpl. apply not_elem_of_nil.
Defined.

(** ** Frame properties of the connection gate *)

Lemma ownerDocument_fuel_frame (ns ns' : gmap ref Node) (k : nat) (r : ref) :
  (∀ x, anc ns r x → shape <$> ns !! x = shape <$> ns' !! x) →
  node.ownerDocument_fuel k ns r = node.ownerDocument_fuel k ns' r.
Proof.
  revert r. induction k as [|k IH]; intros r H; [done|].
  simpl. pose proof (H r (anc_refl _ _)) as Hr.
  destruct (ns !! r) as [nd|] eqn:E, (ns' !! r) as [nd'|] eqn:E'; try done.
  simpl in Hr. injection Hr as Hc Hp. rewrite <- Hc, <- Hp.
  destruct (decide (nodeClass nd = CDocument)); [done|].
  destruct (parentNode nd) as [p|] eqn:Ep; [|done].
  apply IH. intros x Hx. apply H. by eapply anc_step.
Qed.

Lemma ownerDocument_frame (w w' : world) (r : ref) :
  size (nodes w') = size (nodes w) →
  (∀ x, anc (nodes w) r x → shape <$> nodes w !! x = shape <$> nodes w' !! x) →
  node.ownerDocument w' r = node.ownerDocument w r.
Proof.
  intros Hs H. unfold node.ownerDocument. rewrite Hs.
  symmetry. by apply ownerDocument_fuel_frame.
Qed.

Lemma size_with_node (w : world) (r : ref) (nd nd' : Node) :
  nodes w !! r = Some nd → size (nodes (with_node r nd' w)) = size (nodes w).
Proof. intros H. simpl. rewrite map_size_insert. by rewrite H. Qed.

Lemma ownerDocument_with_node (w : world) (r x : ref) (nd nd' : Node) :
  nodes w !! r = Some nd → shape nd' = shape nd →
  node.ownerDocument (with_node r nd' w) x = node.ownerDocument w x.
Proof.
  intros H Hs. apply ownerDocument_frame; [by eapply size_with_node|].
  intros y _. simpl. destruct (decide (r = y)) as [<-|Hne].
  - rewrite lookup_insert_eq, H. simpl. by rewrite Hs.
  - by rewrite lookup_insert_ne.
Qed.

Lemma connected_with_node (w : world) (r x : ref) (nd nd' : Node) :
  nodes w !! r = Some nd → shape nd' = shape nd →
  connected x (with_node r nd' w) = connected x w.
Proof.
  intros H Hs. unfold connected.
  by rewrite (ownerDocument_with_node w r x nd nd' H Hs).
Qed.

(** ** Commands *)

Lemma js_exec_connected (w : world) (self : ref) (nd : Node) (method : string)
    (args : list pyval) :
  nodes w !! self = Some nd → connected self w = true →
  js_exec self method args w =
    Ok tt (set_message_queue (fun q => q ++ [command_of nd method args]) w).
Proof.
  intros Hnd Hc. unfold js_exec, ws_send. run_method. rewrite Hc.
  apply connected_iff in Hc as [[d Hd] _]. run_method. rewrite Hd. simpl.
  by rewrite Hnd.
Qed.

Lemma js_exec_disconnected (w : world) (self : ref) (method : string) (args : list pyval) :
  connected self w = false → js_exec self method args w = Ok tt w.
Proof. intros Hc. unfold js_exec. run_method. by rewrite Hc. Qed.

(** ** Listener bookkeeping *)

Lemma registered_cons (ev k : string) (ls : list listener) (t : list (string * list listener)) :
  event.registered ev ((k, ls) :: t) = String.eqb k ev || event.registered ev t.
Proof.
  unfold event.registered. simpl. destruct (String.eqb_spec k ev) as [->|Hne]; simpl.
  - apply bool_decide_eq_true. by left.
  - apply bool_decide_ext. rewrite elem_of_cons. split; [|by right].
    intros [->|?]; done.
Qed.

Lemma registered_delete_key (ev : string) (t : list (string * list listener)) :
  event.registered ev (event.delete_key ev t) = false.
Proof.
  unfold event.delete_key. induction t as [|[k ls] t IH].
  - unfold event.registered. apply bool_decide_eq_false. apply not_elem_of_nil.
  - destruct (String.eqb_spec k ev) as [->|Hne].
    + by rewrite filter_cons_False by (simpl; auto).
    + rewrite filter_cons_True by done. rewrite registered_cons, IH.
      destruct (String.eqb_spec k ev); done.
Qed.

Lemma listeners_for_delete_key (ev : string) (t : list (string * list listener)) :
  event.listeners_for ev (event.delete_key ev t) = [].
Proof.
  unfold event.delete_key. induction t as [|[k ls] t IH]; [done|].
  destruct (String.eqb_spec k ev) as [->|Hne].
  - by rewrite filter_cons_False by (simpl; auto).
  - rewrite filter_cons_True by done. simpl.
    destruct (String.eqb_spec k ev); [done | exact IH].
Qed.

Lemma remove_first_only (l : listener) (ls : list listener) :
  ls ≠ [] → event.remove_first l ls = [] ↔ ls = [l].
Proof.
  intros Hne. destruct ls as [|x ls]; [done|]. simpl.
  destruct (decide (l = x)) as [->|Hx].
  - split; [by intros -> | by intros [= ->]].
  - split; [done | intros [= ? _]; congruence].
Qed.

(** After a removal the event type has left the table exactly when the
    listener removed was its only listener. *)
Lemma registered_after_remove (ev : string) (l : listener)
    (t : list (string * list listener)) :
  event.registered ev (event.remove_listener ev l t) =
    negb (bool_decide (event.listeners_for ev t = [l])).
Proof.
  induction t as [|[k ls] t IH].
  - cbn [event.remove_listener event.listeners_for].
    rewrite registered_cons, String.eqb_refl.
    by rewrite bool_decide_eq_false_2.
  - cbn [event.remove_listener event.listeners_for].
    destruct (String.eqb k ev) eqn:Ek.
    + apply String.eqb_eq in Ek as ->.
      destruct ls as [|x ls].
      * rewrite registered_cons, String.eqb_refl.
        by rewrite bool_decide_eq_false_2.
      * pose proof (remove_first_only l (x :: ls) ltac:(done)) as Honly.
        destruct (event.remove_first l (x :: ls)) as [|y ls'] eqn:Er.
        -- rewrite registered_delete_key.
           rewrite bool_decide_eq_true_2; [done|]. by apply Honly.
        -- rewrite registered_cons, String.eqb_refl.
           rewrite bool_decide_eq_false_2; [done|].
           intros H. apply Honly in H. done.
    + rewrite registered_cons, Ek. exact IH.
Qed.

(** When the only listener of an event type is removed, none remains. *)
Lemma listeners_after_remove (ev : string) (l : listener)
    (t : list (string * list listener)) :
  event.listeners_for ev t = [l] →
  event.listeners_for ev (event.remove_listener ev l t) = [].
Proof.
  induction t as [|[k ls] t IH]; simpl; [done|].
  destruct (String.eqb k ev) eqn:Ek.
  - intros ->. simpl. rewrite decide_True by done. apply listeners_for_delete_key.
  - intros H. simpl. rewrite Ek. by apply IH.
Qed.

(** C7, as the code has it.  On a connected node, every call of
    [addEventListener] queues one addEventListener command, whether or not
    the event type already had a listener.  [removeEventListener] queues
    one removeEventListener command exactly when the listener removed was
    the only listener of the event type, and then no listener remains for
    the type; in every other case, the removal from an event type without
    a listener included, it queues none. *)
Theorem listener_commands (w : world) (self : ref) (nd : Node) (ev : string) (l : listener) :
  nodes w !! self = Some nd →
  connected self w = true →
  addEventListener self ev l w =
    Ok tt (set_message_queue
             (fun q => q ++ [command_of nd "addEventListener" [PStr ev]])
             (with_node self
                (set_event_listeners (event.add_listener ev l (event_listeners nd)) nd) w)) ∧
  let remaining := event.remove_listener ev l (event_listeners nd) in
  removeEventListener self ev l w =
    Ok tt (set_message_queue
             (fun q => q ++ if bool_decide (event.listeners_for ev (event_listeners nd) = [l])
                            then [command_of nd "removeEventListener" [PStr ev]]
                            else [])
             (with_node self (set_event_listeners remaining nd) w)) ∧
  (event.listeners_for ev (event_listeners nd) = [l] →
   event.listeners_for ev remaining = []).
Proof.
  intros Hnd Hc. split.
  - unfold addEventListener, event.addEventListener, _add_event_listener_web.
    rewrite (bind_ok _ _ _ _ _ (update_node_ok _ _ _ _ Hnd)).
    set (nd1 := set_event_listeners _ nd). set (w1 := with_node self nd1 w).
    assert (connected self w1 = true) as Hc1.
    { unfold w1. by rewrite (connected_with_node w self self nd nd1 Hnd eq_refl). }
    assert (nodes w1 !! self = Some nd1) as Hnd1 by apply lookup_insert_eq.
    unfold bind at 1, gets. rewrite Hc1.
    by rewrite (js_exec_connected w1 self nd1 _ _ Hnd1 Hc1).
  - intros remaining. split; [|apply listeners_after_remove].
    unfold removeEventListener, event.removeEventListener, _remove_event_listener_web.
    rewrite (bind_ok _ _ _ _ _ (update_node_ok _ _ _ _ Hnd)).
    fold remaining.
    set (nd1 := set_event_listeners _ nd). set (w1 := with_node self nd1 w).
    assert (connected self w1 = true) as Hc1.
    { unfold w1. by rewrite (connected_with_node w self self nd nd1 Hnd eq_refl). }
    assert (nodes w1 !! self = Some nd1) as Hnd1 by apply lookup_insert_eq.
    unfold bind at 1, gets. rewrite Hc1.
    rewrite (bind_ok _ _ _ _ _ (get_node_ok _ _ _ Hnd1)).
    change (event_listeners nd1) with remaining. unfold remaining.
    rewrite registered_after_remove, negb_involutive.
    destruct (bool_decide (event.listeners_for ev (event_listeners nd) = [l])).
    + by rewrite (js_exec_connected w1 self nd1 _ _ Hnd1 Hc1).
    + unfold ret, set_message_queue. simpl. by rewrite app_nil_r.
Qed.

(** C7, witness: on the connected element of the sample world, a second
    click listener is added, its only click listener is removed, and a
    listener is removed from an event type that has none. *)
Lemma listener_commands_witness :
  message_queue (world_of (addEventListener 1%nat "click" (Callback 8) listening_div)) =
    [command_of (an_element "div" "1" (Some 0%nat) []) "addEventListener" [PStr "click"]] ∧
  message_queue (world_of (removeEventListener 1%nat "click" (Callback 7) listening_div)) =
    [command_of (an_element "div" "1" (Some 0%nat) []) "removeEventListener" [PStr "click"]] ∧
  message_queue (world_of (removeEventListener 1%nat "input" (Callback 7) listening_div)) = [].
Proof.
  destruct (listener_commands listening_div 1%nat
              (set_event_listeners [("click", [Callback 7])]
                 (an_element "div" "1" (Some 0%nat) []))
              "click" (Callback 8) eq_refl eq_refl) as [Hadd _].
  destruct (listener_commands listening_div 1%nat
              (set_event_listeners [("click", [Callback 7])]
                 (an_element "div" "1" (Some 0%nat) []))
              "click" (Callback 7) eq_refl eq_refl) as (_ & Hrem & _).
  destruct (listener_commands listening_div 1%nat
              (set_event_listeners [("click", [Callback 7])]
                 (an_element "div" "1" (Some 0%nat) []))
              "input" (Callback 7) eq_refl eq_refl) as (_ & Hrem' & _).
  rewrite Hadd, Hrem, Hrem'. repeat split; reflexivity.
Defined.

(** C7, counterexample.  The connected element of the sample world already
    has a click listener, and no command is queued.  Adding a second click
    listener queues an addEventListener command all the same. *)
Lemma addEventListener_repeats_command :
  (∃ nd, nodes listening_div !! 1%nat = Some nd ∧
         event.registered "click" (event_listeners nd) = true) ∧
  connected 1%nat listening_div = true ∧
  message_queue listening_div = [] ∧
  message_queue (world_of (addEventListener 1%nat "click" (Callback 8) listening_div)) =
    [command_of (an_element "div" "1" (Some 0%nat) []) "addEventListener" [PStr "click"]].
Proof.
  split; [eexists; split; reflexivity|].
  repeat split; reflexivity.
Qed.

(** ** Event synthesis *)








(** ** The pending-request tracker: request ids *)

Lemma js_query_connected (w : world) (self : ref) (nd : Node) (query : string) :
  nodes w !! self = Some nd → connected self w = true →
  let f := fresh (dom (futures w)) in
  js_query self query w =
    Ok f (with_node self (set_reqid (reqid nd + 1)
                            (set_tasks (<[reqid nd := f]> (tasks nd)) nd))
            (with_future f Pending
               (set_message_queue
                  (fun q => q ++ [command_of nd query [PInt (reqid nd)]]) w))).
Proof.
  intros Hnd Hc f. unfold js_query.
  unfold bind at 1, gets. rewrite Hc.
  rewrite (bind_ok _ _ _ _ _ (get_node_ok _ _ _ Hnd)).
  rewrite (bind_ok _ _ _ _ _ (js_exec_connected w self nd _ _ Hnd Hc)).
  run_method. rewrite Hnd. simpl. rewrite lookup_insert_eq. simpl.
  by rewrite insert_insert_eq.
Qed.






(** ** Local tree operations on a detached child *)

Lemma ownerDocument_detached (w : world) (r : ref) (nd : Node) :
  nodes w !! r = Some nd → parentNode nd = None → nodeClass nd ≠ CDocument →
  node.ownerDocument w r = None.
Proof.
  intros H Hp Hc. unfold node.ownerDocument. simpl. rewrite H.
  destruct (decide (nodeClass nd = CDocument)); [done|]. by rewrite Hp.
Qed.

Lemma connected_detached (w : world) (r : ref) (nd : Node) :
  nodes w !! r = Some nd → parentNode nd = None → nodeClass nd ≠ CDocument →
  connected r w = false.
Proof.
  intros H Hp Hc. unfold connected.
  rewrite (ownerDocument_detached w r nd H Hp Hc). apply andb_false_r.
Qed.

Lemma append_child_detached (w : world) (p c : ref) (np nc : Node) :
  nodes w !! c = Some nc → parentNode nc = None →
  nodes w !! p = Some np → p ≠ c →
  _append_child p c w =
    Ok c (with_node c (set_parentNode (Some p) nc)
            (with_node p (set_childNodes (childNodes np ++ [c]) np) w)).
Proof.
  intros Hc Hpar Hp Hne. unfold _append_child.
  rewrite (bind_ok _ _ _ _ _ (get_node_ok _ _ _ Hc)). rewrite Hpar.
  run_method. rewrite Hp. simpl. rewrite lookup_insert_ne by done. by rewrite Hc.
Qed.

Lemma html_leaf_element (w : world) (r : ref) (nd : Node) :
  nodes w !! r = Some nd → nodeClass nd = CWdomElement → childNodes nd = [] →
  node.html r w = Ok (node.start_tag nd +:+ node.end_tag nd) w.
Proof.
  intros H Hc Hk. unfold node.html, node.html_of. simpl.
  by rewrite H, Hc, Hk.
Qed.

Example end_tag_of_void_element :
  node.end_tag (an_element "br" "5" None []) = EmptyString ∧
  node.end_tag (an_element "div" "5" None []) = "</div>"%string.
Proof. split; reflexivity. Qed.

Lemma appendChild_new_leaf (w : world) (p c : ref) (np nc : Node) :
  nodes w !! c = Some nc → nodeClass nc = CWdomElement →
  parentNode nc = None → childNodes nc = [] →
  nodes w !! p = Some np → p ≠ c →
  ∃ q, appendChild p c w =
         Ok c (set_message_queue (fun _ => q)
                 (with_node c (set_parentNode (Some p) nc)
                    (with_node p (set_childNodes (childNodes np ++ [c]) np) w))).
Proof.
  intros Hc Hcls Hpar Hk Hp Hne. unfold appendChild.
  unfold bind at 1, gets. destruct (connected p w) eqn:Hcon.
  - assert (_get_child_html p c w = Ok (node.start_tag nc +:+ node.end_tag nc) w) as Hh.
    { unfold _get_child_html.
      rewrite (bind_ok _ _ _ _ _ (get_node_ok _ _ _ Hc)). rewrite Hcls. simpl.
      by apply html_leaf_element. }
    set (w1 := set_message_queue
                 (fun q => q ++ [command_of np "insertAdjacentHTML"
                     [PStr "beforeend"; PStr (node.start_tag nc +:+ node.end_tag nc)]]) w).
    assert (_append_child_web p c w = Ok c w1) as Hw.
    { unfold _append_child_web. rewrite (bind_ok _ _ _ _ _ Hh).
      by rewrite (bind_ok _ _ _ _ _ (js_exec_connected w p np _ _ Hp Hcon)). }
    rewrite (bind_ok _ _ _ _ _ Hw).
    rewrite (append_child_detached w1 p c np nc Hc Hpar Hp Hne).
    by eexists.
  - rewrite (bind_ok _ _ _ _ _ (eq_refl : ret c w = Ok c w)).
    rewrite (append_child_detached w p c np nc Hc Hpar Hp Hne).
    exists (message_queue w). by destruct w.
Qed.

(** ** The constructor *)

Lemma fresh_node_unused (w : world) : nodes w !! fresh (dom (nodes w)) = None.
Proof. apply not_elem_of_dom, is_fresh. Qed.

(** Up to the last statement of [__init__]: the object is made, named,
    registered and given its mount listener. *)
Lemma init_before_parent (w : world) (t : string) (attrs : list (string * string))
    (parent : option ref) (i : option (Z + string)) :
  let self := fresh (dom (nodes w)) in
  let w1 := set_registry (insert (inr (identity_of self i)) self)
              (with_node self (new_node self t attrs (identity_of self i)) w) in
  __init__ t attrs parent i w =
    bind (match parent with
          | Some p => bind (appendChild p self) (fun _ => ret tt)
          | None => ret tt
          end) (fun _ => ret self) w1.
Proof.
  intros self w1. unfold __init__.
  unfold bind at 1. unfold new_element at 1. fold self.
  set (nd0 := mkNode CWdomElement t EmptyString attrs EmptyString None [] 0 ∅ []).
  set (w0 := set_nodes (insert self nd0) w).
  assert (nodes w0 !! self = Some nd0) as H0 by apply lookup_insert_eq.
  rewrite (bind_ok _ _ _ _ _ (update_node_ok _ _ _ _ H0)).
  assert (with_node self (set_reqid 0 nd0) w0 = w0) as ->.
  { unfold with_node, w0, set_nodes. simpl. by rewrite insert_insert_eq. }
  rewrite (bind_ok _ _ _ _ _ (update_node_ok _ _ _ _ H0)).
  assert (with_node self (set_tasks ∅ nd0) w0 = w0) as ->.
  { unfold with_node, w0, set_nodes. simpl. by rewrite insert_insert_eq. }
  set (nd1 := set_rimo_id (identity_of self i) nd0).
  assert (match i with
          | Some i0 => update_node self (set_rimo_id (str i0))
          | None => update_node self (set_rimo_id (str (inl (Z.of_nat self))))
          end w0 = Ok tt (with_node self nd1 w0)) as Hid.
  { destruct i; by rewrite (update_node_ok _ _ _ _ H0). }
  rewrite (bind_ok _ _ _ _ _ Hid).
  set (w2 := with_node self nd1 w0).
  assert (nodes w2 !! self = Some nd1) as H2 by apply lookup_insert_eq.
  rewrite (bind_ok _ _ _ _ _ (get_node_ok _ _ _ H2)).
  unfold bind at 1, modify.
  set (w3 := set_registry _ w2).
  assert (nodes w3 !! self = Some nd1) as H3 by exact H2.
  assert (addEventListener self "mount" (OnMount self) w3 = Ok tt w1) as Hl.
  { unfold addEventListener, event.addEventListener.
    rewrite (bind_ok _ _ _ _ _ (update_node_ok _ _ _ _ H3)).
    unfold bind at 1, gets.
    rewrite (connected_detached _ self (new_node self t attrs (identity_of self i)));
      [|apply lookup_insert_eq|done|done].
    unfold ret, w1, w3, w2, w0, with_node, set_registry, set_nodes. simpl.
    by rewrite !insert_insert_eq. }
  by rewrite (bind_ok _ _ _ _ _ Hl).
Qed.

(** What the constructor does, for a parent that is a live object. *)
Lemma init_outcome (w : world) (t : string) (attrs : list (string * string))
    (parent : option ref) (i : option (Z + string)) :
  (∀ p, parent = Some p → is_Some (nodes w !! p)) →
  let self := fresh (dom (nodes w)) in
  ∃ w' nd',
    __init__ t attrs parent i w = Ok self w' ∧
    nodes w' !! self = Some nd' ∧
    nd' = set_parentNode parent (new_node self t attrs (identity_of self i)) ∧
    elements_with_rimo_id w' =
      <[inr (identity_of self i) := self]> (elements_with_rimo_id w).
Proof.
  intros Hp self. rewrite init_before_parent. fold self.
  set (nd := new_node self t attrs (identity_of self i)).
  set (w1 := set_registry _ _).
  assert (nodes w1 !! self = Some nd) as H1 by apply lookup_insert_eq.
  destruct parent as [p|].
  - destruct (Hp p eq_refl) as [np Hnp].
    assert (p ≠ self) as Hne.
    { intros ->. pose proof (fresh_node_unused w) as Hf. fold self in Hf. congruence. }
    assert (nodes w1 !! p = Some np) as Hnp1.
    { unfold w1. simpl. by rewrite lookup_insert_ne. }
    destruct (appendChild_new_leaf w1 p self np nd H1 eq_refl eq_refl eq_refl Hnp1 Hne)
      as [q Hq].
    pose proof (bind_ok _ (fun _ => ret tt) _ _ _ Hq) as Hq'.
    rewrite (bind_ok _ _ _ _ _ Hq').
    eexists _, _. split; [reflexivity|]. simpl.
    split; [apply lookup_insert_eq|]. done.
  - eexists _, _. split; [reflexivity|]. split; [exact H1|]. done.
Qed.

Example str_of_int : str (inl 120) = "120"%string ∧ str (inl (-5)) = "-5"%string ∧
                     str (inl 0) = "0"%string ∧ str (inr "5"%string) = "5"%string.
Proof. repeat split; reflexivity. Qed.

(** C10.  The constructor, called with a parent that is a live object or
    with none, returns the new object.  Its identity is a string: the
    decimal string of [id(self)] when no identity is supplied, the decimal
    string of a supplied integer, a supplied string itself.  The registry
    maps that string to the new object, whatever it mapped it to before,
    and is otherwise as before; so if no key of the registry was an integer
    before, none is after, and looking up an integer finds nothing. *)
Theorem init_identity (w : world) (t : string) (attrs : list (string * string))
    (parent : option ref) (i : option (Z + string)) :
  (∀ p, parent = Some p → is_Some (nodes w !! p)) →
  let self := fresh (dom (nodes w)) in
  let rid := match i with
             | None => pretty (Z.of_nat self)
             | Some (inl z) => pretty z
             | Some (inr s) => s
             end in
  ∃ w' nd',
    __init__ t attrs parent i w = Ok self w' ∧
    nodes w !! self = None ∧
    nodes w' !! self = Some nd' ∧
    rimo_id nd' = rid ∧
    elements_with_rimo_id w' !! inr rid = Some self ∧
    (∀ k, k ≠ inr rid → elements_with_rimo_id w' !! k = elements_with_rimo_id w !! k) ∧
    ((∀ z, elements_with_rimo_id w !! inl z = None) →
     ∀ z, elements_with_rimo_id w' !! inl z = None).
Proof.
  intros Hp self rid.
  destruct (init_outcome w t attrs parent i Hp) as (w' & nd' & Hi & Hnd' & -> & Hreg).
  fold self in Hi, Hnd', Hreg.
  assert (identity_of self i = rid) as Hrid by (by destruct i as [[z|s]|]).
  rewrite Hrid in Hreg, Hnd'.
  exists w', (set_parentNode parent (new_node self t attrs rid)).
  split; [exact Hi|]. split; [apply fresh_node_unused|]. split; [exact Hnd'|].
  split; [done|]. rewrite Hreg.
  split; [apply lookup_insert_eq|].
  split; [intros k Hk; by rewrite lookup_insert_ne|].
  intros Hint z. by rewrite lookup_insert_ne.
Qed.

(** C10, witness: in a process with no object yet, an element is made with
    the integer identity 5; the registry finds it under the string, not
    under the integer. *)
Lemma init_identity_witness :
  ∃ w' nd',
    __init__ "div" [] None (Some (inl 5)) empty_world = Ok 0%nat w' ∧
    nodes w' !! 0%nat = Some nd' ∧
    rimo_id nd' = "5"%string ∧
    elements_with_rimo_id w' !! inr "5"%string = Some 0%nat ∧
    elements_with_rimo_id w' !! inl 5 = None.
Proof.
  destruct (init_identity empty_world "div" [] None (Some (inl 5)))
    as (w' & nd' & Hi & _ & Hnd & Hrid & Hreg & _ & Hint).
  { intros p Hp. discriminate Hp. }
  exists w', nd'. split; [exact Hi|]. split; [exact Hnd|]. split; [exact Hrid|].
  split; [exact Hreg|]. apply Hint. intros z. reflexivity.
Defined.





(** ** Well-formed trees *)

Section tree.
Variable w : world.
Hypothesis Hok : tree_ok w = true.

Local Abbreviation ns := (nodes w).

Lemma tree_node_ok (x : ref) (nx : Node) :
  ns !! x = Some nx → node_ok ns x nx = true.
Proof.
  intros Hx. unfold tree_ok in Hok. apply bool_decide_eq_true in Hok.
  by apply (Hok x nx).
Qed.

Lemma tree_parent (x q : ref) (nx : Node) :
  ns !! x = Some nx → parentNode nx = Some q →
  ∃ nq, ns !! q = Some nq ∧ x ∈ childNodes nq.
Proof.
  intros Hx Hp. pose proof (tree_node_ok x nx Hx) as H.
  unfold node_ok in H. apply andb_true_iff in H as [H _].
  apply andb_true_iff in H as [H _]. unfold parent_ok in H. rewrite Hp in H.
  destruct (ns !! q) as [nq|]; [|done].
  exists nq. split; [done|]. by apply bool_decide_eq_true in H.
Qed.

Lemma tree_child (x q : ref) (nq : Node) :
  ns !! q = Some nq → x ∈ childNodes nq →
  ∃ nx, ns !! x = Some nx ∧ parentNode nx = Some q.
Proof.
  intros Hq Hx. pose proof (tree_node_ok q nq Hq) as H.
  unfold node_ok in H. apply andb_true_iff in H as [H _].
  apply andb_true_iff in H as [_ H]. unfold children_ok in H.
  apply andb_true_iff in H as [_ H].
  rewrite forallb_forall in H. specialize (H x).
  rewrite <- list_elem_of_In in H. specialize (H Hx).
  destruct (ns !! x) as [nx|]; [|done].
  exists nx. split; [done|]. by apply bool_decide_eq_true in H.
Qed.

Lemma tree_children_NoDup (q : ref) (nq : Node) :
  ns !! q = Some nq → NoDup (childNodes nq).
Proof.
  intros Hq. pose proof (tree_node_ok q nq Hq) as H.
  unfold node_ok in H. apply andb_true_iff in H as [H _].
  apply andb_true_iff in H as [_ H]. unfold children_ok in H.
  apply andb_true_iff in H as [H _]. by apply bool_decide_eq_true in H.
Qed.

Lemma tree_rooted (x : ref) (nx : Node) :
  ns !! x = Some nx → ∃ d, depth_fuel (size ns) ns x = Some d.
Proof.
  intros Hx. pose proof (tree_node_ok x nx Hx) as H.
  unfold node_ok in H. apply andb_true_iff in H as [_ H]. unfold rooted in H.
  destruct (depth_fuel (size ns) ns x) as [d|]; [by exists d | done].
Qed.
End tree.

Lemma depth_fuel_lt (ns : gmap ref Node) (k : nat) (x : ref) (d : nat) :
  depth_fuel k ns x = Some d → (d < k)%nat.
Proof.
  revert x d. induction k as [|k IH]; intros x d; simpl; [done|].
  destruct (ns !! x) as [nx|]; [|done].
  destruct (parentNode nx) as [q|]; [|intros [= <-]; lia].
  destruct (depth_fuel k ns q) as [d'|] eqn:E; [|done].
  simpl. intros [= <-]. apply IH in E. lia.
Qed.

Lemma depth_fuel_mono (ns : gmap ref Node) (k k' : nat) (x : ref) (d : nat) :
  depth_fuel k ns x = Some d → (k ≤ k')%nat → depth_fuel k' ns x = Some d.
Proof.
  revert k' x d. induction k as [|k IH]; intros k' x d; simpl; [done|].
  intros H Hle. destruct k' as [|k']; [lia|]. simpl.
  destruct (ns !! x) as [nx|]; [|done].
  destruct (parentNode nx) as [q|]; [|done].
  destruct (depth_fuel k ns q) as [d'|] eqn:E; [|done].
  rewrite (IH k' q d' E) by lia. done.
Qed.

Lemma depth_fuel_parent (ns : gmap ref Node) (k : nat) (x q : ref) (nx : Node) (d : nat) :
  depth_fuel k ns x = Some d → ns !! x = Some nx → parentNode nx = Some q →
  ∃ d', d = S d' ∧ depth_fuel k ns q = Some d'.
Proof.
  destruct k as [|k]; simpl; [done|]. intros H Hx Hp. rewrite Hx, Hp in H.
  destruct (depth_fuel k ns q) as [d'|] eqn:E; [|done].
  injection H as <-. exists d'. split; [done|].
  apply (depth_fuel_mono ns k (S k) q d' E). lia.
Qed.

Lemma depth_fuel_anc (ns : gmap ref Node) (k : nat) (x y : ref) (d : nat) :
  anc ns x y → depth_fuel k ns x = Some d →
  ∃ d', depth_fuel k ns y = Some d' ∧ (d' ≤ d)%nat.
Proof.
  intros Ha. revert d. induction Ha as [r | r p x nd Hr Hp _ IH]; intros d Hd.
  - exists d. split; [done | lia].
  - destruct (depth_fuel_parent ns k r p nd d Hd Hr Hp) as (d1 & -> & Hd1).
    destruct (IH d1 Hd1) as (d' & Hd' & Hle). exists d'. split; [done | lia].
Qed.

Lemma anc_trans (ns : gmap ref Node) (x y z : ref) :
  anc ns x y → anc ns y z → anc ns x z.
Proof.
  induction 1 as [r | r p x nd Hr Hp _ IH]; [done|].
  intros Hz. eapply anc_step; eauto.
Qed.

Lemma tree_acyclic (w : world) (x q : ref) (nx : Node) :
  tree_ok w = true → nodes w !! x = Some nx → parentNode nx = Some q →
  ¬ anc (nodes w) q x.
Proof.
  intros Hok Hx Hp Ha.
  destruct (tree_rooted w Hok x nx Hx) as [d Hd].
  destruct (depth_fuel_parent _ _ x q nx d Hd Hx Hp) as (d1 & -> & Hd1).
  destruct (depth_fuel_anc _ _ q x d1 Ha Hd1) as (d' & Hd' & Hle).
  rewrite Hd in Hd'. injection Hd' as <-. lia.
Qed.

Lemma desc_anc (w : world) (r x : ref) :
  tree_ok w = true → desc (nodes w) r x → anc (nodes w) x r.
Proof.
  intros Hok. induction 1 as [r | r c x nd Hr Hc _ IH]; [constructor|].
  destruct (tree_child w Hok c r nd Hr Hc) as (nc & Hnc & Hp).
  apply (anc_trans _ x c r IH). eapply anc_step; [exact Hnc | exact Hp | constructor].
Qed.

(** ** The serialiser *)

Lemma depth_fuel_live (ns : gmap ref Node) (k : nat) (x : ref) (d : nat) :
  depth_fuel k ns x = Some d → is_Some (ns !! x).
Proof. destruct k; simpl; [done|]. by destruct (ns !! x). Qed.

(** On a well-formed tree the serialiser returns: the fuel is not used up. *)
Lemma html_fuel_total (w : world) (n : nat) (x : ref) (d : nat) :
  tree_ok w = true →
  depth_fuel (size (nodes w)) (nodes w) x = Some d →
  (size (nodes w) ≤ d + n)%nat →
  is_Some (node.html_fuel n (nodes w) x).
Proof.
  intros Hok. revert x d. induction n as [|n IH]; intros x d Hd Hle.
  - apply depth_fuel_lt in Hd. lia.
  - destruct (depth_fuel_live _ _ _ _ Hd) as [nx Hx]. simpl. rewrite Hx.
    assert (is_Some (mapM (node.html_fuel n (nodes w)) (childNodes nx))) as [inner Hin].
    { apply mapM_is_Some, Forall_forall. intros y Hy. simpl.
      destruct (tree_child w Hok y x nx Hx Hy) as (ny & Hny & Hp).
      destruct (tree_rooted w Hok y ny Hny) as [dy Hdy].
      destruct (depth_fuel_parent _ _ y x ny dy Hdy Hny Hp) as (d' & -> & Hd').
      rewrite Hd in Hd'. injection Hd' as <-.
      apply (IH y (S d) Hdy). lia. }
    rewrite Hin. by destruct (nodeClass nx).
Qed.

Lemma html_of_total (w : world) (x : ref) (nx : Node) :
  tree_ok w = true → nodes w !! x = Some nx → is_Some (node.html_of w x).
Proof.
  intros Hok Hx. destruct (tree_rooted w Hok x nx Hx) as [d Hd].
  apply (html_fuel_total w _ x d Hok Hd). lia.
Qed.

(** The serialiser reads the subtree of the node, and nothing else. *)
Lemma html_fuel_frame (ns ns' : gmap ref Node) (n : nat) (r : ref) :
  (∀ x, desc ns r x → html_view ns x = html_view ns' x) →
  node.html_fuel n ns r = node.html_fuel n ns' r.
Proof.
  revert r. induction n as [|n IH]; intros r H; [done|].
  simpl. pose proof (H r (desc_refl _ _)) as Hr. unfold html_view in Hr.
  destruct (ns !! r) as [nd|] eqn:E, (ns' !! r) as [nd'|] eqn:E'; try done.
  injection Hr as Hc Ht Hi Ha Hd Hk He.
  assert (mapM (node.html_fuel n ns) (childNodes nd)
          = mapM (node.html_fuel n ns') (childNodes nd')) as Hm.
  { rewrite <- Hk. apply Forall_mapM_ext, Forall_forall. intros y Hy.
    apply IH. intros x Hx. apply H. by eapply desc_step. }
  assert (node.start_tag nd = node.start_tag nd') as Hs.
  { unfold node.start_tag, _get_attrs_by_string, element._get_attrs_by_string.
    by rewrite Ht, Hi, Ha. }
  assert (node.end_tag nd = node.end_tag nd') as He'.
  { unfold node.end_tag. by rewrite Ht. }
  rewrite <- Hc in He |- *. revert He. destruct (nodeClass nd); intros He.
  - by rewrite Hm.
  - by rewrite Hm, Hs, He'.
  - by rewrite He, Hd.
Qed.

(** ** The local tree operations *)

Lemma list_remove_notin (c : ref) (l : list ref) : c ∉ l → node.list_remove c l = l.
Proof.
  induction l as [|y l IH]; [done|]. rewrite not_elem_of_cons. intros [Hne Hl].
  simpl. destruct (decide (c = y)); [done|]. by rewrite IH.
Qed.

Lemma list_remove_app_last (c : ref) (l : list ref) :
  c ∉ l → node.list_remove c (l ++ [c]) = l.
Proof.
  induction l as [|y l IH]; simpl.
  - intros _. by destruct (decide (c = c)).
  - rewrite not_elem_of_cons. intros [Hne Hl].
    destruct (decide (c = y)); [done|]. by rewrite IH.
Qed.

Lemma list_remove_NoDup (c : ref) (l : list ref) : NoDup l → c ∉ node.list_remove c l.
Proof.
  induction 1 as [|y l Hy _ IH]; simpl; [apply not_elem_of_nil|].
  destruct (decide (c = y)) as [->|Hne]; [done|].
  rewrite not_elem_of_cons. done.
Qed.

Lemma lookup_moved (p c x : ref) (ns : gmap ref Node) :
  moved p c ns !! x = move_node p c x <$> ns !! x.
Proof. unfold moved. rewrite map_lookup_imap. by destruct (ns !! x). Qed.

Lemma size_same_dom {A B} (m : gmap ref A) (m' : gmap ref B) :
  (∀ x, is_Some (m !! x) ↔ is_Some (m' !! x)) → size m = size m'.
Proof.
  intros H. rewrite <- !size_dom. f_equal. apply set_eq. intros x.
  rewrite !elem_of_dom. apply H.
Qed.

Lemma size_moved (p c : ref) (ns : gmap ref Node) : size (moved p c ns) = size ns.
Proof.
  apply size_same_dom. intros x. rewrite lookup_moved.
  destruct (ns !! x); simpl; split; intros [? ?]; eauto; done.
Qed.

Lemma remove_child_ok (w : world) (q c : ref) (nq nc : Node) :
  nodes w !! q = Some nq → c ∈ childNodes nq → nodes w !! c = Some nc → q ≠ c →
  node._remove_child q c w =
    Ok c (with_node c (set_parentNode None nc)
            (with_node q (set_childNodes (node.list_remove c (childNodes nq)) nq) w)).
Proof.
  intros Hq Hin Hc Hne. unfold node._remove_child.
  rewrite (bind_ok _ _ _ _ _ (get_node_ok _ _ _ Hq)).
  unfold node.is_child. rewrite bool_decide_eq_true_2 by done. simpl.
  run_method. rewrite Hq. simpl. rewrite lookup_insert_ne by done. by rewrite Hc.
Qed.

Lemma list_index_is_Some (x : ref) (l : list ref) :
  x ∈ l → ∃ i, node.list_index x l = Some i ∧ l !! i = Some x.
Proof.
  induction l as [|y l IH]; [by intros ?%elem_of_nil|].
  intros Hx. simpl. destruct (decide (x = y)) as [->|Hne]; [by exists O|].
  apply elem_of_cons in Hx as [?|Hx]; [done|].
  destruct (IH Hx) as (i & -> & Hi). by exists (S i).
Qed.

Lemma index_ok (w : world) (self child : ref) (nd : Node) (i : nat) :
  nodes w !! self = Some nd → node.list_index child (childNodes nd) = Some i →
  node.index self child w = Ok (Z.of_nat i) w.
Proof.
  intros Hnd Hi. unfold node.index.
  rewrite (bind_ok _ _ _ _ _ (get_node_ok _ _ _ Hnd)). by rewrite Hi.
Qed.

Lemma set_message_queue_nil (w : world) : set_message_queue (fun q => q ++ []) w = w.
Proof. unfold set_message_queue. rewrite app_nil_r. by destruct w. Qed.

(** [removeChild] of a child: the command of [_remove_child_web], if the
    node is connected, and the local removal. *)
Lemma removeChild_child (w : world) (self child : ref) (nd nc : Node) (i : nat) :
  nodes w !! self = Some nd →
  nodes w !! child = Some nc →
  self ≠ child →
  child ∈ childNodes nd →
  node.list_index child (childNodes nd) = Some i →
  removeChild self child w =
    Ok child
       (with_node child (set_parentNode None nc)
          (with_node self (set_childNodes (node.list_remove child (childNodes nd)) nd)
             (set_message_queue
                (fun q => q ++
                   if connected self w
                   then [if decide (nodeClass nc = CWdomElement)
                         then command_of nd "removeChildById" [PStr (rimo_id nc)]
                         else command_of nd "removeChildByIndex" [PInt (Z.of_nat i)]]
                   else []) w))).
Proof.
  intros Hnd Hc Hne Hin Hi.
  unfold removeChild. unfold bind at 1, gets.
  destruct (connected self w) eqn:Hcon.
  - set (cmd := if decide (nodeClass nc = CWdomElement)
                then command_of nd "removeChildById" [PStr (rimo_id nc)]
                else command_of nd "removeChildByIndex" [PInt (Z.of_nat i)]).
    assert (_remove_child_web self child w =
            Ok child (set_message_queue (fun q => q ++ [cmd]) w)) as Hweb.
    { unfold _remove_child_web.
      rewrite (bind_ok _ _ _ _ _ (get_node_ok _ _ _ Hnd)).
      unfold node.is_child. rewrite bool_decide_eq_true_2 by done.
      assert ((nc0 ← get_node child;
               if decide (nodeClass nc0 = CWdomElement)
               then js_exec self "removeChildById" [PStr (rimo_id nc0)]
               else i0 ← node.index self child;
                    js_exec self "removeChildByIndex" [PInt i0])%py w
              = Ok tt (set_message_queue (fun q => q ++ [cmd]) w)) as Hinner.
      { rewrite (bind_ok _ _ _ _ _ (get_node_ok _ _ _ Hc)). unfold cmd.
        destruct (decide (nodeClass nc = CWdomElement)).
        - apply (js_exec_connected w self nd _ _ Hnd Hcon).
        - rewrite (bind_ok _ _ _ _ _ (index_ok w self child nd i Hnd Hi)).
          apply (js_exec_connected w self nd _ _ Hnd Hcon). }
      by rewrite (bind_ok _ _ _ _ _ Hinner). }
    rewrite (bind_ok _ _ _ _ _ Hweb).
    by rewrite (remove_child_ok (set_message_queue (fun q => q ++ [cmd]) w)
                  self child nd nc Hnd Hin Hc Hne).
  - rewrite (bind_ok _ _ _ _ _ (eq_refl : ret child w = Ok child w)).
    rewrite (remove_child_ok w self child nd nc Hnd Hin Hc Hne).
    f_equal. unfold with_node, set_nodes, set_message_queue. simpl.
    rewrite app_nil_r. by destruct w.
Qed.

(** On a well-formed tree, [removeChild] of the parent takes a node from
    it, with the command of a connected [WdomElement]. *)
Lemma removeChild_of_parent (w : world) (q c : ref) (nc : Node) :
  tree_ok w = true →
  nodes w !! c = Some nc → parentNode nc = Some q →
  ∃ nq,
    nodes w !! q = Some nq ∧ c ∈ childNodes nq ∧ q ≠ c ∧
    removeChild_of q c w =
      Ok c (with_node c (set_parentNode None nc)
              (with_node q (set_childNodes (node.list_remove c (childNodes nq)) nq)
                 (set_message_queue (fun m => m ++ detach_commands w c) w))).
Proof.
  intros Hok Hc Hpar.
  destruct (tree_parent w Hok c q nc Hc Hpar) as (nq & Hq & Hin).
  assert (q ≠ c) as Hqc.
  { intros ->. apply (tree_acyclic w c c nc Hok Hc Hpar). constructor. }
  destruct (list_index_is_Some c (childNodes nq) Hin) as (i & Hi & _).
  exists nq. split; [done|]. split; [done|]. split; [done|].
  unfold removeChild_of. rewrite (bind_ok _ _ _ _ _ (get_node_ok _ _ _ Hq)).
  unfold detach_commands. rewrite Hc, Hpar, Hq, Hi.
  destruct (decide (nodeClass nq = CWdomElement)) as [Hcls|Hcls].
  - by rewrite (removeChild_child w q c nq nc i Hq Hc Hqc Hin Hi).
  - rewrite (remove_child_ok w q c nq nc Hq Hin Hc Hqc).
    by rewrite set_message_queue_nil.
Qed.

Lemma detach_commands_detached (w : world) (c : ref) (nc : Node) :
  nodes w !! c = Some nc → parentNode nc = None → detach_commands w c = [].
Proof. intros Hc Hpar. unfold detach_commands. by rewrite Hc, Hpar. Qed.

(** On a well-formed tree the local append returns, and leaves the tree
    with the child moved below the parent; the former parent of the child
    has queued its command. *)
Lemma append_child_moved (w : world) (p c : ref) (np nc : Node) :
  tree_ok w = true →
  nodes w !! p = Some np → nodes w !! c = Some nc → p ≠ c →
  _append_child p c w =
    Ok c (set_nodes (moved p c)
            (set_message_queue (fun m => m ++ detach_commands w c) w)).
Proof.
  intros Hok Hp Hc Hne.
  assert (∀ x nx, nodes w !! x = Some nx → parentNode nc ≠ Some x →
                  node.list_remove c (childNodes nx) = childNodes nx) as Hother.
  { intros x nx Hx Hpar. apply list_remove_notin. intros Hin.
    destruct (tree_child w Hok c x nx Hx Hin) as (nc' & Hc' & Hp').
    congruence. }
  destruct (parentNode nc) as [q|] eqn:Hpar.
  - destruct (removeChild_of_parent w q c nc Hok Hc Hpar) as (nq & Hq & Hin & Hqc & Hrem).
    unfold _append_child.
    rewrite (bind_ok _ _ _ _ _ (get_node_ok _ _ _ Hc)). rewrite Hpar.
    pose proof (bind_ok _ (fun _ => ret tt) _ _ _ Hrem) as Hrem'.
    rewrite (bind_ok _ _ _ _ _ Hrem'). unfold ret at 1.
    set (cmds := detach_commands w c). clearbody cmds. clear Hrem Hrem' Hok.
    run_method.
    destruct (decide (p = q)) as [->|Hpq].
    + rewrite lookup_insert_ne by done. rewrite lookup_insert_eq. simpl.
      rewrite lookup_insert_ne by done. rewrite lookup_insert_eq.
      f_equal. destruct w; simpl in *. f_equal.
      apply map_eq. intros x. rewrite lookup_moved.
      destruct (decide (x = c)) as [->|Hxc].
      * rewrite lookup_insert_eq, Hc. simpl. unfold move_node.
        by rewrite decide_True.
      * rewrite lookup_insert_ne by done.
        destruct (decide (x = q)) as [->|Hxq].
        -- rewrite lookup_insert_eq, Hq. simpl. unfold move_node.
           rewrite decide_False by done. by rewrite decide_True.
        -- rewrite !lookup_insert_ne by done.
           destruct (nodes0 !! x) as [nx|] eqn:Hx; [|done]. simpl.
           unfold move_node. rewrite !decide_False by done.
           rewrite (Hother x nx Hx) by congruence. by destruct nx.
    + rewrite lookup_insert_ne by done. rewrite lookup_insert_ne by done.
      rewrite Hp. simpl.
      rewrite lookup_insert_ne by done. rewrite lookup_insert_eq.
      f_equal. destruct w; simpl in *. f_equal.
      apply map_eq. intros x. rewrite lookup_moved.
      destruct (decide (x = c)) as [->|Hxc].
      * rewrite lookup_insert_eq, Hc. simpl. unfold move_node.
        by rewrite decide_True.
      * rewrite lookup_insert_ne by done.
        destruct (decide (x = p)) as [->|Hxp].
        -- rewrite lookup_insert_eq, Hp. simpl. unfold move_node.
           rewrite decide_False by done. rewrite decide_True by done.
           rewrite (Hother p np Hp) by congruence. done.
        -- rewrite lookup_insert_ne by done. rewrite lookup_insert_ne by done.
           destruct (decide (x = q)) as [->|Hxq].
           ++ rewrite lookup_insert_eq, Hq. simpl. unfold move_node.
              by rewrite !decide_False by done.
           ++ rewrite lookup_insert_ne by done.
              destruct (nodes0 !! x) as [nx|] eqn:Hx; [|done]. simpl.
              unfold move_node. rewrite !decide_False by done.
              rewrite (Hother x nx Hx) by congruence. by destruct nx.
  - rewrite (append_child_detached w p c np nc Hc Hpar Hp Hne).
    rewrite (detach_commands_detached w c nc Hc Hpar), set_message_queue_nil.
    f_equal. unfold with_node, set_nodes. destruct w; simpl in *. f_equal.
    apply map_eq. intros x. rewrite lookup_moved.
    destruct (decide (x = c)) as [->|Hxc].
    + rewrite lookup_insert_eq, Hc. simpl. unfold move_node. by rewrite decide_True.
    + rewrite lookup_insert_ne by done.
      destruct (decide (x = p)) as [->|Hxp].
      * rewrite lookup_insert_eq, Hp. simpl. unfold move_node.
        rewrite decide_False by done. rewrite decide_True by done.
        rewrite (Hother p np Hp) by done. done.
      * rewrite lookup_insert_ne by done.
        destruct (nodes0 !! x) as [nx|] eqn:Hx; [|done]. simpl.
        unfold move_node. rewrite !decide_False by done.
        rewrite (Hother x nx Hx) by done. by destruct nx.
Qed.

Lemma html_of_nodes (w w' : world) (x : ref) :
  nodes w' = nodes w → node.html_of w' x = node.html_of w x.
Proof. intros H. unfold node.html_of. by rewrite H. Qed.

(** The world after the temporary attachment of a text child and its
    removal: the child hangs nowhere, and is among the children of no
    node; its former parent has queued its command. *)
Lemma get_child_html_text (w : world) (p c : ref) (np nc : Node) :
  tree_ok w = true →
  nodes w !! p = Some np → nodes w !! c = Some nc → p ≠ c →
  nodeClass nc = CText →
  ∃ h,
    node.html_of (set_nodes (moved p c) w) c = Some h ∧
    _get_child_html p c w =
      Ok h (set_nodes (fun ns =>
              <[c := set_parentNode None nc]>
                (<[p := set_childNodes (node.list_remove c (childNodes np)) np]>
                   (moved p c ns)))
              (set_message_queue (fun m => m ++ detach_commands w c) w)).
Proof.
  intros Hok Hp Hc Hne Hcls.
  set (wq := set_message_queue (fun m => m ++ detach_commands w c) w).
  set (wa := set_nodes (moved p c) wq).
  assert (nodes wa !! c = Some (set_parentNode (Some p) nc)) as Hca.
  { unfold wa. simpl. rewrite lookup_moved, Hc. simpl. unfold move_node.
    by rewrite decide_True. }
  assert (nodes wa !! p =
          Some (set_childNodes (node.list_remove c (childNodes np) ++ [c]) np)) as Hpa.
  { unfold wa. simpl. rewrite lookup_moved, Hp. simpl. unfold move_node.
    rewrite decide_False by done. by rewrite decide_True. }
  assert (is_Some (node.html_of wa c)) as [h Hh].
  { unfold node.html_of. simpl. rewrite lookup_moved, Hc. simpl.
    unfold move_node. rewrite decide_True by done. simpl. rewrite Hcls. eauto. }
  exists h. split; [exact Hh|].
  unfold _get_child_html.
  rewrite (bind_ok _ _ _ _ _ (get_node_ok _ _ _ Hc)).
  rewrite decide_True by done.
  rewrite (bind_ok _ _ _ _ _ (append_child_moved w p c np nc Hok Hp Hc Hne)).
  fold wq. fold wa.
  assert (node.html c wa = Ok h wa) as Hhtml by (unfold node.html; by rewrite Hh).
  rewrite (bind_ok _ _ _ _ _ Hhtml).
  assert (c ∈ childNodes (set_childNodes (node.list_remove c (childNodes np) ++ [c]) np))
    as Hin by (simpl; apply elem_of_app; right; by left).
  rewrite (bind_ok _ _ _ _ _ (remove_child_ok wa p c _ _ Hpa Hin Hca Hne)).
  unfold ret. f_equal. simpl.
  rewrite list_remove_app_last
    by (apply list_remove_NoDup, (tree_children_NoDup w Hok p np Hp)).
  set (cmds := detach_commands w c). clearbody cmds.
  unfold with_node, wa, wq, set_nodes, set_message_queue. by destruct w, np, nc.
Qed.

Lemma moved_after_detour (p c : ref) (np nc : Node) (ns : gmap ref Node) :
  ns !! p = Some np → ns !! c = Some nc → p ≠ c →
  <[c := set_parentNode (Some p) (set_parentNode None nc)]>
    (<[p := set_childNodes (node.list_remove c (childNodes np) ++ [c])
              (set_childNodes (node.list_remove c (childNodes np)) np)]>
       (<[c := set_parentNode None nc]>
          (<[p := set_childNodes (node.list_remove c (childNodes np)) np]>
             (moved p c ns))))
  = moved p c ns.
Proof.
  intros Hp Hc Hne. apply map_eq. intros x.
  destruct (decide (x = c)) as [->|Hxc].
  - rewrite lookup_insert_eq, lookup_moved, Hc. simpl. unfold move_node.
    rewrite decide_True by done. by destruct nc.
  - rewrite lookup_insert_ne by done.
    destruct (decide (x = p)) as [->|Hxp].
    + rewrite lookup_insert_eq, lookup_moved, Hp. simpl. unfold move_node.
      rewrite decide_False by done. rewrite decide_True by done. by destruct np.
    + by rewrite !lookup_insert_ne by done.
Qed.

(** The gate gives the same answer for the parent after the detour of a
    text child, which is not among the ancestors of the parent. *)
Lemma connected_after_detour (w : world) (p c : ref) (np nc : Node) :
  nodes w !! p = Some np → nodes w !! c = Some nc →
  ¬ anc (nodes w) p c →
  connected p (set_nodes (fun ns =>
              <[c := set_parentNode None nc]>
                (<[p := set_childNodes (node.list_remove c (childNodes np)) np]>
                   (moved p c ns))) w) = connected p w.
Proof.
  intros Hp Hc Hanc. unfold connected. f_equal.
  rewrite (ownerDocument_frame w); [done| |].
  - simpl. symmetry. apply size_same_dom. intros x.
    destruct (decide (x = c)) as [->|Hxc]; [rewrite lookup_insert_eq, Hc; split; eauto|].
    rewrite lookup_insert_ne by done.
    destruct (decide (x = p)) as [->|Hxp]; [rewrite lookup_insert_eq, Hp; split; eauto|].
    rewrite lookup_insert_ne by done. rewrite lookup_moved.
    destruct (nodes w !! x); simpl; split; intros [? ?]; eauto; done.
  - intros x Hx. simpl.
    assert (x ≠ c) as Hxc by (by intros ->).
    rewrite lookup_insert_ne by done.
    destruct (decide (x = p)) as [->|Hxp]; [by rewrite lookup_insert_eq, Hp|].
    rewrite lookup_insert_ne by done. rewrite lookup_moved.
    destruct (nodes w !! x) as [nx|]; [|done]. simpl. unfold move_node.
    by rewrite !decide_False by done.
Qed.

Lemma tag_move_node (p c x : ref) (nx : Node) : tag (move_node p c x nx) = tag nx.
Proof. unfold move_node. by repeat destruct (decide _). Qed.

Lemma should_escape_moved (p c : ref) (ns : gmap ref Node) (nx : Node) :
  node.should_escape (moved p c ns) nx = node.should_escape ns nx.
Proof.
  unfold node.should_escape. destruct (parentNode nx) as [y|]; [|done].
  rewrite lookup_moved. destruct (ns !! y) as [ny|]; [|done]. simpl.
  by rewrite tag_move_node.
Qed.

(** Hanging a node that is not text below a parent does not change how the
    node is serialised. *)
Lemma html_moved (w : world) (p c : ref) (np nc : Node) :
  tree_ok w = true →
  nodes w !! p = Some np → nodes w !! c = Some nc →
  ¬ anc (nodes w) p c →
  nodeClass nc ≠ CText →
  node.html_of (set_nodes (moved p c) w) c = node.html_of w c.
Proof.
  intros Hok Hp Hc Hanc Hcls. unfold node.html_of.
  change (nodes (set_nodes (moved p c) w)) with (moved p c (nodes w)).
  rewrite size_moved.
  symmetry. apply html_fuel_frame. intros x Hx.
  apply (desc_anc w c x Hok) in Hx.
  assert (x ≠ p) as Hxp by (by intros ->).
  assert (parentNode nc ≠ Some x) as Hq.
  { intros Hpar. by apply (tree_acyclic w c x nc Hok Hc Hpar). }
  unfold html_view. rewrite lookup_moved.
  destruct (nodes w !! x) as [nx|] eqn:Hnx; [|done]. simpl.
  unfold move_node. destruct (decide (x = c)) as [->|Hxc].
  - assert (nx = nc) as -> by congruence. simpl.
    destruct (nodeClass nc); done.
  - rewrite decide_False by done.
    assert (node.list_remove c (childNodes nx) = childNodes nx) as Hk.
    { apply list_remove_notin. intros Hin.
      destruct (tree_child w Hok c x nx Hnx Hin) as (nc' & Hc' & Hp').
      congruence. }
    rewrite Hk. simpl.
    assert (set_childNodes (childNodes nx) nx = nx) as -> by (by destruct nx).
    by rewrite should_escape_moved.
Qed.

Lemma detach_commands_connected (w : world) (c q : ref) (nc nq : Node) (i : nat) :
  nodes w !! c = Some nc → parentNode nc = Some q → nodes w !! q = Some nq →
  nodeClass nq = CWdomElement → connected q w = true →
  node.list_index c (childNodes nq) = Some i →
  detach_commands w c =
    [if decide (nodeClass nc = CWdomElement)
     then command_of nq "removeChildById" [PStr (rimo_id nc)]
     else command_of nq "removeChildByIndex" [PInt (Z.of_nat i)]].
Proof.
  intros Hc Hpar Hq Hcls Hcon Hi. unfold detach_commands.
  rewrite Hc, Hpar, Hq, Hcon, Hi. by rewrite decide_True.
Qed.

Lemma detach_commands_silent (w : world) (c q : ref) (nc nq : Node) :
  nodes w !! c = Some nc → parentNode nc = Some q → nodes w !! q = Some nq →
  nodeClass nq ≠ CWdomElement ∨ connected q w = false →
  detach_commands w c = [].
Proof.
  intros Hc Hpar Hq Hor. unfold detach_commands. rewrite Hc, Hpar, Hq.
  destruct (decide (nodeClass nq = CWdomElement)); [|done].
  destruct Hor as [? | ->]; done.
Qed.

(** C5, as the code has it.  On a well-formed tree, when the child is
    neither the parent nor one of its ancestors, [appendChild] returns the
    child and leaves the local tree with the child moved below the parent,
    as its last child, whether the parent is connected or not.  When the
    parent is connected, one insertAdjacentHTML command is queued for it,
    with the position beforeend; the HTML it carries is the HTML of the
    child as serialised in the tree after the call, and so, with the
    identity attribute stripped from both, they are equal.  That command is
    the only one when the child hangs nowhere, or below a node that is not a
    connected [WdomElement].  A child that hangs below a connected
    [WdomElement] is taken from there by [removeChild] of that element,
    which queues a command of its own: removeChildByIndex, before the
    insertAdjacentHTML command, for a text child, and removeChildById, after
    it, for any other child; it is queued also when the new parent is not
    connected. *)
Theorem appendChild_command (w : world) (p c : ref) (np nc : Node) :
  tree_ok w = true →
  nodes w !! p = Some np →
  nodes w !! c = Some nc →
  ¬ anc (nodes w) p c →
  (∃ w' np' nc',
     appendChild p c w = Ok c w' ∧
     nodes w' = moved p c (nodes w) ∧
     nodes w' !! p = Some np' ∧
     childNodes np' = node.list_remove c (childNodes np) ++ [c] ∧
     nodes w' !! c = Some nc' ∧
     parentNode nc' = Some p ∧
     (connected p w = false → message_queue w' = message_queue w ++ detach_commands w c) ∧
     (connected p w = true →
      ∃ h, message_queue w' =
             message_queue w ++
               (if decide (nodeClass nc = CText)
                then detach_commands w c ++
                     [command_of np "insertAdjacentHTML" [PStr "beforeend"; PStr h]]
                else command_of np "insertAdjacentHTML" [PStr "beforeend"; PStr h] ::
                     detach_commands w c) ∧
           node.html c w' = Ok h w' ∧
           html_noid c w' = Ok (remove_rimo_id h) w')) ∧
  (parentNode nc = None → detach_commands w c = []) ∧
  (∀ q nq, parentNode nc = Some q → nodes w !! q = Some nq →
           nodeClass nq ≠ CWdomElement ∨ connected q w = false →
           detach_commands w c = []) ∧
  (∀ q nq, parentNode nc = Some q → nodes w !! q = Some nq →
           nodeClass nq = CWdomElement → connected q w = true →
           ∃ i, node.list_index c (childNodes nq) = Some i ∧
                detach_commands w c =
                  [if decide (nodeClass nc = CWdomElement)
                   then command_of nq "removeChildById" [PStr (rimo_id nc)]
                   else command_of nq "removeChildByIndex" [PInt (Z.of_nat i)]]).
Proof.
  intros Hok Hp Hc Hanc.
  split; [|split; [|split]].
  2: { intros Hpar. by apply (detach_commands_detached w c nc). }
  2: { intros q nq Hpar Hq Hor. by apply (detach_commands_silent w c q nc nq). }
  2: { intros q nq Hpar Hq Hcls Hcon.
       destruct (tree_parent w Hok c q nc Hc Hpar) as (nq' & Hq' & Hin).
       assert (nq' = nq) as -> by congruence.
       destruct (list_index_is_Some c (childNodes nq) Hin) as (i & Hi & _).
       exists i. split; [done|].
       by apply (detach_commands_connected w c q nc nq i). }
  assert (p ≠ c) as Hne by (intros ->; apply Hanc; constructor).
  assert (moved p c (nodes w) !! p =
          Some (set_childNodes (node.list_remove c (childNodes np) ++ [c]) np)) as Hp'.
  { rewrite lookup_moved, Hp. simpl. unfold move_node.
    rewrite decide_False by done. by rewrite decide_True. }
  assert (moved p c (nodes w) !! c = Some (set_parentNode (Some p) nc)) as Hc'.
  { rewrite lookup_moved, Hc. simpl. unfold move_node. by rewrite decide_True. }
  assert (∀ w' h,
            nodes w' = moved p c (nodes w) →
            node.html_of (set_nodes (moved p c) w) c = Some h →
            node.html c w' = Ok h w' ∧ html_noid c w' = Ok (remove_rimo_id h) w') as Hhtml.
  { intros w' h Hn Hh.
    assert (node.html c w' = Ok h w') as Hr.
    { unfold node.html. by rewrite (html_of_nodes (set_nodes (moved p c) w) w' c Hn), Hh. }
    split; [exact Hr|]. unfold html_noid. by rewrite (bind_ok _ _ _ _ _ Hr). }
  unfold appendChild. unfold bind at 1, gets.
  destruct (connected p w) eqn:Hcon.
  - destruct (decide (nodeClass nc = CText)) as [Hcls|Hcls].
    + destruct (get_child_html_text w p c np nc Hok Hp Hc Hne Hcls) as (h & Hh & Hget).
      set (cmds := detach_commands w c) in *.
      set (wb := set_nodes _ _) in Hget.
      assert (connected p wb = true) as Hconb.
      { rewrite <- Hcon. exact (connected_after_detour w p c np nc Hp Hc Hanc). }
      assert (nodes wb !! p =
              Some (set_childNodes (node.list_remove c (childNodes np)) np)) as Hpb.
      { unfold wb. simpl. rewrite lookup_insert_ne by done. apply lookup_insert_eq. }
      assert (nodes wb !! c = Some (set_parentNode None nc)) as Hcb.
      { unfold wb. simpl. apply lookup_insert_eq. }
      set (cmd := command_of np "insertAdjacentHTML" [PStr "beforeend"; PStr h]).
      set (wq := set_message_queue (fun q => q ++ [cmd]) wb).
      assert (_append_child_web p c w = Ok c wq) as Hweb.
      { unfold _append_child_web. rewrite (bind_ok _ _ _ _ _ Hget).
        by rewrite (bind_ok _ _ _ _ _ (js_exec_connected wb p _ _ _ Hpb Hconb)). }
      rewrite (bind_ok _ _ _ _ _ Hweb).
      rewrite (append_child_detached wq p c _ _ Hcb eq_refl Hpb Hne).
      set (w' := with_node c _ _).
      assert (nodes w' = moved p c (nodes w)) as Hn.
      { unfold w', wq, wb. simpl.
        apply (moved_after_detour p c np nc (nodes w) Hp Hc Hne). }
      exists w', (set_childNodes (node.list_remove c (childNodes np) ++ [c]) np),
             (set_parentNode (Some p) nc).
      split; [done|]. split; [exact Hn|]. rewrite Hn.
      split; [exact Hp'|]. split; [done|]. split; [exact Hc'|]. split; [done|].
      split; [done|]. intros _. exists h. split; [|by apply Hhtml].
      unfold w', wq, wb. simpl. by rewrite <- app_assoc.
    + destruct (html_of_total w c nc Hok Hc) as [h Hh].
      assert (_get_child_html p c w = Ok h w) as Hget.
      { unfold _get_child_html. rewrite (bind_ok _ _ _ _ _ (get_node_ok _ _ _ Hc)).
        rewrite decide_False by done. unfold node.html. by rewrite Hh. }
      set (cmd := command_of np "insertAdjacentHTML" [PStr "beforeend"; PStr h]).
      set (wq := set_message_queue (fun q => q ++ [cmd]) w).
      assert (_append_child_web p c w = Ok c wq) as Hweb.
      { unfold _append_child_web. rewrite (bind_ok _ _ _ _ _ Hget).
        by rewrite (bind_ok _ _ _ _ _ (js_exec_connected w p _ _ _ Hp Hcon)). }
      rewrite (bind_ok _ _ _ _ _ Hweb).
      rewrite (append_child_moved wq p c np nc Hok Hp Hc Hne).
      change (detach_commands wq c) with (detach_commands w c).
      eexists _, (set_childNodes (node.list_remove c (childNodes np) ++ [c]) np),
              (set_parentNode (Some p) nc).
      split; [reflexivity|]. split; [done|]. simpl.
      split; [exact Hp'|]. split; [done|]. split; [exact Hc'|]. split; [done|].
      split; [done|]. intros _. exists h. split; [by rewrite <- app_assoc|].
      apply Hhtml; [done|].
      by rewrite (html_moved w p c np nc Hok Hp Hc Hanc Hcls).
  - rewrite (bind_ok _ _ _ _ _ (eq_refl : ret c w = Ok c w)).
    rewrite (append_child_moved w p c np nc Hok Hp Hc Hne).
    eexists _, (set_childNodes (node.list_remove c (childNodes np) ++ [c]) np),
            (set_parentNode (Some p) nc).
    split; [reflexivity|]. split; [done|]. simpl.
    split; [exact Hp'|]. split; [done|]. split; [exact Hc'|]. split; [done|].
    split; [done|]. done.
Qed.

(** C5, witness: on the sample page, the detached element 3 is appended to
    the connected element 1; one command is queued. *)
Lemma appendChild_command_witness :
  connected 1%nat a_page = true ∧
  ∃ w' h,
    appendChild 1%nat 3%nat a_page = Ok 3%nat w' ∧
    message_queue w' =
      message_queue a_page ++
        [command_of (an_element "div" "1" (Some 0%nat) [2%nat])
           "insertAdjacentHTML" [PStr "beforeend"; PStr h]] ∧
    node.html 3%nat w' = Ok h w' ∧
    html_noid 3%nat w' = Ok (remove_rimo_id h) w'.
Proof.
  split; [reflexivity|].
  assert (¬ anc (nodes a_page) 1%nat 3%nat) as Hanc.
  { intros H. inversion H as [|? ? ? nd1 H1 Hp1 H']; subst.
    vm_compute in H1. injection H1 as <-. injection Hp1 as <-.
    inversion H' as [|? ? ? nd0 H0 Hp0 _]; subst.
    vm_compute in H0. injection H0 as <-. discriminate Hp0. }
  destruct (appendChild_command a_page 1%nat 3%nat
              (an_element "div" "1" (Some 0%nat) [2%nat])
              (an_element "span" "3" None [4%nat])
              eq_refl eq_refl eq_refl Hanc)
    as ((w' & np' & nc' & Happ & _ & _ & _ & _ & _ & _ & Hcon) & Hdet & _).
  destruct (Hcon eq_refl) as (h & Hq & Hh & Hnoid).
  rewrite (Hdet eq_refl) in Hq.
  exists w', h. done.
Defined.

(** C5, counterexample.  In the sample world the button 3 hangs below the
    connected element 1.  Appending it to that element queues two commands,
    the insertAdjacentHTML command and the removeChildById command of
    [removeChild]; and appending the element 1 of the sample page to itself
    returns, after which its HTML cannot be serialised. *)
Lemma appendChild_second_command :
  connected 1%nat attached_button = true ∧
  message_queue attached_button = [] ∧
  message_queue (world_of (appendChild 1%nat 3%nat attached_button)) =
    [command_of (an_element "div" "1" (Some 0%nat) [3%nat]) "insertAdjacentHTML"
       [PStr "beforeend";
        PStr ("<button rimo_id=" +:+ dq +:+ "3" +:+ dq +:+ "></button>")];
     command_of (an_element "div" "1" (Some 0%nat) [3%nat]) "removeChildById" [PStr "3"]] ∧
  connected 1%nat a_page = true ∧
  value_of (appendChild 1%nat 1%nat a_page) = Some 1%nat ∧
  node.html 1%nat (world_of (appendChild 1%nat 1%nat a_page)) =
    Raise RecursionError (world_of (appendChild 1%nat 1%nat a_page)).
Proof. repeat split; vm_compute; reflexivity. Qed.

(** * More of the code *)

(** ** The footprint of a call *)

Lemma footprint_refl (w : world) : footprint w w.
Proof.
  split; try done.
  - exists []. rewrite app_nil_r. by repeat split.
  - exists []. by rewrite app_nil_r.
  - intros r nd H. exists nd. repeat split; [done | lia].
  - intros f st H. by exists st.
  - intros r nd z f H1 H2. left. by exists nd.
  - intros k r H. by left.
Qed.

Lemma sent_by_live_node_mono (w w' : world) (c : command) :
  (∀ r nd, nodes w !! r = Some nd →
     ∃ nd', nodes w' !! r = Some nd' ∧ static nd' = static nd ∧ reqid nd ≤ reqid nd') →
  sent_by_live_node w c → sent_by_live_node w' c.
Proof.
  intros Hn (r & nd & Hr & Hid & Htag & Htarget).
  destruct (Hn r nd Hr) as (nd' & Hr' & Hs & _).
  injection Hs as _ Ht Hi _ _.
  exists r, nd'. by rewrite Ht, Hi.
Qed.

Lemma footprint_trans (w1 w2 w3 : world) :
  footprint w1 w2 → footprint w2 w3 → footprint w1 w3.
Proof.
  intros [Hc1 (n1 & Hq1 & Hs1 & Hl1) (m1 & Hm1) Hn1 Hf1 Ht1 Hr1]
         [Hc2 (n2 & Hq2 & Hs2 & Hl2) (m2 & Hm2) Hn2 Hf2 Ht2 Hr2].
  split.
  - congruence.
  - exists (n1 ++ n2). rewrite Hq2, Hq1, app_assoc. split; [done|]. split.
    + intros He. rewrite (Hs1 He). rewrite Hs2; [done | congruence].
    + apply Forall_app. split; [|done].
      eapply Forall_impl; [exact Hl1|]. intros c. by apply sent_by_live_node_mono.
  - exists (m1 ++ m2). by rewrite Hm2, Hm1, app_assoc.
  - intros r nd H. destruct (Hn1 r nd H) as (nd' & H' & Hs' & Hle').
    destruct (Hn2 r nd' H') as (nd'' & H'' & Hs'' & Hle'').
    exists nd''. split; [done|]. split; [congruence | lia].
  - intros f st H. destruct (Hf1 f st H) as (st' & H' & He').
    destruct (Hf2 f st' H') as (st'' & H'' & He'').
    exists st''. split; [done|]. intros Hne. specialize (He' Hne). subst st'. auto.
  - intros r nd3 z f H3 Hz.
    destruct (Ht2 r nd3 z f H3 Hz) as [(nd2 & H2 & Hz2) | [Hlt Hge]].
    + destruct (Ht1 r nd2 z f H2 Hz2) as [(nd1 & H1 & Hz1) | [Hlt Hge]].
      * left. by exists nd1.
      * right. destruct (Hn2 r nd2 H2) as (nd3' & H3' & _ & Hle).
        assert (nd3' = nd3) as -> by congruence. split; [lia | done].
    + right. split; [done|]. intros nd1 H1.
      destruct (Hn1 r nd1 H1) as (nd2 & H2 & _ & Hle). specialize (Hge nd2 H2). lia.
  - intros k r H. destruct (Hr2 k r H) as [H2 | Hok]; [|by right].
    destruct (Hr1 k r H2) as [H1 | (s & nd & -> & Hnd & Hid)]; [by left|].
    right. destruct (Hn2 r nd Hnd) as (nd' & Hnd' & Hs & _).
    injection Hs as _ _ Hi _ _. exists s, nd'. by rewrite Hi.
Qed.

Lemma preserves_ret {A} (a : A) : preserves (ret a).
Proof. intros w. apply footprint_refl. Qed.

Lemma preserves_raise {A} (e : exn) : preserves (@raise A e).
Proof. intros w. apply footprint_refl. Qed.

Lemma preserves_gets {A} (f : world -> A) : preserves (gets f).
Proof. intros w. apply footprint_refl. Qed.

Lemma preserves_get_node (r : ref) : preserves (get_node r).
Proof. intros w. unfold get_node. destruct (nodes w !! r); apply footprint_refl. Qed.

Lemma preserves_get_future (f : ref) : preserves (asyncio.get_future f).
Proof.
  intros w. unfold asyncio.get_future. destruct (futures w !! f); apply footprint_refl.
Qed.

Lemma preserves_html (r : ref) : preserves (node.html r).
Proof. intros w. unfold node.html. destruct (node.html_of w r); apply footprint_refl. Qed.

Lemma preserves_bind {A B} (m : M A) (k : A -> M B) :
  preserves m → (∀ a, preserves (k a)) → preserves (bind m k).
Proof.
  intros Hm Hk w. unfold bind. specialize (Hm w).
  destruct (m w) as [a w1|e w1]; simpl in *; [|done].
  eapply footprint_trans; [exact Hm | apply Hk].
Qed.

Lemma preserves_for_each {A} (f : A -> M unit) (l : list A) :
  (∀ x, preserves (f x)) → preserves (for_each f l).
Proof.
  intros Hf. induction l as [|x l IH]; simpl; [apply preserves_ret|].
  apply preserves_bind; [apply Hf | intros _; apply IH].
Qed.

(** An assignment to an attribute of a node object that leaves its static
    part alone, does not lower its counter and adds nothing to its table. *)
Lemma preserves_update_node (r : ref) (f : Node -> Node) :
  (∀ nd, static (f nd) = static nd ∧ reqid nd ≤ reqid (f nd) ∧
         ∀ z g, tasks (f nd) !! z = Some g → tasks nd !! z = Some g) →
  preserves (update_node r f).
Proof.
  intros Hf w. unfold update_node, modify. simpl.
  destruct (nodes w !! r) as [nd|] eqn:Hr;
    [|replace (set_nodes _ w) with w
        by (unfold set_nodes; rewrite Hr; by destruct w); apply footprint_refl].
  destruct (Hf nd) as (Hs & Hle & Ht).
  unfold set_nodes. rewrite Hr. split; simpl; try done.
  - exists []. rewrite app_nil_r. by repeat split.
  - exists []. by rewrite app_nil_r.
  - intros x nx Hx. destruct (decide (r = x)) as [<-|Hne].
    + rewrite lookup_insert_eq. exists (f nd).
      assert (nx = nd) as -> by congruence. done.
    + rewrite lookup_insert_ne by done. exists nx. repeat split; [done | lia].
  - intros g st Hg. by exists st.
  - intros x nx' z g Hx Hz. left. destruct (decide (r = x)) as [<-|Hne].
    + rewrite lookup_insert_eq in Hx. injection Hx as <-. exists nd. auto.
    + rewrite lookup_insert_ne in Hx by done. by exists nx'.
  - intros k x Hk. by left.
Qed.

Lemma ownerDocument_live (w : world) (r d : ref) :
  node.ownerDocument w r = Some d → is_Some (nodes w !! r).
Proof.
  unfold node.ownerDocument. simpl. destruct (nodes w !! r); [eauto | done].
Qed.

Lemma connected_live (w : world) (r : ref) :
  connected r w = true → is_Some (nodes w !! r).
Proof.
  intros Hc. apply connected_iff in Hc as [[d Hd] _]. by eapply ownerDocument_live.
Qed.

Lemma command_of_sent_by (w : world) (r : ref) (nd : Node) (method : string)
    (args : list pyval) :
  nodes w !! r = Some nd → sent_by_live_node w (command_of nd method args).
Proof. intros H. exists r, nd. by repeat split. Qed.

Lemma footprint_queue (w : world) (r : ref) (nd : Node) (c : command) :
  nodes w !! r = Some nd → connections w ≠ [] → sent_by_live_node w c →
  footprint w (set_message_queue (fun q => q ++ [c]) w).
Proof.
  intros Hr Hcon Hc. split; simpl; try done.
  - exists [c]. repeat split; [done|]. by constructor.
  - exists []. by rewrite app_nil_r.
  - intros x nx Hx. exists nx. repeat split; [done | lia].
  - intros f st Hf. by exists st.
  - intros x nx z f Hx Hz. left. by exists nx.
  - intros k x Hk. by left.
Qed.

Lemma preserves_js_exec (self : ref) (method : string) (args : list pyval) :
  preserves (js_exec self method args).
Proof.
  intros w. destruct (connected self w) eqn:Hc.
  - destruct (connected_live w self Hc) as [nd Hnd].
    rewrite (js_exec_connected w self nd _ _ Hnd Hc). simpl.
    apply (footprint_queue w self nd); [done| |by apply (command_of_sent_by w self)].
    by apply connected_iff in Hc as [_ ?].
  - rewrite (js_exec_disconnected w self _ _ Hc). apply footprint_refl.
Qed.

Lemma footprint_with_future (w : world) (f : ref) (st : future) :
  (∀ old, futures w !! f = Some old → old = Pending) →
  footprint w (with_future f st w).
Proof.
  intros Hold. split; simpl; try done.
  - exists []. rewrite app_nil_r. by repeat split.
  - exists []. by rewrite app_nil_r.
  - intros x nx Hx. exists nx. repeat split; [done | lia].
  - intros g sg Hg. destruct (decide (f = g)) as [<-|Hne].
    + rewrite lookup_insert_eq. exists st. split; [done|].
      intros Hp. by specialize (Hold sg Hg).
    + rewrite lookup_insert_ne by done. by exists sg.
  - intros x nx z g Hx Hz. left. by exists nx.
  - intros k x Hk. by left.
Qed.

Lemma preserves_Future : preserves asyncio.Future.
Proof.
  intros w. unfold asyncio.Future. simpl.
  apply (footprint_with_future w). intros old Hold.
  by rewrite fresh_future_unused in Hold.
Qed.

Lemma preserves_set_result (f : ref) (v : pyval) : preserves (asyncio.set_result f v).
Proof.
  intros w. unfold asyncio.set_result, asyncio.get_future, bind.
  destruct (futures w !! f) as [st|] eqn:Hf; [|apply footprint_refl].
  destruct st; simpl; try apply footprint_refl.
  apply (footprint_with_future w). intros old Hold. congruence.
Qed.

Lemma preserves_tasks_pop (self : ref) (key : pyval) : preserves (tasks_pop self key).
Proof.
  intros w. unfold tasks_pop, bind, get_node.
  destruct (nodes w !! self) as [nd|] eqn:Hnd; [|apply footprint_refl].
  destruct (int_key key) as [z| |]; try apply footprint_refl.
  destruct (tasks nd !! z) as [f|] eqn:Hz; [|apply footprint_refl].
  rewrite (update_node_ok w self nd _ Hnd). simpl.
  split; simpl; try done.
  - exists []. rewrite app_nil_r. by repeat split.
  - exists []. by rewrite app_nil_r.
  - intros x nx Hx. destruct (decide (self = x)) as [<-|Hne].
    + rewrite lookup_insert_eq. eexists. split; [done|].
      assert (nx = nd) as -> by congruence. split; [done | simpl; lia].
    + rewrite lookup_insert_ne by done. exists nx. repeat split; [done | lia].
  - intros g st Hg. by exists st.
  - intros x nx' y g Hx Hy. left. destruct (decide (self = x)) as [<-|Hne].
    + rewrite lookup_insert_eq in Hx. injection Hx as <-. exists nd.
      split; [done|]. simpl in Hy. apply lookup_delete_Some in Hy. tauto.
    + rewrite lookup_insert_ne in Hx by done. by exists nx'.
  - intros k x Hk. by left.
Qed.

Lemma preserves_record_call (l : listener) (e : Event) :
  preserves (modify (set_calls (fun cs => cs ++ [(l, e)]))).
Proof.
  intros w. unfold modify. split; simpl; try done.
  - exists []. rewrite app_nil_r. by repeat split.
  - by eexists.
  - intros x nx Hx. exists nx. repeat split; [done | lia].
  - intros g st Hg. by exists st.
  - intros x nx z g Hx Hz. left. by exists nx.
  - intros k x Hk. by left.
Qed.

Lemma disconnected_query_world (w : world) (self : ref) (query : string) :
  connected self w = false →
  js_query self query w =
    Ok (fresh (dom (futures w))) (with_future (fresh (dom (futures w))) (Finished PNone) w).
Proof.
  intros Hc. unfold js_query. run_method. rewrite Hc. run_method.
  rewrite lookup_insert_eq. simpl. by rewrite insert_insert_eq.
Qed.

Lemma preserves_js_query (self : ref) (query : string) : preserves (js_query self query).
Proof.
  intros w. destruct (connected self w) eqn:Hc.
  - destruct (connected_live w self Hc) as [nd Hnd].
    rewrite (js_query_connected w self nd query Hnd Hc). simpl.
    set (f := fresh (dom (futures w))).
    split; simpl; try done.
    + eexists. split; [done|]. split.
      * intros He. apply connected_iff in Hc as [_ ?]. done.
      * constructor; [|done]. exists self. eexists. split; [apply lookup_insert_eq|].
        by repeat split.
    + exists []. by rewrite app_nil_r.
    + intros x nx Hx. destruct (decide (self = x)) as [<-|Hne].
      * rewrite lookup_insert_eq. eexists. split; [done|].
        assert (nx = nd) as -> by congruence. split; [done | simpl; lia].
      * rewrite lookup_insert_ne by done. exists nx. repeat split; [done | lia].
    + intros g st Hg. destruct (decide (f = g)) as [<-|Hne].
      * unfold f in Hg. by rewrite fresh_future_unused in Hg.
      * rewrite lookup_insert_ne by done. by exists st.
    + intros x nx' z g Hx Hz. destruct (decide (self = x)) as [<-|Hne].
      * rewrite lookup_insert_eq in Hx. injection Hx as <-. simpl in *.
        destruct (decide (reqid nd = z)) as [<-|Hzne].
        -- right. split; [lia|]. intros nd0 H0. assert (nd0 = nd) as -> by congruence. lia.
        -- left. exists nd. split; [done|]. by rewrite lookup_insert_ne in Hz.
      * rewrite lookup_insert_ne in Hx by done. left. by exists nx'.
    + intros k x Hk. by left.
  - rewrite (disconnected_query_world w self query Hc). simpl.
    apply footprint_with_future. intros old Hold.
    by rewrite fresh_future_unused in Hold.
Qed.

Create HintDb pres.

(** Takes a method apart along its binds and branches. *)
Ltac pres_step :=
  first
    [ apply preserves_ret | apply preserves_raise | apply preserves_gets
    | apply preserves_get_node | apply preserves_get_future | apply preserves_html
    | apply preserves_js_exec | apply preserves_js_query | apply preserves_Future
    | apply preserves_set_result | apply preserves_tasks_pop
    | apply preserves_record_call
    | solve [auto with pres]
    | apply preserves_bind; [|intros ?]
    | apply preserves_for_each; intros ?
    | apply preserves_update_node; intros ?; simpl; repeat split; (done || lia)
    | match goal with
      | |- preserves (if ?b then _ else _) => destruct b
      | |- preserves (match ?x with _ => _ end) => destruct x
      end ].

Ltac pres := cbv zeta; repeat pres_step.

Lemma preserves_index (self child : ref) : preserves (node.index self child).
Proof. unfold node.index. pres. Qed.
#[local] Hint Resolve preserves_index : pres.

Lemma preserves_remove_child (self child : ref) : preserves (node._remove_child self child).
Proof. unfold node._remove_child. pres. Qed.
#[local] Hint Resolve preserves_remove_child : pres.

Lemma preserves_append_child (self child : ref) : preserves (_append_child self child).
Proof. unfold _append_child. pres. Qed.
#[local] Hint Resolve preserves_append_child : pres.

Lemma preserves_tree_remove (self : ref) : preserves (tree._remove self).
Proof. unfold tree._remove. pres. Qed.
#[local] Hint Resolve preserves_tree_remove : pres.

Lemma preserves_tree_empty (self : ref) : preserves (tree._empty self).
Proof. unfold tree._empty. pres. Qed.
#[local] Hint Resolve preserves_tree_empty : pres.

Lemma preserves_insert_before (self child ref_node : ref) :
  preserves (tree._insert_before self child ref_node).
Proof. unfold tree._insert_before. pres. Qed.
#[local] Hint Resolve preserves_insert_before : pres.

Lemma preserves_replace_child (self new_child old_child : ref) :
  preserves (tree._replace_child self new_child old_child).
Proof. unfold tree._replace_child. pres. Qed.
#[local] Hint Resolve preserves_replace_child : pres.

Lemma preserves_event_add (self : ref) (ev : string) (l : listener) :
  preserves (event.addEventListener self ev l).
Proof. unfold event.addEventListener. pres. Qed.
#[local] Hint Resolve preserves_event_add : pres.

Lemma preserves_event_remove (self : ref) (ev : string) (l : listener) :
  preserves (event.removeEventListener self ev l).
Proof. unfold event.removeEventListener. pres. Qed.
#[local] Hint Resolve preserves_event_remove : pres.

Lemma preserves_event_of_descriptor (d : msg) (missing : exn) :
  preserves (event.event_of_descriptor d missing).
Proof. unfold event.event_of_descriptor. pres. Qed.
#[local] Hint Resolve preserves_event_of_descriptor : pres.

Lemma preserves_on_mount (self : ref) (e : Event) : preserves (_on_mount self e).
Proof. unfold _on_mount, _add_event_listener_web. pres. Qed.
#[local] Hint Resolve preserves_on_mount : pres.

Lemma preserves_addEventListener (self : ref) (ev : string) (l : listener) :
  preserves (addEventListener self ev l).
Proof. unfold addEventListener, _add_event_listener_web. pres. Qed.
#[local] Hint Resolve preserves_addEventListener : pres.

Lemma preserves_removeEventListener (self : ref) (ev : string) (l : listener) :
  preserves (removeEventListener self ev l).
Proof. unfold removeEventListener, _remove_event_listener_web. pres. Qed.
#[local] Hint Resolve preserves_removeEventListener : pres.

Lemma preserves_dispatch_event (self : ref) (e : Event) : preserves (_dispatch_event self e).
Proof. unfold _dispatch_event, call_listener. pres. Qed.
#[local] Hint Resolve preserves_dispatch_event : pres.

Lemma preserves_click (self : ref) : preserves (click self).
Proof. unfold click, event.create_event. pres. Qed.
#[local] Hint Resolve preserves_click : pres.

Lemma preserves_get_child_html (self child : ref) : preserves (_get_child_html self child).
Proof. unfold _get_child_html. pres. Qed.
#[local] Hint Resolve preserves_get_child_html : pres.

Lemma preserves_appendChild (self child : ref) : preserves (appendChild self child).
Proof. unfold appendChild, _append_child_web. pres. Qed.
#[local] Hint Resolve preserves_appendChild : pres.

Lemma preserves_remove_child_web (self child : ref) :
  preserves (_remove_child_web self child).
Proof. unfold _remove_child_web. pres. Qed.
#[local] Hint Resolve preserves_remove_child_web : pres.

Lemma preserves_removeChild (self child : ref) : preserves (removeChild self child).
Proof. unfold removeChild. pres. Qed.
#[local] Hint Resolve preserves_removeChild : pres.

Lemma preserves_insertBefore (self child ref_node : ref) :
  preserves (WdomElement.insertBefore self child ref_node).
Proof. unfold WdomElement.insertBefore, WdomElement._insert_before_web. pres. Qed.
#[local] Hint Resolve preserves_insertBefore : pres.

Lemma preserves_replaceChild (self new_child old_child : ref) :
  preserves (WdomElement.replaceChild self new_child old_child).
Proof. unfold WdomElement.replaceChild, WdomElement._replace_child_web. pres. Qed.
#[local] Hint Resolve preserves_replaceChild : pres.

Lemma preserves_remove (self : ref) : preserves (WdomElement.remove self).
Proof. unfold WdomElement.remove, WdomElement._remove_web. pres. Qed.
#[local] Hint Resolve preserves_remove : pres.

Lemma preserves_empty (self : ref) : preserves (WdomElement.empty self).
Proof. unfold WdomElement.empty, WdomElement._empty_web. pres. Qed.
#[local] Hint Resolve preserves_empty : pres.

Lemma preserves_on_response (self : ref) (m : msg) : preserves (on_response self m).
Proof. unfold on_response. pres. Qed.
#[local] Hint Resolve preserves_on_response : pres.

Lemma preserves_on_message (self : ref) (m : msg) : preserves (WebIF.on_message self m).
Proof.
  unfold WebIF.on_message, WebIF._handle_event, WebIF._handle_response, WebIF.tasks_pop,
    interface.Event, dispatchEvent. pres.
Qed.
#[local] Hint Resolve preserves_on_message : pres.

Lemma footprint_init_prefix (w : world) (t : string) (attrs : list (string * string))
    (rid : string) :
  let self := fresh (dom (nodes w)) in
  footprint w (set_registry (insert (inr rid) self)
                 (with_node self (new_node self t attrs rid) w)).
Proof.
  intros self.
  assert (nodes w !! self = None) as Hfresh by apply fresh_node_unused.
  split; simpl; try done.
  - exists []. rewrite app_nil_r. by repeat split.
  - exists []. by rewrite app_nil_r.
  - intros x nx Hx. assert (self ≠ x) as Hne by congruence.
    rewrite lookup_insert_ne by done. exists nx. repeat split; [done | lia].
  - intros g st Hg. by exists st.
  - intros x nx z g Hx Hz. destruct (decide (self = x)) as [<-|Hne].
    + rewrite lookup_insert_eq in Hx. injection Hx as <-. done.
    + rewrite lookup_insert_ne in Hx by done. left. by exists nx.
  - intros k x Hk. destruct (decide (inr rid = k)) as [<-|Hne].
    + rewrite lookup_insert_eq in Hk. injection Hk as <-.
      right. exists rid. eexists. split; [done|]. split; [apply lookup_insert_eq | done].
    + rewrite lookup_insert_ne in Hk by done. by left.
Qed.

Lemma preserves_init (t : string) (attrs : list (string * string)) (parent : option ref)
    (i : option (Z + string)) :
  preserves (__init__ t attrs parent i).
Proof.
  intros w. rewrite init_before_parent.
  set (self := fresh (dom (nodes w))).
  set (w1 := set_registry _ _).
  apply (footprint_trans w w1); [apply footprint_init_prefix|].
  clearbody w1. clearbody self. revert w1.
  change (preserves (bind match parent with
                          | Some p => bind (appendChild p self) (fun _ => ret tt)
                          | None => ret tt
                          end (fun _ => ret self))).
  pres.
Qed.
#[local] Hint Resolve preserves_init : pres.

Lemma preserves_do_call (c : call) : preserves (do_call c).
Proof.
  destruct c; simpl;
    unfold WdomElement.exec, WdomElement.scroll, WdomElement.scrollTo,
      WdomElement.scrollBy, WdomElement.scrollX, WdomElement.scrollY; pres.
Qed.

(** Whatever calls are made, the world they leave is within the footprint
    of the world they found. *)
Lemma history_footprint (cs : list call) (w : world) : footprint w (history cs w).
Proof.
  revert w. induction cs as [|c cs IH]; intros w; simpl; [apply footprint_refl|].
  eapply footprint_trans; [apply preserves_do_call | apply IH].
Qed.

(** ** What no history of calls does *)

(** X1.  Whatever calls are made, in whatever order and whether they
    return or raise, the queue of outbound commands only grows at its end:
    what was queued stays queued, in the same order.  Every command added
    carries the target [node] and the identity and tag of a node object
    that is live at the end. *)
Theorem commands_only_appended (cs : list call) (w : world) :
  ∃ new, message_queue (history cs w) = message_queue w ++ new ∧
         Forall (sent_by_live_node (history cs w)) new.
Proof.
  destruct (history_footprint cs w) as [_ (new & Hq & _ & Hl) _ _ _ _ _].
  by exists new.
Qed.

(** X2.  While no connection is live, no history of calls queues a
    command, and none opens a connection. *)
Theorem no_connection_no_command (cs : list call) (w : world) :
  connections w = [] →
  message_queue (history cs w) = message_queue w ∧ connections (history cs w) = [].
Proof.
  intros He.
  destruct (history_footprint cs w) as [Hc (new & Hq & Hs & _) _ _ _ _ _].
  rewrite Hq, (Hs He), app_nil_r. split; [done | congruence].
Qed.

(** X2, witness: on the page without a browser, a child is appended, a
    query issued, a listener added, a click made. *)
Lemma no_connection_no_command_witness :
  let cs := [CallAppendChild 1%nat 3%nat; CallJsQuery 1%nat "scrollX";
             CallAddEventListener 1%nat "click" (Callback 7); CallClick 1%nat] in
  message_queue (history cs offline_page) = [] ∧
  connections (history cs offline_page) = [].
Proof. intros cs. apply (no_connection_no_command cs offline_page). reflexivity. Defined.

(** X3.  A node object never goes away and never changes its class, its
    tag or its identity, whatever calls are made. *)
Theorem identity_is_stable (cs : list call) (w : world) (r : ref) (nd : Node) :
  nodes w !! r = Some nd →
  ∃ nd', nodes (history cs w) !! r = Some nd' ∧
         rimo_id nd' = rimo_id nd ∧ tag nd' = tag nd ∧ nodeClass nd' = nodeClass nd.
Proof.
  intros Hr. destruct (history_footprint cs w) as [_ _ _ Hn _ _ _].
  destruct (Hn r nd Hr) as (nd' & Hr' & Hs & _).
  injection Hs as Hc Ht Hi _ _. by exists nd'.
Qed.

(** X3, witness: the element 3 of the sample page is appended, removed and
    constructed around. *)
Lemma identity_is_stable_witness :
  let cs := [CallAppendChild 1%nat 3%nat; CallRemove 3%nat;
             CallInit "p" [] (Some 1%nat) (Some (inr "3"%string))] in
  ∃ nd', nodes (history cs a_page) !! 3%nat = Some nd' ∧
         rimo_id nd' = "3"%string ∧ tag nd' = "span"%string ∧
         nodeClass nd' = CWdomElement.
Proof.
  intros cs.
  apply (identity_is_stable cs a_page 3%nat (an_element "span" "3" None [4%nat])).
  reflexivity.
Defined.

(** X4.  A handle that is finished or cancelled is never changed again,
    and no handle goes away, whatever calls are made. *)
Theorem done_handles_are_final (cs : list call) (w : world) (f : ref) (st : future) :
  futures w !! f = Some st →
  is_Some (futures (history cs w) !! f) ∧
  (st ≠ Pending → futures (history cs w) !! f = Some st).
Proof.
  intros Hf. destruct (history_footprint cs w) as [_ _ _ _ Hfut _ _].
  destruct (Hfut f st Hf) as (st' & Hf' & He).
  split; [by exists st'|]. intros Hne. by rewrite Hf', (He Hne).
Qed.

(** X4, witness: the cancelled handle 1 of the sample world is answered
    late, twice. *)
Lemma done_handles_are_final_witness :
  let cs := [CallOnResponse 1%nat (response 1 (PStr "12"));
             CallOnMessage 1%nat (response 1 (PStr "13"))] in
  futures (history cs pending_requests) !! 1%nat = Some Cancelled.
Proof.
  intros cs.
  destruct (done_handles_are_final cs pending_requests 1%nat Cancelled eq_refl) as [_ H].
  apply H. discriminate.
Defined.

(** X5.  If the registry maps every key to a live node object with that
    very identity, and has only strings as keys, it still does after any
    history of calls, constructors with reused identities included. *)
Theorem registry_stays_ok (cs : list call) (w : world) :
  registry_ok w → registry_ok (history cs w).
Proof.
  intros Hok k r Hk.
  destruct (history_footprint cs w) as [_ _ _ Hn _ _ Hreg].
  destruct (Hreg k r Hk) as [Hold | Hnew]; [|exact Hnew].
  destruct (Hok k r Hold) as (s & nd & -> & Hnd & Hid).
  destruct (Hn r nd Hnd) as (nd' & Hnd' & Hs & _).
  injection Hs as _ _ Hi _ _. exists s, nd'. by rewrite Hi.
Qed.

(** X5, witness: from the empty process, two elements are made with the
    same identity; the registry is in order. *)
Lemma registry_stays_ok_witness :
  registry_ok (history [CallInit "div" [] None (Some (inl 5));
                        CallInit "p" [] None (Some (inr "5"%string))] empty_world).
Proof.
  apply registry_stays_ok. intros k r Hk. discriminate Hk.
Defined.

(** X6.  If every request id in the table of every node is below the
    counter of the node, it still is after any history of calls.  The
    counter of a node never goes down, and an entry found in its table
    afterwards is an entry that was there before or has a request id at or
    above the counter as it was: no request id is given out twice. *)
Theorem tracker_stays_ok (cs : list call) (w : world) :
  tracker_ok w →
  tracker_ok (history cs w) ∧
  ∀ r nd nd', nodes w !! r = Some nd → nodes (history cs w) !! r = Some nd' →
    reqid nd ≤ reqid nd' ∧
    ∀ z f, tasks nd' !! z = Some f → tasks nd !! z = Some f ∨ reqid nd ≤ z < reqid nd'.
Proof.
  intros Hok. destruct (history_footprint cs w) as [_ _ _ Hn _ Ht _]. split.
  - intros r nd' z f Hr Hz.
    destruct (Ht r nd' z f Hr Hz) as [(nd & Hnd & Hzo) | [Hlt _]]; [|done].
    destruct (Hn r nd Hnd) as (nd'' & Hr'' & _ & Hle).
    assert (nd'' = nd') as -> by congruence.
    specialize (Hok r nd z f Hnd Hzo). lia.
  - intros r nd nd' Hnd Hnd'.
    destruct (Hn r nd Hnd) as (nd'' & Hr'' & _ & Hle).
    assert (nd'' = nd') as -> by congruence. split; [done|].
    intros z f Hz.
    destruct (Ht r nd' z f Hnd' Hz) as [(nd0 & Hnd0 & Hzo) | [Hlt Hge]].
    + left. congruence.
    + right. specialize (Hge nd Hnd). lia.
Qed.

(** X6, witness: the sample world with two requests in flight. *)
Lemma tracker_stays_ok_witness :
  tracker_ok (history [CallJsQuery 1%nat "scrollX";
                       CallOnResponse 1%nat (response 0 (PStr "12"))] pending_requests).
Proof.
  apply tracker_stays_ok. intros r nd z f Hr Hz.
  unfold pending_requests in Hr. simpl in Hr.
  apply lookup_insert_Some in Hr as [[_ <-] | [_ Hr]].
  - simpl in Hz. apply lookup_insert_Some in Hz as [[<- _] | [_ Hz]]; [done|].
    apply lookup_singleton_Some in Hz as [<- _]. done.
  - apply lookup_singleton_Some in Hr as [_ <-]. done.
Defined.

(** ** Single operations *)

(** X7.  On a connected node, [click()] queues one click command for the
    node and calls no listener: nothing but the queue changes.  The
    listeners run when the browser sends its click event back. *)
Theorem click_connected (w : world) (self : ref) (nd : Node) :
  nodes w !! self = Some nd →
  connected self w = true →
  click self w = Ok tt (set_message_queue (fun q => q ++ [command_of nd "click" []]) w) ∧
  calls (world_of (click self w)) = calls w.
Proof.
  intros Hnd Hc.
  assert (click self w
          = Ok tt (set_message_queue (fun q => q ++ [command_of nd "click" []]) w)) as H.
  { unfold click. unfold bind at 1, gets. rewrite Hc.
    apply (js_exec_connected w self nd _ _ Hnd Hc). }
  split; [exact H|]. by rewrite H.
Qed.

(** X7, witness: the connected element of the sample world, which has a
    click listener, is clicked by the program. *)
Lemma click_connected_witness :
  message_queue (world_of (click 1%nat listening_div)) =
    [command_of (an_element "div" "1" (Some 0%nat) []) "click" []] ∧
  calls (world_of (click 1%nat listening_div)) = [].
Proof.
  destruct (click_connected listening_div 1%nat
              (set_event_listeners [("click", [Callback 7])]
                 (an_element "div" "1" (Some 0%nat) []))
              eq_refl eq_refl) as [H1 H2].
  split; [by rewrite H1 | exact H2].
Defined.

Lemma mount_loop (w : world) (self : ref) (nd : Node) (evs : list string) :
  nodes w !! self = Some nd →
  for_each (_add_event_listener_web self) evs w =
    Ok tt (set_message_queue
             (fun q => q ++ if connected self w
                            then map (fun ev => command_of nd "addEventListener" [PStr ev]) evs
                            else []) w).
Proof.
  revert w. induction evs as [|ev evs IH]; intros w Hnd; simpl.
  - unfold ret, set_message_queue. f_equal.
    destruct (connected self w), w; simpl; by rewrite app_nil_r.
  - unfold _add_event_listener_web at 1. destruct (connected self w) eqn:Hc.
    + rewrite (bind_ok _ _ _ _ _ (js_exec_connected w self nd _ _ Hnd Hc)).
      rewrite IH by done.
      change (connected self (set_message_queue _ w)) with (connected self w).
      rewrite Hc. f_equal. unfold set_message_queue. simpl. by rewrite <- app_assoc.
    + rewrite (bind_ok _ _ _ _ _ (js_exec_disconnected w self _ _ Hc)).
      rewrite IH by done. by rewrite Hc.
Qed.

(** X8.  When its node is connected, [_on_mount] queues one
    addEventListener command for each event type that has a listener, in
    the order in which the types were first registered; when the node is not
    connected it does nothing.  Nothing but the queue changes. *)
Theorem on_mount_commands (w : world) (self : ref) (nd : Node) (e : Event) :
  nodes w !! self = Some nd →
  _on_mount self e w =
    Ok tt (set_message_queue
             (fun q => q ++ if connected self w
                            then map (fun ev => command_of nd "addEventListener" [PStr ev])
                                     (map fst (event_listeners nd))
                            else []) w).
Proof.
  intros Hnd. unfold _on_mount.
  rewrite (bind_ok _ _ _ _ _ (get_node_ok _ _ _ Hnd)).
  by apply mount_loop.
Qed.

(** X8, witness: the attached button of the sample world is mounted. *)
Lemma on_mount_commands_witness :
  message_queue (world_of (_on_mount 3%nat (mkEvent "mount" None None) attached_button)) =
    [command_of (an_element "button" "3" (Some 1%nat) []) "addEventListener" [PStr "click"]].
Proof.
  rewrite (on_mount_commands attached_button 3%nat
             (set_event_listeners [("click", [Callback 7; Callback 8])]
                (an_element "button" "3" (Some 1%nat) []))
             (mkEvent "mount" None None) eq_refl).
  reflexivity.
Defined.

(** X9.  A query issued on a connected node and then answered, under the
    request id it was sent with and with a payload that is not empty,
    leaves the handle that the query returned finished with the payload,
    every other handle as it was, the table as it was before the query and
    the counter one higher. *)
Theorem query_response_round_trip (w : world) (self : ref) (nd : Node) (query : string)
    (data : pyval) :
  nodes w !! self = Some nd →
  connected self w = true →
  tasks nd !! reqid nd = None →
  truthy data = true →
  ∃ f w1 w2 nd2,
    js_query self query w = Ok f w1 ∧
    on_response self (response (reqid nd) data) w1 = Ok tt w2 ∧
    futures w2 = <[f := Finished data]> (futures w) ∧
    futures w !! f = None ∧
    nodes w2 !! self = Some nd2 ∧
    tasks nd2 = tasks nd ∧
    reqid nd2 = reqid nd + 1 ∧
    message_queue w2 = message_queue w ++ [command_of nd query [PInt (reqid nd)]].
Proof.
  intros Hnd Hc Hfree Ht.
  pose proof (js_query_connected w self nd query Hnd Hc) as Hq. simpl in Hq.
  set (f := fresh (dom (futures w))) in *.
  set (nd1 := set_reqid (reqid nd + 1) (set_tasks (<[reqid nd := f]> (tasks nd)) nd)) in *.
  set (w1 := with_node self nd1 _) in Hq.
  assert (nodes w1 !! self = Some nd1) as Hnd1 by apply lookup_insert_eq.
  assert (on_response self (response (reqid nd) data) w1 =
          Ok tt (with_future f (Finished data)
                   (with_node self (set_tasks (delete (reqid nd) (tasks nd1)) nd1) w1))) as Hr.
  { unfold on_response.
    change (dict_get (response (reqid nd) data) "data" (PBool false)) with data.
    change (dict_get (response (reqid nd) data) "data" PNone) with data.
    change (dict_get (response (reqid nd) data) "reqid" PNone) with (PInt (reqid nd)).
    rewrite Ht. run_method. rewrite lookup_insert_eq. simpl.
    rewrite lookup_insert_eq. simpl. rewrite lookup_insert_eq. simpl.
    run_method. rewrite lookup_insert_eq. simpl. rewrite lookup_insert_eq. done. }
  eexists f, w1, _, _. split; [exact Hq|]. split; [exact Hr|]. simpl.
  split; [by rewrite insert_insert_eq|]. split; [apply fresh_future_unused|].
  split; [apply lookup_insert_eq|]. simpl.
  split; [by rewrite delete_insert_eq, delete_id|]. done.
Qed.

(** X9, witness: the connected element of the sample world asks for its
    scroll position and is told 12. *)
Lemma query_response_round_trip_witness :
  ∃ f w1 w2,
    js_query 1%nat "scrollX" listening_div = Ok f w1 ∧
    on_response 1%nat (response 0 (PInt 12)) w1 = Ok tt w2 ∧
    futures w2 !! f = Some (Finished (PInt 12)).
Proof.
  destruct (query_response_round_trip listening_div 1%nat
              (set_event_listeners [("click", [Callback 7])]
                 (an_element "div" "1" (Some 0%nat) []))
              "scrollX" (PInt 12) eq_refl eq_refl eq_refl eq_refl)
    as (f & w1 & w2 & nd2 & Hq & Hr & Hf & _).
  exists f, w1, w2. split; [exact Hq|]. split; [exact Hr|].
  rewrite Hf. apply lookup_insert_eq.
Defined.

(** X10.  When the argument is a child of the node, [removeChild] returns
    it, takes it off the children of the node and leaves it without a
    parent.  When the node is connected, exactly one command is queued
    before that: removeChildById with the identity of the child when the
    child is a [WdomElement], and otherwise removeChildByIndex with the
    position that the child had among the children.  When the node is not
    connected, no command is queued. *)
Theorem removeChild_command (w : world) (self child : ref) (nd nc : Node) (i : nat) :
  nodes w !! self = Some nd →
  nodes w !! child = Some nc →
  self ≠ child →
  node.list_index child (childNodes nd) = Some i →
  removeChild self child w =
    Ok child
       (with_node child (set_parentNode None nc)
          (with_node self (set_childNodes (node.list_remove child (childNodes nd)) nd)
             (set_message_queue
                (fun q => q ++
                   if connected self w
                   then [if decide (nodeClass nc = CWdomElement)
                         then command_of nd "removeChildById" [PStr (rimo_id nc)]
                         else command_of nd "removeChildByIndex" [PInt (Z.of_nat i)]]
                   else []) w))).
Proof.
  intros Hnd Hc Hne Hi.
  assert (child ∈ childNodes nd) as Hin.
  { clear -Hi. revert i Hi. induction (childNodes nd) as [|y l IH]; intros i Hi; [done|].
    simpl in Hi. destruct (decide (child = y)) as [->|?]; [by left|].
    right. destruct (node.list_index child l) as [j|]; [|done]. by apply (IH j). }
  unfold removeChild. unfold bind at 1, gets.
  destruct (connected self w) eqn:Hcon.
  - set (cmd := if decide (nodeClass nc = CWdomElement)
                then command_of nd "removeChildById" [PStr (rimo_id nc)]
                else command_of nd "removeChildByIndex" [PInt (Z.of_nat i)]).
    assert (_remove_child_web self child w =
            Ok child (set_message_queue (fun q => q ++ [cmd]) w)) as Hweb.
    { unfold _remove_child_web.
      rewrite (bind_ok _ _ _ _ _ (get_node_ok _ _ _ Hnd)).
      unfold node.is_child. rewrite bool_decide_eq_true_2 by done.
      assert ((nc0 ← get_node child;
               if decide (nodeClass nc0 = CWdomElement)
               then js_exec self "removeChildById" [PStr (rimo_id nc0)]
               else i0 ← node.index self child;
                    js_exec self "removeChildByIndex" [PInt i0])%py w
              = Ok tt (set_message_queue (fun q => q ++ [cmd]) w)) as Hinner.
      { rewrite (bind_ok _ _ _ _ _ (get_node_ok _ _ _ Hc)). unfold cmd.
        destruct (decide (nodeClass nc = CWdomElement)).
        - apply (js_exec_connected w self nd _ _ Hnd Hcon).
        - rewrite (bind_ok _ _ _ _ _ (index_ok w self child nd i Hnd Hi)).
          apply (js_exec_connected w self nd _ _ Hnd Hcon). }
      by rewrite (bind_ok _ _ _ _ _ Hinner). }
    rewrite (bind_ok _ _ _ _ _ Hweb).
    by rewrite (remove_child_ok (set_message_queue (fun q => q ++ [cmd]) w)
                  self child nd nc Hnd Hin Hc Hne).
  - rewrite (bind_ok _ _ _ _ _ (eq_refl : ret child w = Ok child w)).
    rewrite (remove_child_ok w self child nd nc Hnd Hin Hc Hne).
    f_equal. unfold with_node, set_nodes, set_message_queue. simpl.
    rewrite app_nil_r. by destruct w.
Qed.

(** X10, witness: the text 2 is removed from the connected element 1 of
    the sample page, by its index. *)
Lemma removeChild_command_witness :
  message_queue (world_of (removeChild 1%nat 2%nat a_page)) =
    [command_of (an_element "div" "1" (Some 0%nat) [2%nat]) "removeChildByIndex" [PInt 0]].
Proof.
  rewrite (removeChild_command a_page 1%nat 2%nat
             (an_element "div" "1" (Some 0%nat) [2%nat]) (a_text "old" (Some 1%nat)) 0%nat
             eq_refl eq_refl ltac:(discriminate) eq_refl).
  reflexivity.
Defined.

(** [removeChild] of the parent, whatever its class. *)
Lemma removeChild_of_child (w : world) (q c : ref) (nq nc : Node) (i : nat) :
  nodes w !! q = Some nq → nodes w !! c = Some nc → q ≠ c →
  node.list_index c (childNodes nq) = Some i →
  removeChild_of q c w =
    Ok c (with_node c (set_parentNode None nc)
            (with_node q (set_childNodes (node.list_remove c (childNodes nq)) nq)
               (set_message_queue
                  (fun m => m ++
                     if decide (nodeClass nq = CWdomElement)
                     then if connected q w
                          then [if decide (nodeClass nc = CWdomElement)
                                then command_of nq "removeChildById" [PStr (rimo_id nc)]
                                else command_of nq "removeChildByIndex" [PInt (Z.of_nat i)]]
                          else []
                     else []) w))).
Proof.
  intros Hq Hc Hne Hi.
  assert (c ∈ childNodes nq) as Hin.
  { clear -Hi. revert i Hi. induction (childNodes nq) as [|y l IH]; intros i Hi; [done|].
    simpl in Hi. destruct (decide (c = y)) as [->|?]; [by left|].
    right. destruct (node.list_index c l) as [j|]; [|done]. by apply (IH j). }
  unfold removeChild_of. rewrite (bind_ok _ _ _ _ _ (get_node_ok _ _ _ Hq)).
  destruct (decide (nodeClass nq = CWdomElement)) as [Hcls|Hcls].
  - by rewrite (removeChild_child w q c nq nc i Hq Hc Hne Hin Hi).
  - rewrite (remove_child_ok w q c nq nc Hq Hin Hc Hne).
    by rewrite set_message_queue_nil.
Qed.

(** X11.  [remove()] on a node that hangs below a parent takes it from
    there, by [removeChild] of the parent.  When the node is connected, a
    remove command is queued for it first; and when the parent is a
    connected [WdomElement], its [removeChild] queues a command of the
    parent after that, removeChildById with the identity of the node.
    Afterwards the node is not connected, and a second [remove()] changes
    nothing at all: no command, no change of the tree. *)
Theorem remove_once (w : world) (self q : ref) (nd nq : Node) (i : nat) :
  nodes w !! self = Some nd →
  nodeClass nd = CWdomElement →
  parentNode nd = Some q →
  nodes w !! q = Some nq →
  node.list_index self (childNodes nq) = Some i →
  q ≠ self →
  let w' := with_node self (set_parentNode None nd)
              (with_node q (set_childNodes (node.list_remove self (childNodes nq)) nq)
                 (set_message_queue
                    (fun c => c ++
                       (if connected self w then [command_of nd "remove" []] else []) ++
                       (if decide (nodeClass nq = CWdomElement)
                        then if connected q w
                             then [command_of nq "removeChildById" [PStr (rimo_id nd)]]
                             else []
                        else [])) w)) in
  WdomElement.remove self w = Ok tt w' ∧
  connected self w' = false ∧
  WdomElement.remove self w' = Ok tt w'.
Proof.
  intros Hnd Hcls Hpar Hq Hi Hne w'.
  assert (nodes w' !! self = Some (set_parentNode None nd)) as Hnd' by apply lookup_insert_eq.
  assert (connected self w' = false) as Hc'.
  { apply (connected_detached w' self (set_parentNode None nd)); [done | done|].
    simpl. by rewrite Hcls. }
  set (more := if decide (nodeClass nq = CWdomElement)
               then if connected q w
                    then [command_of nq "removeChildById" [PStr (rimo_id nd)]]
                    else []
               else []) in *.
  assert (∀ w0, nodes w0 = nodes w → connections w0 = connections w →
            tree._remove self w0 =
              Ok tt (with_node self (set_parentNode None nd)
                       (with_node q (set_childNodes (node.list_remove self (childNodes nq)) nq)
                          (set_message_queue (fun c => c ++ more) w0)))) as Hlocal.
  { intros w0 H0 H0c. unfold tree._remove.
    assert (nodes w0 !! self = Some nd) as Hnd0 by (by rewrite H0).
    assert (nodes w0 !! q = Some nq) as Hq0 by (by rewrite H0).
    assert (connected q w0 = connected q w) as Hcq.
    { unfold connected, server.is_connected, node.ownerDocument. by rewrite H0, H0c. }
    rewrite (bind_ok _ _ _ _ _ (get_node_ok _ _ _ Hnd0)). rewrite Hpar.
    rewrite (bind_ok _ _ _ _ _ (removeChild_of_child w0 q self nq nd i Hq0 Hnd0 Hne Hi)).
    rewrite Hcq. by rewrite (decide_True _ _ Hcls). }
  split; [|split; [exact Hc'|]].
  - unfold WdomElement.remove, WdomElement._remove_web. unfold bind at 1, gets.
    destruct (connected self w) eqn:Hc.
    + rewrite (bind_ok _ _ _ _ _ (js_exec_connected w self nd _ _ Hnd Hc)).
      rewrite Hlocal by done. f_equal. unfold w', with_node, set_nodes, set_message_queue.
      simpl. by rewrite <- app_assoc.
    + rewrite (bind_ok _ _ _ _ _ (eq_refl : ret tt w = Ok tt w)).
      by rewrite Hlocal.
  - unfold WdomElement.remove. unfold bind at 1, gets. rewrite Hc'.
    rewrite (bind_ok _ _ _ _ _ (eq_refl : ret tt w' = Ok tt w')).
    unfold tree._remove. by rewrite (bind_ok _ _ _ _ _ (get_node_ok _ _ _ Hnd')).
Qed.

(** X11, witness: the attached button of the sample world is removed; its
    parent, the connected element 1, queues the second command. *)
Lemma remove_once_witness :
  message_queue (world_of (WdomElement.remove 3%nat attached_button)) =
    [command_of (an_element "button" "3" (Some 1%nat) []) "remove" [];
     command_of (an_element "div" "1" (Some 0%nat) [3%nat]) "removeChildById" [PStr "3"]] ∧
  connected 3%nat (world_of (WdomElement.remove 3%nat attached_button)) = false.
Proof.
  destruct (remove_once attached_button 3%nat 1%nat
              (set_event_listeners [("click", [Callback 7; Callback 8])]
                 (an_element "button" "3" (Some 1%nat) []))
              (an_element "div" "1" (Some 0%nat) [3%nat]) 0%nat
              eq_refl eq_refl eq_refl eq_refl eq_refl ltac:(discriminate))
    as (H1 & H2 & _).
  rewrite H1. split; [reflexivity | exact H2].
Defined.

Lemma empty_loop (self : ref) (l : list ref) (w : world) (nd : Node) :
  nodes w !! self = Some nd → childNodes nd = l →
  NoDup l → self ∉ l → (∀ c, c ∈ l → is_Some (nodes w !! c)) →
  ∃ ns',
    for_each (fun c => node._remove_child self c;; ret tt)%py l w
      = Ok tt (set_nodes (fun _ => ns') w) ∧
    ns' !! self = Some (set_childNodes [] nd) ∧
    (∀ c nc, c ∈ l → nodes w !! c = Some nc → ns' !! c = Some (set_parentNode None nc)) ∧
    (∀ x, x ≠ self → x ∉ l → ns' !! x = nodes w !! x).
Proof.
  revert w nd. induction l as [|c rest IH]; intros w nd Hnd Hk Hnodup Hself Hlive; simpl.
  - exists (nodes w). split; [unfold ret; by destruct w|].
    split; [rewrite Hnd; f_equal; destruct nd; simpl in *; by subst|].
    split; [by intros c nc ?%elem_of_nil | done].
  - apply NoDup_cons in Hnodup as [Hc Hnodup].
    apply not_elem_of_cons in Hself as [Hsc Hself].
    destruct (Hlive c) as [nc Hnc]; [by left|].
    assert (c ∈ childNodes nd) as Hin by (rewrite Hk; by left).
    pose proof (remove_child_ok w self c nd nc Hnd Hin Hnc Hsc) as Hrem.
    rewrite Hk in Hrem. simpl in Hrem. rewrite decide_True in Hrem by done.
    pose proof (bind_ok _ (fun _ => ret tt) _ _ _ Hrem) as Hrem'.
    rewrite (bind_ok _ _ _ _ _ Hrem'). cbv beta.
    set (w1 := with_node c _ _).
    assert (nodes w1 !! self = Some (set_childNodes rest nd)) as Hnd1.
    { unfold w1. simpl. rewrite lookup_insert_ne by done. apply lookup_insert_eq. }
    destruct (IH w1 (set_childNodes rest nd) Hnd1 eq_refl Hnodup Hself) as
      (ns' & Hrun & Hs' & Hkids & Hother).
    { intros c' Hc'. unfold w1. simpl.
      assert (c ≠ c') by (by intros ->). assert (self ≠ c') by (by intros ->).
      rewrite !lookup_insert_ne by done. apply Hlive. by right. }
    exists ns'. split; [by rewrite Hrun|]. split; [exact Hs'|]. split.
    + intros c' nc' Hc' Hnc'. apply elem_of_cons in Hc' as [->|Hc'].
      * rewrite Hother by done. unfold w1. simpl. rewrite lookup_insert_eq. congruence.
      * apply Hkids; [done|]. unfold w1. simpl.
        assert (c ≠ c') by (by intros ->). assert (self ≠ c') by (by intros ->).
        by rewrite !lookup_insert_ne by done.
    + intros x Hx Hxl. apply not_elem_of_cons in Hxl as [Hxc Hxl].
      rewrite Hother by done. unfold w1. simpl. by rewrite !lookup_insert_ne by done.
Qed.

(** X12.  On a well-formed tree, [empty()] returns and leaves the node
    without children and each former child without a parent; no other node
    object changes.  When the node is connected, one empty command is
    queued for it, and none otherwise. *)
Theorem empty_command (w : world) (self : ref) (nd : Node) :
  tree_ok w = true →
  nodes w !! self = Some nd →
  ∃ w',
    WdomElement.empty self w = Ok tt w' ∧
    message_queue w' =
      message_queue w ++ (if connected self w then [command_of nd "empty" []] else []) ∧
    nodes w' !! self = Some (set_childNodes [] nd) ∧
    (∀ c nc, c ∈ childNodes nd → nodes w !! c = Some nc →
       nodes w' !! c = Some (set_parentNode None nc)) ∧
    (∀ x, x ≠ self → x ∉ childNodes nd → nodes w' !! x = nodes w !! x).
Proof.
  intros Hok Hnd.
  assert (self ∉ childNodes nd) as Hself.
  { intros Hin. destruct (tree_child w Hok self self nd Hnd Hin) as (nd' & Hnd' & Hp).
    assert (nd' = nd) as -> by congruence.
    apply (tree_acyclic w self self nd Hok Hnd Hp). constructor. }
  assert (∀ c, c ∈ childNodes nd → is_Some (nodes w !! c)) as Hlive.
  { intros c Hc. destruct (tree_child w Hok c self nd Hnd Hc) as (nc & Hnc & _). eauto. }
  pose proof (tree_children_NoDup w Hok self nd Hnd) as Hnodup.
  assert (∀ w0, nodes w0 = nodes w →
            ∃ ns', tree._empty self w0 = Ok tt (set_nodes (fun _ => ns') w0) ∧
                   ns' !! self = Some (set_childNodes [] nd) ∧
                   (∀ c nc, c ∈ childNodes nd → nodes w !! c = Some nc →
                      ns' !! c = Some (set_parentNode None nc)) ∧
                   (∀ x, x ≠ self → x ∉ childNodes nd → ns' !! x = nodes w !! x)) as Hlocal.
  { intros w0 H0. unfold tree._empty.
    assert (nodes w0 !! self = Some nd) as Hnd0 by (by rewrite H0).
    rewrite (bind_ok _ _ _ _ _ (get_node_ok _ _ _ Hnd0)).
    destruct (empty_loop self (childNodes nd) w0 nd Hnd0 eq_refl Hnodup Hself)
      as (ns' & Hrun & H1 & H2 & H3).
    { intros c Hc. rewrite H0. by apply Hlive. }
    exists ns'. rewrite H0 in H2, H3. done. }
  unfold WdomElement.empty, WdomElement._empty_web. unfold bind at 1, gets.
  destruct (connected self w) eqn:Hc.
  - rewrite (bind_ok _ _ _ _ _ (js_exec_connected w self nd _ _ Hnd Hc)).
    destruct (Hlocal (set_message_queue (fun q => q ++ [command_of nd "empty" []]) w) eq_refl)
      as (ns' & Hrun & H1 & H2 & H3).
    eexists. split; [exact Hrun|]. done.
  - rewrite (bind_ok _ _ _ _ _ (eq_refl : ret tt w = Ok tt w)).
    destruct (Hlocal w eq_refl) as (ns' & Hrun & H1 & H2 & H3).
    eexists. split; [exact Hrun|]. simpl. by rewrite app_nil_r.
Qed.

(** X12, witness: the connected element 1 of the sample page is emptied. *)
Lemma empty_command_witness :
  ∃ w',
    WdomElement.empty 1%nat a_page = Ok tt w' ∧
    message_queue w' = [command_of (an_element "div" "1" (Some 0%nat) [2%nat]) "empty" []] ∧
    nodes w' !! 1%nat = Some (an_element "div" "1" (Some 0%nat) []).
Proof.
  destruct (empty_command a_page 1%nat (an_element "div" "1" (Some 0%nat) [2%nat])
              eq_refl eq_refl) as (w' & Hrun & Hq & Hself & _).
  exists w'. done.
Defined.

(** ** Inserting and replacing *)

Lemma ownerDocument_fuel_enough (ns : gmap ref Node) (K k : nat) (r : ref) (d : nat) :
  depth_fuel K ns r = Some d → (d < k)%nat →
  node.ownerDocument_fuel k ns r = node.ownerDocument_fuel (S d) ns r.
Proof.
  revert r d. induction k as [|k IH]; intros r d Hd Hlt; [lia|].
  destruct (depth_fuel_live _ _ _ _ Hd) as [nx Hx]. simpl. rewrite Hx.
  destruct (decide (nodeClass nx = CDocument)); [done|].
  destruct (parentNode nx) as [q|] eqn:Hp; [|done].
  destruct (depth_fuel_parent ns K r q nx d Hd Hx Hp) as (d' & -> & Hd').
  apply (IH q d' Hd'). lia.
Qed.

Lemma ownerDocument_child (w : world) (r q : ref) (nr : Node) :
  tree_ok w = true → nodes w !! r = Some nr → parentNode nr = Some q →
  nodeClass nr ≠ CDocument →
  node.ownerDocument w r = node.ownerDocument w q.
Proof.
  intros Hok Hr Hp Hc. unfold node.ownerDocument.
  destruct (tree_parent w Hok r q nr Hr Hp) as (nq & Hq & _).
  destruct (tree_rooted w Hok q nq Hq) as [d Hd].
  pose proof (depth_fuel_lt _ _ _ _ Hd) as Hlt.
  rewrite (ownerDocument_fuel_enough _ _ (S (size (nodes w))) q d Hd) by lia.
  simpl. rewrite Hr. rewrite decide_False by done. rewrite Hp.
  by rewrite (ownerDocument_fuel_enough _ _ (size (nodes w)) q d Hd) by lia.
Qed.

(** A child of a connected node is connected. *)
Lemma connected_child (w : world) (r q : ref) (nr nq : Node) :
  tree_ok w = true → nodes w !! q = Some nq → r ∈ childNodes nq →
  nodes w !! r = Some nr → connected q w = true → connected r w = true.
Proof.
  intros Hok Hq Hin Hr Hc.
  destruct (tree_child w Hok r q nq Hq Hin) as (nr' & Hr' & Hp).
  assert (nr' = nr) as -> by congruence.
  apply connected_iff in Hc as [[d Hd] Hcon]. apply connected_iff. split; [|done].
  destruct (decide (nodeClass nr = CDocument)) as [Hdoc|Hdoc].
  - exists r. unfold node.ownerDocument. simpl. rewrite Hr. by rewrite decide_True.
  - exists d. by rewrite (ownerDocument_child w r q nr Hok Hr Hp Hdoc).
Qed.

(** For a child that hangs nowhere, [_get_child_html] leaves the world as
    it found it: a text child is back where it was. *)
Lemma get_child_html_detached (w : world) (self child : ref) (nd nc : Node) (h : string) :
  nodes w !! self = Some nd → nodes w !! child = Some nc →
  parentNode nc = None → child ∉ childNodes nd → self ≠ child →
  child_html_in w self child = Some h →
  _get_child_html self child w = Ok h w.
Proof.
  intros Hnd Hnc Hpar Hnot Hne Hh. unfold child_html_in in Hh. rewrite Hnc, Hnd in Hh.
  unfold _get_child_html. rewrite (bind_ok _ _ _ _ _ (get_node_ok _ _ _ Hnc)).
  destruct (decide (nodeClass nc = CText)) as [Hcls|Hcls].
  - injection Hh as <-.
    rewrite (bind_ok _ _ _ _ _ (append_child_detached w self child nd nc Hnc Hpar Hnd Hne)).
    set (wa := with_node child _ _).
    assert (nodes wa !! child = Some (set_parentNode (Some self) nc)) as Hca
      by apply lookup_insert_eq.
    assert (nodes wa !! self = Some (set_childNodes (childNodes nd ++ [child]) nd)) as Hsa.
    { unfold wa. simpl. rewrite lookup_insert_ne by done. apply lookup_insert_eq. }
    assert (node.html child wa =
            Ok (if node.raw_text_tag (tag nd) then data nc else node.escape (data nc)) wa)
      as Hhtml.
    { unfold node.html, node.html_of. simpl. rewrite lookup_insert_eq. simpl.
      rewrite Hcls. unfold node.should_escape. simpl.
      rewrite lookup_insert_ne by done. rewrite lookup_insert_eq. simpl.
      by destruct (node.raw_text_tag (tag nd)). }
    rewrite (bind_ok _ _ _ _ _ Hhtml).
    assert (child ∈ childNodes (set_childNodes (childNodes nd ++ [child]) nd)) as Hin
      by (simpl; apply elem_of_app; right; by left).
    rewrite (bind_ok _ _ _ _ _ (remove_child_ok wa self child _ _ Hsa Hin Hca Hne)).
    unfold ret. f_equal. simpl. rewrite list_remove_app_last by done.
    unfold with_node, wa, set_nodes. simpl.
    assert (set_parentNode None (set_parentNode (Some self) nc) = nc) as ->.
    { destruct nc; simpl in *. by subst. }
    assert (set_childNodes (childNodes nd) (set_childNodes (childNodes nd ++ [child]) nd) = nd)
      as -> by (by destruct nd).
    destruct w as [ns ? ? ? ? ?]; simpl in *. f_equal.
    apply map_eq. intros x.
    destruct (decide (x = child)) as [->|Hxc]; [by rewrite lookup_insert_eq|].
    rewrite lookup_insert_ne by done.
    destruct (decide (x = self)) as [->|Hxs]; [by rewrite lookup_insert_eq|].
    by rewrite !lookup_insert_ne by done.
  - unfold node.html. by rewrite Hh.
Qed.

Lemma bind_raise {A B} (m : M A) (k : A -> M B) (w w1 : world) (e : exn) :
  m w = Raise e w1 → bind m k w = Raise e w1.
Proof. intros H. unfold bind. by rewrite H. Qed.

Lemma list_index_elem (x : ref) (l : list ref) (i : nat) :
  node.list_index x l = Some i → x ∈ l.
Proof.
  revert i. induction l as [|y l IH]; intros i Hi; [done|].
  simpl in Hi. destruct (decide (x = y)) as [->|?]; [by left|].
  right. destruct (node.list_index x l) as [j|]; [|done]. by apply (IH j).
Qed.

Lemma list_index_None (x : ref) (l : list ref) : x ∉ l → node.list_index x l = None.
Proof.
  induction l as [|y l IH]; [done|]. rewrite not_elem_of_cons. intros [Hne Hl].
  simpl. rewrite decide_False by done. by rewrite IH.
Qed.

Lemma insert_before_foreign (w : world) (self child ref_node : ref) (nd nc : Node) :
  nodes w !! self = Some nd → nodes w !! child = Some nc → parentNode nc = None →
  ref_node ∉ childNodes nd →
  tree._insert_before self child ref_node w = Raise ValueError w.
Proof.
  intros Hnd Hnc Hpar Hnot. unfold tree._insert_before.
  rewrite (bind_ok _ _ _ _ _ (get_node_ok _ _ _ Hnc)). rewrite Hpar.
  rewrite (bind_ok _ _ _ _ _ (eq_refl : ret tt w = Ok tt w)).
  apply bind_raise. unfold node.index.
  rewrite (bind_ok _ _ _ _ _ (get_node_ok _ _ _ Hnd)).
  by rewrite (list_index_None _ _ Hnot).
Qed.

Lemma insert_before_detached (w : world) (self child ref_node : ref) (nd nc : Node) (i : nat) :
  nodes w !! self = Some nd → nodes w !! child = Some nc → parentNode nc = None →
  self ≠ child → node.list_index ref_node (childNodes nd) = Some i →
  tree._insert_before self child ref_node w =
    Ok child (with_node child (set_parentNode (Some self) nc)
                (with_node self
                   (set_childNodes (tree.list_insert_at i child (childNodes nd)) nd) w)).
Proof.
  intros Hnd Hnc Hpar Hne Hi. unfold tree._insert_before.
  rewrite (bind_ok _ _ _ _ _ (get_node_ok _ _ _ Hnc)). rewrite Hpar.
  rewrite (bind_ok _ _ _ _ _ (eq_refl : ret tt w = Ok tt w)).
  rewrite (bind_ok _ _ _ _ _ (index_ok w self ref_node nd i Hnd Hi)).
  rewrite Nat2Z.id.
  rewrite (bind_ok _ _ _ _ _ (update_node_ok w self nd _ Hnd)).
  set (w1 := with_node self _ w).
  assert (nodes w1 !! child = Some nc) as Hnc1.
  { unfold w1. simpl. by rewrite lookup_insert_ne. }
  by rewrite (bind_ok _ _ _ _ _ (update_node_ok w1 child nc _ Hnc1)).
Qed.

(** X13.  On a well-formed tree, [insertBefore] with a child that hangs
    nowhere and a reference node that is a child of the node returns the
    child and puts it in the place of the reference node, which moves one
    place on.  When the node is connected, exactly one command is queued
    before that, carrying the HTML of the child: when the reference node is
    a [WdomElement], an insertAdjacentHTML command with the position
    beforebegin that names the reference node, not the node, as its sender;
    otherwise an insert command of the node with the index of the reference
    node.  When the node is not connected, no command is queued. *)
Theorem insertBefore_command (w : world) (self child ref_node : ref) (nd nc nr : Node)
    (i : nat) (h : string) :
  tree_ok w = true →
  nodes w !! self = Some nd →
  nodes w !! child = Some nc →
  parentNode nc = None →
  self ≠ child →
  nodes w !! ref_node = Some nr →
  node.list_index ref_node (childNodes nd) = Some i →
  child_html_in w self child = Some h →
  WdomElement.insertBefore self child ref_node w =
    Ok child
       (with_node child (set_parentNode (Some self) nc)
          (with_node self (set_childNodes (tree.list_insert_at i child (childNodes nd)) nd)
             (set_message_queue
                (fun q => q ++
                   if connected self w
                   then [if decide (nodeClass nr = CWdomElement)
                         then command_of nr "insertAdjacentHTML"
                                [PStr "beforebegin"; PStr h]
                         else command_of nd "insert" [PInt (Z.of_nat i); PStr h]]
                   else []) w))).
Proof.
  intros Hok Hnd Hnc Hpar Hne Hnr Hi Hh.
  assert (child ∉ childNodes nd) as Hnot.
  { intros Hin. destruct (tree_child w Hok child self nd Hnd Hin) as (nc' & Hnc' & Hp).
    congruence. }
  pose proof (list_index_elem _ _ _ Hi) as Hin.
  unfold WdomElement.insertBefore. unfold bind at 1, gets.
  destruct (connected self w) eqn:Hc.
  - set (cmd := if decide (nodeClass nr = CWdomElement)
                then command_of nr "insertAdjacentHTML" [PStr "beforebegin"; PStr h]
                else command_of nd "insert" [PInt (Z.of_nat i); PStr h]).
    assert (WdomElement._insert_before_web self child ref_node w =
            Ok child (set_message_queue (fun q => q ++ [cmd]) w)) as Hweb.
    { unfold WdomElement._insert_before_web.
      rewrite (bind_ok _ _ _ _ _
                 (get_child_html_detached w self child nd nc h Hnd Hnc Hpar Hnot Hne Hh)).
      rewrite (bind_ok _ _ _ _ _ (get_node_ok _ _ _ Hnr)).
      assert ((if decide (nodeClass nr = CWdomElement)
               then js_exec ref_node "insertAdjacentHTML" [PStr "beforebegin"; PStr h]
               else index ← node.index self ref_node;
                    js_exec self "insert" [PInt index; PStr h])%py w
              = Ok tt (set_message_queue (fun q => q ++ [cmd]) w)) as Hinner.
      { unfold cmd. destruct (decide (nodeClass nr = CWdomElement)).
        - apply (js_exec_connected w ref_node nr _ _ Hnr).
          by apply (connected_child w ref_node self nr nd Hok Hnd Hin Hnr Hc).
        - rewrite (bind_ok _ _ _ _ _ (index_ok w self ref_node nd i Hnd Hi)).
          apply (js_exec_connected w self nd _ _ Hnd Hc). }
      by rewrite (bind_ok _ _ _ _ _ Hinner). }
    rewrite (bind_ok _ _ _ _ _ Hweb).
    by rewrite (insert_before_detached (set_message_queue (fun q => q ++ [cmd]) w)
                  self child ref_node nd nc i Hnd Hnc Hpar Hne Hi).
  - rewrite (bind_ok _ _ _ _ _ (eq_refl : ret child w = Ok child w)).
    rewrite (insert_before_detached w self child ref_node nd nc i Hnd Hnc Hpar Hne Hi).
    by rewrite set_message_queue_nil.
Qed.

(** X13, witness: on the sample page the detached text 5 is inserted
    before the text 2 of the connected element 1. *)
Lemma insertBefore_command_witness :
  ∃ w',
    WdomElement.insertBefore 1%nat 5%nat 2%nat a_page = Ok 5%nat w' ∧
    message_queue w' =
      [command_of (an_element "div" "1" (Some 0%nat) [2%nat]) "insert"
         [PInt 0; PStr "a&lt;b"]] ∧
    nodes w' !! 1%nat = Some (an_element "div" "1" (Some 0%nat) [5%nat; 2%nat]).
Proof.
  eexists. split.
  - apply (insertBefore_command a_page 1%nat 5%nat 2%nat
             (an_element "div" "1" (Some 0%nat) [2%nat]) (a_text "a<b" None)
             (a_text "old" (Some 1%nat)) 0%nat "a&lt;b"
             eq_refl eq_refl eq_refl eq_refl ltac:(discriminate) eq_refl eq_refl eq_refl).
  - split; reflexivity.
Defined.

(** X14.  For a child that hangs nowhere, [insertBefore] with a reference
    node that is not a child of the node raises [ValueError] and leaves the
    tree as it was; but when the node is connected and the reference node
    is a connected [WdomElement], the insertAdjacentHTML command for the
    reference node has been queued by then, and stays queued.  In every
    other case nothing is queued. *)
Theorem insertBefore_foreign_reference (w : world) (self child ref_node : ref)
    (nd nc nr : Node) (h : string) :
  nodes w !! self = Some nd →
  nodes w !! child = Some nc →
  parentNode nc = None →
  child ∉ childNodes nd →
  self ≠ child →
  nodes w !! ref_node = Some nr →
  ref_node ∉ childNodes nd →
  child_html_in w self child = Some h →
  WdomElement.insertBefore self child ref_node w =
    Raise ValueError
      (set_message_queue
         (fun q => q ++
            if connected self w && bool_decide (nodeClass nr = CWdomElement)
               && connected ref_node w
            then [command_of nr "insertAdjacentHTML" [PStr "beforebegin"; PStr h]]
            else []) w).
Proof.
  intros Hnd Hnc Hpar Hnot Hne Hnr Hnotref Hh.
  assert (∀ w0, nodes w0 = nodes w →
            tree._insert_before self child ref_node w0 = Raise ValueError w0) as Hlocal.
  { intros w0 H0.
    apply (insert_before_foreign w0 self child ref_node nd nc); by rewrite ?H0. }
  unfold WdomElement.insertBefore. unfold bind at 1, gets.
  destruct (connected self w) eqn:Hc; simpl.
  - pose proof (get_child_html_detached w self child nd nc h Hnd Hnc Hpar Hnot Hne Hh)
      as Hget.
    destruct (decide (nodeClass nr = CWdomElement)) as [Hcls|Hcls].
    + rewrite bool_decide_eq_true_2 by done. simpl.
      destruct (connected ref_node w) eqn:Hcr.
      * assert (WdomElement._insert_before_web self child ref_node w =
                Ok child (set_message_queue
                            (fun q => q ++ [command_of nr "insertAdjacentHTML"
                                              [PStr "beforebegin"; PStr h]]) w)) as Hweb.
        { unfold WdomElement._insert_before_web.
          rewrite (bind_ok _ _ _ _ _ Hget).
          rewrite (bind_ok _ _ _ _ _ (get_node_ok _ _ _ Hnr)).
          rewrite decide_True by done.
          by rewrite (bind_ok _ _ _ _ _ (js_exec_connected w ref_node nr _ _ Hnr Hcr)). }
        rewrite (bind_ok _ _ _ _ _ Hweb). by rewrite Hlocal.
      * assert (WdomElement._insert_before_web self child ref_node w = Ok child w) as Hweb.
        { unfold WdomElement._insert_before_web.
          rewrite (bind_ok _ _ _ _ _ Hget).
          rewrite (bind_ok _ _ _ _ _ (get_node_ok _ _ _ Hnr)).
          rewrite decide_True by done.
          by rewrite (bind_ok _ _ _ _ _ (js_exec_disconnected w ref_node _ _ Hcr)). }
        rewrite (bind_ok _ _ _ _ _ Hweb). rewrite Hlocal by done.
        by rewrite set_message_queue_nil.
    + rewrite bool_decide_eq_false_2 by done. simpl.
      assert (node.index self ref_node w = Raise ValueError w) as Hidx.
      { unfold node.index. rewrite (bind_ok _ _ _ _ _ (get_node_ok _ _ _ Hnd)).
        by rewrite (list_index_None _ _ Hnotref). }
      assert (WdomElement._insert_before_web self child ref_node w = Raise ValueError w)
        as Hweb.
      { unfold WdomElement._insert_before_web.
        rewrite (bind_ok _ _ _ _ _ Hget).
        rewrite (bind_ok _ _ _ _ _ (get_node_ok _ _ _ Hnr)).
        rewrite decide_False by done.
        by rewrite (bind_raise _ _ _ _ _ (bind_raise _ _ _ _ _ Hidx)). }
      rewrite (bind_raise _ _ _ _ _ Hweb). by rewrite set_message_queue_nil.
  - rewrite (bind_ok _ _ _ _ _ (eq_refl : ret child w = Ok child w)).
    rewrite Hlocal by done. by rewrite set_message_queue_nil.
Qed.

(** X14, witness: on the sample page the detached element 3 is to go
    before the connected element 1, which is not a child of itself. *)
Lemma insertBefore_foreign_reference_witness :
  WdomElement.insertBefore 1%nat 3%nat 1%nat a_page =
    Raise ValueError
      (set_message_queue
         (fun _ => [command_of (an_element "div" "1" (Some 0%nat) [2%nat])
                      "insertAdjacentHTML"
                      [PStr "beforebegin";
                       PStr ("<span rimo_id=" +:+ dq +:+ "3" +:+ dq +:+ ">x&amp;y</span>")]])
         a_page).
Proof.
  rewrite (insertBefore_foreign_reference a_page 1%nat 3%nat 1%nat
             (an_element "div" "1" (Some 0%nat) [2%nat])
             (an_element "span" "3" None [4%nat])
             (an_element "div" "1" (Some 0%nat) [2%nat])
             ("<span rimo_id=" +:+ dq +:+ "3" +:+ dq +:+ ">x&amp;y</span>")
             eq_refl eq_refl eq_refl
             ltac:(by apply not_elem_of_cons; split; [|apply not_elem_of_nil])
             ltac:(discriminate) eq_refl
             ltac:(by apply not_elem_of_cons; split; [|apply not_elem_of_nil])
             eq_refl).
  reflexivity.
Defined.

Lemma list_insert_at_elem (i : nat) (x y : ref) (l : list ref) :
  y ∈ l → y ∈ tree.list_insert_at i x l.
Proof.
  revert i. induction l as [|z l IH]; intros i Hy; [by apply elem_of_nil in Hy|].
  destruct i as [|i]; simpl; [by right|].
  apply elem_of_cons in Hy as [->|Hy]; [by left|]. right. by apply IH.
Qed.

(** Inserting before the first occurrence of [old] and then removing [old]
    puts [new] in the place of [old]. *)
Lemma replace_in_place (old new : ref) (l : list ref) (i : nat) :
  node.list_index old l = Some i → new ≠ old →
  node.list_remove old (tree.list_insert_at i new l) = <[i := new]> l.
Proof.
  revert i. induction l as [|z l IH]; intros i Hi Hne; [done|].
  simpl in Hi. destruct (decide (old = z)) as [<-|Hz].
  - injection Hi as <-. simpl. rewrite decide_False by done. by rewrite decide_True.
  - destruct (node.list_index old l) as [j|] eqn:Hj; [|done].
    injection Hi as <-. simpl. rewrite decide_False by done. by rewrite (IH j).
Qed.

Lemma replace_child_detached (w : world) (self new_child old_child : ref)
    (nd nn no : Node) (i : nat) :
  nodes w !! self = Some nd → nodes w !! new_child = Some nn → parentNode nn = None →
  nodes w !! old_child = Some no →
  self ≠ new_child → self ≠ old_child → new_child ≠ old_child →
  node.list_index old_child (childNodes nd) = Some i →
  ∃ ns',
    tree._replace_child self new_child old_child w = Ok old_child (set_nodes (fun _ => ns') w) ∧
    ns' !! self = Some (set_childNodes (<[i := new_child]> (childNodes nd)) nd) ∧
    ns' !! new_child = Some (set_parentNode (Some self) nn) ∧
    ns' !! old_child = Some (set_parentNode None no) ∧
    (∀ x, x ≠ self → x ≠ new_child → x ≠ old_child → ns' !! x = nodes w !! x).
Proof.
  intros Hnd Hnn Hpar Hno Hsn Hso Hne Hi. unfold tree._replace_child.
  rewrite (bind_ok _ _ _ _ _
             (insert_before_detached w self new_child old_child nd nn i Hnd Hnn Hpar Hsn Hi)).
  set (nd1 := set_childNodes (tree.list_insert_at i new_child (childNodes nd)) nd).
  set (w1 := with_node new_child _ _).
  assert (nodes w1 !! self = Some nd1) as Hnd1.
  { unfold w1. simpl. rewrite lookup_insert_ne by done. apply lookup_insert_eq. }
  assert (nodes w1 !! old_child = Some no) as Hno1.
  { unfold w1. simpl. by rewrite !lookup_insert_ne by done. }
  assert (old_child ∈ childNodes nd1) as Hin.
  { unfold nd1. simpl. apply list_insert_at_elem. by eapply list_index_elem. }
  rewrite (remove_child_ok w1 self old_child nd1 no Hnd1 Hin Hno1 Hso).
  eexists. split; [reflexivity|]. simpl.
  split.
  { rewrite lookup_insert_ne by done. rewrite lookup_insert_eq. f_equal.
    unfold nd1. simpl. rewrite (replace_in_place old_child new_child _ i Hi Hne).
    by destruct nd. }
  split; [by rewrite !lookup_insert_ne, lookup_insert_eq by done|].
  split; [apply lookup_insert_eq|].
  intros x Hxs Hxn Hxo. by rewrite !lookup_insert_ne by done.
Qed.

(** X15.  On a well-formed tree, [replaceChild] with a new child that
    hangs nowhere and an old child of the node returns the old child, puts
    the new child in its place and leaves it without a parent; no other
    node object changes.  When the node is connected, commands are queued
    before that: for an old child that is a [WdomElement], one
    replaceChildById command with the HTML of the new child and the
    identity of the old one; for any other old child, two commands,
    removeChildByIndex with the index of the old child and then insert with
    that index and the HTML of the new child.  When the node is not
    connected, no command is queued. *)
Theorem replaceChild_commands (w : world) (self new_child old_child : ref)
    (nd nn no : Node) (i : nat) (h : string) :
  tree_ok w = true →
  nodes w !! self = Some nd →
  nodes w !! new_child = Some nn →
  parentNode nn = None →
  nodes w !! old_child = Some no →
  self ≠ new_child →
  node.list_index old_child (childNodes nd) = Some i →
  child_html_in w self new_child = Some h →
  ∃ w',
    WdomElement.replaceChild self new_child old_child w = Ok old_child w' ∧
    message_queue w' =
      message_queue w ++
        (if connected self w
         then if decide (nodeClass no = CWdomElement)
              then [command_of nd "replaceChildById" [PStr h; PStr (rimo_id no)]]
              else [command_of nd "removeChildByIndex" [PInt (Z.of_nat i)];
                    command_of nd "insert" [PInt (Z.of_nat i); PStr h]]
         else []) ∧
    nodes w' !! self = Some (set_childNodes (<[i := new_child]> (childNodes nd)) nd) ∧
    nodes w' !! new_child = Some (set_parentNode (Some self) nn) ∧
    nodes w' !! old_child = Some (set_parentNode None no) ∧
    (∀ x, x ≠ self → x ≠ new_child → x ≠ old_child → nodes w' !! x = nodes w !! x).
Proof.
  intros Hok Hnd Hnn Hpar Hno Hsn Hi Hh.
  pose proof (list_index_elem _ _ _ Hi) as Hin.
  destruct (tree_child w Hok old_child self nd Hnd Hin) as (no' & Hno' & Hparo).
  assert (no' = no) as -> by congruence.
  assert (self ≠ old_child) as Hso.
  { intros ->. apply (tree_acyclic w old_child old_child no Hok Hno Hparo). constructor. }
  assert (new_child ≠ old_child) as Hne by congruence.
  assert (new_child ∉ childNodes nd) as Hnot.
  { intros Hin'. destruct (tree_child w Hok new_child self nd Hnd Hin') as (? & ? & ?).
    congruence. }
  assert (∀ w0, nodes w0 = nodes w →
            ∃ ns', tree._replace_child self new_child old_child w0
                     = Ok old_child (set_nodes (fun _ => ns') w0) ∧
                   ns' !! self
                     = Some (set_childNodes (<[i := new_child]> (childNodes nd)) nd) ∧
                   ns' !! new_child = Some (set_parentNode (Some self) nn) ∧
                   ns' !! old_child = Some (set_parentNode None no) ∧
                   (∀ x, x ≠ self → x ≠ new_child → x ≠ old_child →
                      ns' !! x = nodes w !! x)) as Hlocal.
  { intros w0 H0.
    destruct (replace_child_detached w0 self new_child old_child nd nn no i)
      as (ns' & Hrun & H1 & H2 & H3 & H4); try (by rewrite H0); try done.
    exists ns'. rewrite H0 in H4. done. }
  pose proof (get_child_html_detached w self new_child nd nn h Hnd Hnn Hpar Hnot Hsn Hh)
    as Hget.
  unfold WdomElement.replaceChild. unfold bind at 1, gets.
  destruct (connected self w) eqn:Hc.
  - destruct (decide (nodeClass no = CWdomElement)) as [Hcls|Hcls].
    + assert (WdomElement._replace_child_web self new_child old_child w =
              Ok tt (set_message_queue
                       (fun q => q ++ [command_of nd "replaceChildById"
                                         [PStr h; PStr (rimo_id no)]]) w)) as Hweb.
      { unfold WdomElement._replace_child_web.
        rewrite (bind_ok _ _ _ _ _ Hget).
        rewrite (bind_ok _ _ _ _ _ (get_node_ok _ _ _ Hno)).
        rewrite decide_True by done.
        apply (js_exec_connected w self nd _ _ Hnd Hc). }
      rewrite (bind_ok _ _ _ _ _ Hweb).
      destruct (Hlocal (set_message_queue
                          (fun q => q ++ [command_of nd "replaceChildById"
                                            [PStr h; PStr (rimo_id no)]]) w) eq_refl)
        as (ns' & Hrun & H1 & H2 & H3 & H4).
      eexists. split; [exact Hrun|]. done.
    + set (c1 := command_of nd "removeChildByIndex" [PInt (Z.of_nat i)]).
      set (c2 := command_of nd "insert" [PInt (Z.of_nat i); PStr h]).
      set (w1 := set_message_queue (fun q => q ++ [c1]) w).
      assert (_remove_child_web self old_child w = Ok old_child w1) as Hrw.
      { unfold _remove_child_web.
        rewrite (bind_ok _ _ _ _ _ (get_node_ok _ _ _ Hnd)).
        unfold node.is_child. rewrite bool_decide_eq_true_2 by done.
        assert ((nc0 ← get_node old_child;
                 if decide (nodeClass nc0 = CWdomElement)
                 then js_exec self "removeChildById" [PStr (rimo_id nc0)]
                 else i0 ← node.index self old_child;
                      js_exec self "removeChildByIndex" [PInt i0])%py w
                = Ok tt w1) as Hinner.
        { rewrite (bind_ok _ _ _ _ _ (get_node_ok _ _ _ Hno)).
          rewrite decide_False by done.
          rewrite (bind_ok _ _ _ _ _ (index_ok w self old_child nd i Hnd Hi)).
          apply (js_exec_connected w self nd _ _ Hnd Hc). }
        by rewrite (bind_ok _ _ _ _ _ Hinner). }
      assert (WdomElement._replace_child_web self new_child old_child w =
              Ok tt (set_message_queue (fun q => q ++ [c2]) w1)) as Hweb.
      { unfold WdomElement._replace_child_web.
        rewrite (bind_ok _ _ _ _ _ Hget).
        rewrite (bind_ok _ _ _ _ _ (get_node_ok _ _ _ Hno)).
        rewrite decide_False by done. rewrite Hparo.
        rewrite (bind_ok _ _ _ _ _ (index_ok w self old_child nd i Hnd Hi)).
        rewrite (bind_ok _ _ _ _ _ Hrw).
        apply (js_exec_connected w1 self nd _ _ Hnd Hc). }
      rewrite (bind_ok _ _ _ _ _ Hweb).
      destruct (Hlocal (set_message_queue (fun q => q ++ [c2]) w1) eq_refl)
        as (ns' & Hrun & H1 & H2 & H3 & H4).
      eexists. split; [exact Hrun|]. simpl. by rewrite <- app_assoc.
  - rewrite (bind_ok _ _ _ _ _ (eq_refl : ret tt w = Ok tt w)).
    destruct (Hlocal w eq_refl) as (ns' & Hrun & H1 & H2 & H3 & H4).
    eexists. split; [exact Hrun|]. simpl. by rewrite app_nil_r.
Qed.

(** X15, witness: on the sample page the text 2 of the connected element 1
    is replaced by the detached element 3. *)
Lemma replaceChild_commands_witness :
  ∃ w',
    WdomElement.replaceChild 1%nat 3%nat 2%nat a_page = Ok 2%nat w' ∧
    message_queue w' =
      [command_of (an_element "div" "1" (Some 0%nat) [2%nat]) "removeChildByIndex" [PInt 0];
       command_of (an_element "div" "1" (Some 0%nat) [2%nat]) "insert"
         [PInt 0; PStr ("<span rimo_id=" +:+ dq +:+ "3" +:+ dq +:+ ">x&amp;y</span>")]] ∧
    nodes w' !! 1%nat = Some (an_element "div" "1" (Some 0%nat) [3%nat]).
Proof.
  destruct (replaceChild_commands a_page 1%nat 3%nat 2%nat
              (an_element "div" "1" (Some 0%nat) [2%nat])
              (an_element "span" "3" None [4%nat]) (a_text "old" (Some 1%nat)) 0%nat
              ("<span rimo_id=" +:+ dq +:+ "3" +:+ dq +:+ ">x&amp;y</span>")
              eq_refl eq_refl eq_refl eq_refl eq_refl ltac:(discriminate) eq_refl eq_refl)
    as (w' & Hrun & Hq & Hs & _).
  exists w'. done.
Defined.

(** X16.  On a well-formed tree, for a new child that hangs nowhere,
    [replaceChild] with an old child that is not a child of the node raises
    [ValueError] and leaves the tree as it was; but when the node is
    connected, a command of the node may have been queued by then and stays
    queued: replaceChildById when the old child is a [WdomElement], and,
    for any other old child that hangs below another node, an insert
    command with the index that the old child has there (the removal
    command is held back, the insert command is not).  For an old child
    that hangs nowhere and is no [WdomElement], and when the node is not
    connected, nothing is queued. *)
Theorem replaceChild_foreign_old (w : world) (self new_child old_child : ref)
    (nd nn no : Node) (h : string) :
  tree_ok w = true →
  nodes w !! self = Some nd →
  nodes w !! new_child = Some nn →
  parentNode nn = None →
  self ≠ new_child →
  nodes w !! old_child = Some no →
  old_child ∉ childNodes nd →
  child_html_in w self new_child = Some h →
  WdomElement.replaceChild self new_child old_child w =
    Raise ValueError
      (set_message_queue
         (fun q => q ++
            if connected self w
            then if decide (nodeClass no = CWdomElement)
                 then [command_of nd "replaceChildById" [PStr h; PStr (rimo_id no)]]
                 else match parentNode no with
                      | Some p =>
                          match nodes w !! p with
                          | Some np =>
                              match node.list_index old_child (childNodes np) with
                              | Some j => [command_of nd "insert" [PInt (Z.of_nat j); PStr h]]
                              | None => []
                              end
                          | None => []
                          end
                      | None => []
                      end
            else []) w).
Proof.
  intros Hok Hnd Hnn Hpar Hsn Hno Hnotold Hh.
  assert (new_child ∉ childNodes nd) as Hnot.
  { intros Hin'. destruct (tree_child w Hok new_child self nd Hnd Hin') as (? & ? & ?).
    congruence. }
  assert (∀ w0, nodes w0 = nodes w →
            tree._replace_child self new_child old_child w0 = Raise ValueError w0) as Hlocal.
  { intros w0 H0. unfold tree._replace_child. apply bind_raise.
    apply (insert_before_foreign w0 self new_child old_child nd nn); by rewrite ?H0. }
  pose proof (get_child_html_detached w self new_child nd nn h Hnd Hnn Hpar Hnot Hsn Hh)
    as Hget.
  unfold WdomElement.replaceChild. unfold bind at 1, gets.
  destruct (connected self w) eqn:Hc.
  - destruct (decide (nodeClass no = CWdomElement)) as [Hcls|Hcls].
    + assert (WdomElement._replace_child_web self new_child old_child w =
              Ok tt (set_message_queue
                       (fun q => q ++ [command_of nd "replaceChildById"
                                         [PStr h; PStr (rimo_id no)]]) w)) as Hweb.
      { unfold WdomElement._replace_child_web.
        rewrite (bind_ok _ _ _ _ _ Hget).
        rewrite (bind_ok _ _ _ _ _ (get_node_ok _ _ _ Hno)).
        rewrite decide_True by done.
        apply (js_exec_connected w self nd _ _ Hnd Hc). }
      rewrite (bind_ok _ _ _ _ _ Hweb). by rewrite Hlocal.
    + destruct (parentNode no) as [p|] eqn:Hparo.
      * destruct (tree_parent w Hok old_child p no Hno Hparo) as (np & Hnp & Hin).
        destruct (list_index_is_Some old_child (childNodes np) Hin) as (j & Hj & _).
        rewrite Hnp, Hj.
        assert (_remove_child_web self old_child w = Ok old_child w) as Hrw.
        { unfold _remove_child_web.
          rewrite (bind_ok _ _ _ _ _ (get_node_ok _ _ _ Hnd)).
          unfold node.is_child. by rewrite bool_decide_eq_false_2. }
        assert (WdomElement._replace_child_web self new_child old_child w =
                Ok tt (set_message_queue
                         (fun q => q ++ [command_of nd "insert"
                                           [PInt (Z.of_nat j); PStr h]]) w)) as Hweb.
        { unfold WdomElement._replace_child_web.
          rewrite (bind_ok _ _ _ _ _ Hget).
          rewrite (bind_ok _ _ _ _ _ (get_node_ok _ _ _ Hno)).
          rewrite decide_False by done. rewrite Hparo.
          rewrite (bind_ok _ _ _ _ _ (index_ok w p old_child np j Hnp Hj)).
          rewrite (bind_ok _ _ _ _ _ Hrw).
          apply (js_exec_connected w self nd _ _ Hnd Hc). }
        rewrite (bind_ok _ _ _ _ _ Hweb). by rewrite Hlocal.
      * assert (WdomElement._replace_child_web self new_child old_child w = Ok tt w)
          as Hweb.
        { unfold WdomElement._replace_child_web.
          rewrite (bind_ok _ _ _ _ _ Hget).
          rewrite (bind_ok _ _ _ _ _ (get_node_ok _ _ _ Hno)).
          rewrite decide_False by done. by rewrite Hparo. }
        rewrite (bind_ok _ _ _ _ _ Hweb). rewrite Hlocal by done.
        by rewrite set_message_queue_nil.
  - rewrite (bind_ok _ _ _ _ _ (eq_refl : ret tt w = Ok tt w)).
    rewrite Hlocal by done. by rewrite set_message_queue_nil.
Qed.

(** X16, witness: on the sample page the connected element 1 is asked to
    replace the text 4, which hangs below the element 3, by the detached
    text 5. *)
Lemma replaceChild_foreign_old_witness :
  WdomElement.replaceChild 1%nat 5%nat 4%nat a_page =
    Raise ValueError
      (set_message_queue
         (fun _ => [command_of (an_element "div" "1" (Some 0%nat) [2%nat]) "insert"
                      [PInt 0; PStr "a&lt;b"]])
         a_page).
Proof.
  rewrite (replaceChild_foreign_old a_page 1%nat 5%nat 4%nat
             (an_element "div" "1" (Some 0%nat) [2%nat]) (a_text "a<b" None)
             (a_text "x&y" (Some 3%nat)) "a&lt;b"
             eq_refl eq_refl eq_refl eq_refl ltac:(discriminate) eq_refl).
  - reflexivity.
  - intros H. apply elem_of_cons in H as [H|H]; [discriminate H | by apply elem_of_nil in H].
  - reflexivity.
Defined.

(** ** Identities made of digits *)

Lemma append_assoc (a b c : string) : (a +:+ b) +:+ c = a +:+ (b +:+ c).
Proof.
  induction a as [|x a IH]; [done|].
  change (String x ((a +:+ b) +:+ c) = String x (a +:+ (b +:+ c))). by rewrite IH.
Qed.

Lemma span_digits_run (ds rest : string) :
  all_digits ds = true →
  span_digits (ds +:+ dq +:+ rest) = (String.length ds, dq +:+ rest).
Proof.
  induction ds as [|c ds IH]; intros Hd; [done|].
  simpl in Hd. apply andb_true_iff in Hd as [Hc Hd].
  simpl. rewrite Hc. by rewrite (IH Hd).
Qed.

Lemma remove_id_re_match_digits (ds rest : string) :
  all_digits ds = true → ds ≠ EmptyString →
  _remove_id_re_match (rimo_id_literal +:+ ds +:+ dq +:+ rest) =
    Some (String.length rimo_id_literal + String.length ds + 1)%nat.
Proof.
  intros Hd Hne. unfold _remove_id_re_match.
  change (strip_prefix rimo_id_literal (rimo_id_literal +:+ ds +:+ dq +:+ rest))
    with (Some (ds +:+ dq +:+ rest)).
  cbv beta iota. rewrite (span_digits_run ds rest Hd).
  destruct ds as [|c ds]; [done|]. reflexivity.
Qed.

Lemma remove_id_re_sub_skip (a b : string) :
  _remove_id_re_sub (String.length a) (a +:+ b) = _remove_id_re_sub O b.
Proof. induction a as [|c a IH]; [done|]. simpl. exact IH. Qed.

Lemma remove_id_re_match_no_space (c : ascii) (s : string) :
  Ascii.eqb c " " = false → _remove_id_re_match (String c s) = None.
Proof.
  intros Hc. unfold _remove_id_re_match.
  change (strip_prefix rimo_id_literal (String c s))
    with (if Ascii.eqb " " c then strip_prefix ("rimo_id=" +:+ dq) s else None).
  rewrite Ascii.eqb_sym. by rewrite Hc.
Qed.

Lemma remove_id_re_sub_no_space (pre s : string) :
  no_space pre = true →
  _remove_id_re_sub O (pre +:+ s) = pre +:+ _remove_id_re_sub O s.
Proof.
  induction pre as [|c pre IH]; intros Hp; [done|].
  simpl in Hp. apply andb_true_iff in Hp as [Hc Hp]. apply negb_true_iff in Hc.
  change (String c pre +:+ s) with (String c (pre +:+ s)).
  cbn [_remove_id_re_sub]. rewrite (remove_id_re_match_no_space c _ Hc).
  by rewrite (IH Hp).
Qed.

Lemma remove_rimo_id_no_space (s : string) : no_space s = true → remove_rimo_id s = s.
Proof.
  intros Hs. unfold remove_rimo_id.
  induction s as [|c s IH]; [done|].
  simpl in Hs. apply andb_true_iff in Hs as [Hc Hs]. apply negb_true_iff in Hc.
  cbn [_remove_id_re_sub]. rewrite (remove_id_re_match_no_space c _ Hc).
  by rewrite (IH Hs).
Qed.

Lemma length_append (a b : string) :
  String.length (a +:+ b) = (String.length a + String.length b)%nat.
Proof.
  induction a as [|c a IH]; [done|].
  change (S (String.length (a +:+ b)) = S (String.length a + String.length b))%nat.
  by rewrite IH.
Qed.

Lemma strip_numeric_identity (pre ds rest : string) :
  no_space pre = true →
  all_digits ds = true →
  ds ≠ EmptyString →
  remove_rimo_id (pre +:+ " rimo_id=" +:+ dq +:+ ds +:+ dq +:+ rest) =
    pre +:+ remove_rimo_id rest.
Proof.
  intros Hp Hd Hne. unfold remove_rimo_id.
  rewrite (remove_id_re_sub_no_space pre _ Hp). f_equal.
  change (" rimo_id=" +:+ dq +:+ ds +:+ dq +:+ rest)
    with (rimo_id_literal +:+ ds +:+ dq +:+ rest).
  pose proof (remove_id_re_match_digits ds rest Hd Hne) as Hm.
  change (rimo_id_literal +:+ ds +:+ dq +:+ rest)
    with (String " " ("rimo_id=" +:+ dq +:+ ds +:+ dq +:+ rest)) in Hm |- *.
  cbn [_remove_id_re_sub]. rewrite Hm.
  replace (String.length rimo_id_literal + String.length ds + 1 - 1)%nat
    with (String.length (("rimo_id=" +:+ dq) +:+ ds +:+ dq)).
  - change ("rimo_id=" +:+ dq +:+ ds +:+ dq +:+ rest)
      with (("rimo_id=" +:+ dq) +:+ (ds +:+ (dq +:+ rest))).
    rewrite <- (append_assoc ds dq rest).
    rewrite <- (append_assoc ("rimo_id=" +:+ dq) (ds +:+ dq) rest).
    apply remove_id_re_sub_skip.
  - rewrite !length_append. simpl. lia.
Qed.

(** X17.  [remove_rimo_id] takes the identity attribute out of a string
    when the identity is a non-empty run of decimal digits: what stands
    before the attribute and has no space in it is kept as it is, the
    attribute with its leading space is dropped, and the removal goes on in
    what follows. *)
Theorem remove_rimo_id_strips_digits (pre ds rest : string) :
  no_space pre = true →
  all_digits ds = true →
  ds ≠ EmptyString →
  remove_rimo_id (pre +:+ " rimo_id=" +:+ dq +:+ ds +:+ dq +:+ rest) =
    pre +:+ remove_rimo_id rest.
Proof. apply strip_numeric_identity. Qed.

(** X17, witness: a start tag with the identity 42 and a class. *)
Lemma remove_rimo_id_strips_digits_witness :
  remove_rimo_id ("<div rimo_id=" +:+ dq +:+ "42" +:+ dq +:+ " class=" +:+ dq +:+ "a" +:+ dq
                  +:+ ">") =
    "<div class=" +:+ dq +:+ "a" +:+ dq +:+ ">".
Proof.
  apply (remove_rimo_id_strips_digits "<div" "42" (" class=" +:+ dq +:+ "a" +:+ dq +:+ ">"));
    [reflexivity | reflexivity | discriminate].
Defined.

Lemma pretty_N_char_digit (x : N) : is_digit (pretty_N_char x) = true.
Proof. unfold pretty_N_char. by repeat case_match. Qed.

Lemma pretty_N_go_digits (x : N) (s : string) :
  all_digits s = true → all_digits (pretty_N_go x s) = true.
Proof.
  revert s. induction (N.lt_wf_0 x) as [x _ IH]; intros s Hs.
  assert (x = 0 ∨ 0 < x)%N as [->|?] by lia; [by rewrite pretty_N_go_0|].
  rewrite pretty_N_go_step by done.
  apply IH; [by apply N.div_lt|]. simpl. by rewrite pretty_N_char_digit.
Qed.

Lemma pretty_N_go_nonempty (x : N) (s : string) :
  s ≠ EmptyString → pretty_N_go x s ≠ EmptyString.
Proof.
  revert s. induction (N.lt_wf_0 x) as [x _ IH]; intros s Hs.
  assert (x = 0 ∨ 0 < x)%N as [->|?] by lia; [by rewrite pretty_N_go_0|].
  rewrite pretty_N_go_step by done. apply IH; [by apply N.div_lt | done].
Qed.

Lemma pretty_N_digits (x : N) :
  all_digits (pretty x) = true ∧ pretty x ≠ EmptyString.
Proof.
  unfold pretty, pretty_N. destruct (decide (x = 0)%N) as [->|Hx]; [done|].
  split; [by apply pretty_N_go_digits|].
  rewrite pretty_N_go_step by lia. by apply pretty_N_go_nonempty.
Qed.

(** [str(n)] of an integer that is not negative is a non-empty run of
    digits. *)
Lemma pretty_Z_digits (z : Z) :
  0 ≤ z → all_digits (pretty z) = true ∧ pretty z ≠ EmptyString.
Proof.
  intros Hz. destruct z as [|p|p]; [done | | lia]. apply (pretty_N_digits (N.pos p)).
Qed.

Lemma no_space_append (a b : string) :
  no_space a = true → no_space b = true → no_space (a +:+ b) = true.
Proof.
  intros Ha Hb. induction a as [|c a IH]; [done|].
  simpl in Ha. apply andb_true_iff in Ha as [Hc Ha].
  change (negb (Ascii.eqb c " ") && no_space (a +:+ b) = true).
  by rewrite Hc, (IH Ha).
Qed.

Lemma html_of_element (w : world) (r : ref) (nd : Node) :
  tree_ok w = true → nodes w !! r = Some nd → nodeClass nd = CWdomElement →
  ∃ inner, node.html_of w r = Some (node.start_tag nd +:+ inner +:+ node.end_tag nd) ∧
           (childNodes nd = [] → inner = EmptyString).
Proof.
  intros Hok Hnd Hcls. destruct (html_of_total w r nd Hok Hnd) as [h Hh].
  unfold node.html_of in *. cbn [node.html_fuel] in *. rewrite Hnd, Hcls in *.
  destruct (mapM _ (childNodes nd)) as [inner|] eqn:Hm; [|done].
  exists (concat_str inner). split; [done|].
  intros Hk. rewrite Hk in Hm. by injection Hm as <-.
Qed.

(** X18.  On a well-formed tree, for an element whose identity is the
    decimal string of an integer that is not negative (the identity given
    by default is one, the decimal string of [id(self)]) and whose tag has
    no space in it, [html_noid] returns the HTML of the element without the
    identity attribute of the element itself, and with the removal applied
    to what follows that attribute.  For such an element without
    attributes and without children this is the bare start tag followed by
    the end tag of the element, which a void element such as br does not
    have. *)
Theorem html_noid_numeric_identity (w : world) (r : ref) (nd : Node) (z : Z) :
  tree_ok w = true →
  nodes w !! r = Some nd →
  nodeClass nd = CWdomElement →
  rimo_id nd = pretty z →
  0 ≤ z →
  no_space (tag nd) = true →
  ∃ rest,
    node.html_of w r =
      Some ("<" +:+ tag nd +:+ " rimo_id=" +:+ dq +:+ pretty z +:+ dq +:+ rest) ∧
    html_noid r w = Ok ("<" +:+ tag nd +:+ remove_rimo_id rest) w ∧
    (attributes nd = [] → childNodes nd = [] →
     html_noid r w = Ok ("<" +:+ tag nd +:+ ">" +:+ node.end_tag nd) w).
Proof.
  intros Hok Hnd Hcls Hid Hz Htag.
  destruct (html_of_element w r nd Hok Hnd Hcls) as (inner & Hh & Hleaf).
  destruct (pretty_Z_digits z Hz) as [Hd Hne].
  set (attrs := element._get_attrs_by_string nd).
  set (tail := (if negb (String.eqb attrs EmptyString) then " " +:+ attrs else EmptyString)
               +:+ ">" +:+ inner +:+ node.end_tag nd).
  assert (node.start_tag nd +:+ inner +:+ node.end_tag nd =
          ("<" +:+ tag nd) +:+ " rimo_id=" +:+ dq +:+ pretty z +:+ dq +:+ tail) as Hshape.
  { unfold node.start_tag, _get_attrs_by_string, tail. fold attrs. rewrite Hid.
    destruct (negb (String.eqb attrs EmptyString)).
    - change (join " " ["rimo_id=" +:+ dq +:+ pretty z +:+ dq; attrs])
        with (("rimo_id=" +:+ dq +:+ pretty z +:+ dq) +:+ " " +:+ attrs).
      change ("rimo_id=" +:+ dq +:+ pretty z +:+ dq)
        with (("rimo_id=" +:+ dq) +:+ pretty z +:+ dq).
      change (" rimo_id=" +:+ dq +:+ pretty z +:+ dq +:+ (" " +:+ attrs) +:+ ">" +:+ inner
              +:+ node.end_tag nd)
        with ((" rimo_id=" +:+ dq) +:+ pretty z +:+ dq +:+ (" " +:+ attrs) +:+ ">" +:+ inner
              +:+ node.end_tag nd).
      change ("<" +:+ tag nd +:+ " " +:+ ((("rimo_id=" +:+ dq) +:+ pretty z +:+ dq)
                                           +:+ " " +:+ attrs) +:+ ">")
        with ("<" +:+ tag nd +:+ (((" rimo_id=" +:+ dq) +:+ pretty z +:+ dq)
                                    +:+ " " +:+ attrs) +:+ ">").
      by rewrite !append_assoc.
    - change ("rimo_id=" +:+ dq +:+ pretty z +:+ dq)
        with (("rimo_id=" +:+ dq) +:+ pretty z +:+ dq).
      change (" rimo_id=" +:+ dq +:+ pretty z +:+ dq +:+ EmptyString +:+ ">" +:+ inner
              +:+ node.end_tag nd)
        with ((" rimo_id=" +:+ dq) +:+ pretty z +:+ dq +:+ ">" +:+ inner
              +:+ node.end_tag nd).
      change ("<" +:+ tag nd +:+ " " +:+ ((("rimo_id=" +:+ dq) +:+ pretty z +:+ dq)) +:+ ">")
        with ("<" +:+ tag nd +:+ (((" rimo_id=" +:+ dq) +:+ pretty z +:+ dq)) +:+ ">").
      by rewrite !append_assoc. }
  assert (no_space ("<" +:+ tag nd) = true) as Hpre by exact Htag.
  assert (html_noid r w = Ok (("<" +:+ tag nd) +:+ remove_rimo_id tail) w) as Hnoid.
  { unfold html_noid, node.html, bind. rewrite Hh, Hshape. unfold ret.
    by rewrite (strip_numeric_identity ("<" +:+ tag nd) (pretty z) tail Hpre Hd Hne). }
  exists tail. split; [by rewrite Hh, Hshape|]. split; [exact Hnoid|].
  intros Hattrs Hkids. rewrite Hnoid.
  assert (tail = ">" +:+ node.end_tag nd) as ->.
  { unfold tail, attrs, element._get_attrs_by_string. by rewrite Hattrs, (Hleaf Hkids). }
  rewrite remove_rimo_id_no_space; [done|].
  apply (no_space_append ">" (node.end_tag nd)); [done|].
  unfold node.end_tag. destruct (node.void_tag (tag nd)); [done|].
  apply (no_space_append "</" (tag nd +:+ ">")); [done|]. by apply no_space_append.
Qed.

(** X18, witness: the element 1 of the sample page, with its text child. *)
Lemma html_noid_numeric_identity_witness :
  html_noid 1%nat a_page = Ok "<div>old</div>"%string a_page.
Proof.
  destruct (html_noid_numeric_identity a_page 1%nat
              (an_element "div" "1" (Some 0%nat) [2%nat]) 1
              eq_refl eq_refl eq_refl eq_refl ltac:(lia) eq_refl)
    as (rest & Hh & Hn & _).
  injection Hh as Hrest. rewrite Hn. f_equal.
  apply (f_equal (fun s => "<div" +:+ remove_rimo_id s)) in Hrest. exact (eq_sym Hrest).
Defined.

(** ** The constructor and the browser *)

Lemma anc_live (w : world) (r x : ref) :
  tree_ok w = true → is_Some (nodes w !! r) → anc (nodes w) r x → is_Some (nodes w !! x).
Proof.
  intros Hok Hr Ha. induction Ha as [r | r p x nd Hnd Hp _ IH]; [done|].
  apply IH. destruct (tree_parent w Hok r p nd Hnd Hp) as (np & Hnp & _). by exists np.
Qed.

(** A new object changes the owning document of no node of a well-formed
    tree. *)
Lemma ownerDocument_new_object (w w1 : world) (c : ref) (nc : Node) (r : ref) (nr : Node) :
  tree_ok w = true → nodes w !! c = None → nodes w1 = <[c := nc]> (nodes w) →
  nodes w !! r = Some nr →
  node.ownerDocument w1 r = node.ownerDocument w r.
Proof.
  intros Hok Hc H1 Hr. unfold node.ownerDocument.
  destruct (tree_rooted w Hok r nr Hr) as [d Hd].
  pose proof (depth_fuel_lt _ _ _ _ Hd) as Hlt.
  assert (size (nodes w1) = S (size (nodes w))) as Hsize.
  { rewrite H1. by apply map_size_insert_None. }
  rewrite Hsize.
  rewrite <- (ownerDocument_fuel_frame (nodes w) (nodes w1)).
  - rewrite (ownerDocument_fuel_enough _ _ (S (S (size (nodes w)))) r d Hd) by lia.
    by rewrite (ownerDocument_fuel_enough _ _ (S (size (nodes w))) r d Hd) by lia.
  - intros x Hx. rewrite H1.
    destruct (anc_live w r x Hok (ex_intro _ nr Hr) Hx) as [nx Hnx].
    rewrite lookup_insert_ne; [done|]. intros ->. congruence.
Qed.

Lemma appendChild_new_leaf_queue (w : world) (p c : ref) (np nc : Node) :
  nodes w !! c = Some nc → nodeClass nc = CWdomElement →
  parentNode nc = None → childNodes nc = [] →
  nodes w !! p = Some np → p ≠ c →
  appendChild p c w =
    Ok c (with_node c (set_parentNode (Some p) nc)
            (with_node p (set_childNodes (childNodes np ++ [c]) np)
               (set_message_queue
                  (fun q => q ++
                     if connected p w
                     then [command_of np "insertAdjacentHTML"
                             [PStr "beforeend";
                              PStr (node.start_tag nc +:+ node.end_tag nc)]]
                     else []) w))).
Proof.
  intros Hc Hcls Hpar Hk Hp Hne. unfold appendChild.
  unfold bind at 1, gets. destruct (connected p w) eqn:Hcon.
  - assert (_get_child_html p c w = Ok (node.start_tag nc +:+ node.end_tag nc) w) as Hh.
    { unfold _get_child_html.
      rewrite (bind_ok _ _ _ _ _ (get_node_ok _ _ _ Hc)). rewrite Hcls. simpl.
      by apply html_leaf_element. }
    set (w1 := set_message_queue
                 (fun q => q ++ [command_of np "insertAdjacentHTML"
                     [PStr "beforeend"; PStr (node.start_tag nc +:+ node.end_tag nc)]]) w).
    assert (_append_child_web p c w = Ok c w1) as Hw.
    { unfold _append_child_web. rewrite (bind_ok _ _ _ _ _ Hh).
      by rewrite (bind_ok _ _ _ _ _ (js_exec_connected w p np _ _ Hp Hcon)). }
    rewrite (bind_ok _ _ _ _ _ Hw).
    by rewrite (append_child_detached w1 p c np nc Hc Hpar Hp Hne).
  - rewrite (bind_ok _ _ _ _ _ (eq_refl : ret c w = Ok c w)).
    rewrite (append_child_detached w p c np nc Hc Hpar Hp Hne).
    by rewrite set_message_queue_nil.
Qed.

(** X19.  On a well-formed tree, the constructor called with a parent
    makes the new element the last child of the parent, with the listener
    for mount as its only listener.  When the parent is connected, one
    command is queued, sent by the parent: insertAdjacentHTML with the
    position beforeend and the start tag and end tag of the new element,
    identity attribute included; no addEventListener command is queued for
    the mount listener, and no listener is called.  When the parent is not
    connected, nothing is queued. *)
Theorem init_with_parent (w : world) (t : string) (attrs : list (string * string))
    (p : ref) (np : Node) (i : option (Z + string)) :
  tree_ok w = true →
  nodes w !! p = Some np →
  let self := fresh (dom (nodes w)) in
  let nd := new_node self t attrs (identity_of self i) in
  ∃ w',
    __init__ t attrs (Some p) i w = Ok self w' ∧
    message_queue w' =
      message_queue w ++
        (if connected p w
         then [command_of np "insertAdjacentHTML"
                 [PStr "beforeend"; PStr (node.start_tag nd +:+ node.end_tag nd)]]
         else []) ∧
    nodes w' !! p = Some (set_childNodes (childNodes np ++ [self]) np) ∧
    nodes w' !! self = Some (set_parentNode (Some p) nd) ∧
    calls w' = calls w.
Proof.
  intros Hok Hnp self nd. rewrite init_before_parent. fold self. fold nd.
  set (w1 := set_registry _ _).
  assert (nodes w1 !! self = Some nd) as H1 by apply lookup_insert_eq.
  assert (p ≠ self) as Hne.
  { intros ->. pose proof (fresh_node_unused w) as Hf. fold self in Hf. congruence. }
  assert (nodes w1 !! p = Some np) as Hnp1.
  { unfold w1. simpl. by rewrite lookup_insert_ne. }
  assert (connected p w1 = connected p w) as Hcon.
  { unfold connected.
    by rewrite (ownerDocument_new_object w w1 self nd p np Hok (fresh_node_unused w)
                  eq_refl Hnp). }
  pose proof (appendChild_new_leaf_queue w1 p self np nd H1 eq_refl eq_refl eq_refl Hnp1 Hne)
    as Hq.
  rewrite Hcon in Hq.
  pose proof (bind_ok _ (fun _ => ret tt) _ _ _ Hq) as Hq'.
  rewrite (bind_ok _ _ _ _ _ Hq').
  eexists. split; [reflexivity|]. simpl.
  split; [done|]. split; [|split; [apply lookup_insert_eq | done]].
  rewrite lookup_insert_ne by done. apply lookup_insert_eq.
Qed.

(** X19, witness: a paragraph with a class is constructed below the
    connected element 1 of the sample page. *)
Lemma init_with_parent_witness :
  ∃ w',
    __init__ "p" [("class", "a")] (Some 1%nat) (Some (inl 7)) a_page = Ok 6%nat w' ∧
    message_queue w' =
      [command_of (an_element "div" "1" (Some 0%nat) [2%nat]) "insertAdjacentHTML"
         [PStr "beforeend";
          PStr ("<p rimo_id=" +:+ dq +:+ "7" +:+ dq +:+ " class=" +:+ dq +:+ "a" +:+ dq
                +:+ "></p>")]] ∧
    nodes w' !! 1%nat = Some (an_element "div" "1" (Some 0%nat) [2%nat; 6%nat]).
Proof.
  destruct (init_with_parent a_page "p" [("class", "a")] 1%nat
              (an_element "div" "1" (Some 0%nat) [2%nat]) (Some (inl 7)) eq_refl eq_refl)
    as (w' & Hrun & Hq & Hp & _).
  exists w'. split; [exact Hrun|]. split; [exact Hq | exact Hp].
Defined.

(** ** Adding a listener and taking it away again *)

Lemma remove_first_last (l : listener) (ls : list listener) :
  l ∉ ls → event.remove_first l (ls ++ [l]) = ls.
Proof.
  induction ls as [|x ls IH]; intros Hl; simpl.
  - by rewrite decide_True.
  - apply not_elem_of_cons in Hl as [Hne Hl]. rewrite decide_False by done.
    by rewrite (IH Hl).
Qed.

Lemma remove_added_listener (ev : string) (l : listener) (t : list (string * list listener)) :
  listeners_ok t → l ∉ event.listeners_for ev t →
  event.remove_listener ev l (event.add_listener ev l t) = t.
Proof.
  induction 1 as [|[k ls] t Hls _ IH]; intros Hl; simpl.
  - rewrite String.eqb_refl. simpl. by rewrite decide_True.
  - simpl in Hl. destruct (String.eqb k ev) eqn:Ek; simpl; rewrite Ek.
    + rewrite (remove_first_last l ls Hl). simpl in Hls. by destruct ls.
    + by rewrite (IH Hl).
Qed.

Lemma with_node_same (w : world) (r : ref) (nd : Node) :
  nodes w !! r = Some nd → with_node r nd w = w.
Proof.
  intros H. unfold with_node, set_nodes. rewrite (insert_id _ _ _ H). by destruct w.
Qed.

(** X20.  On a connected node whose listener table has no event type
    without a listener, adding a listener that was not registered for the
    event type and then removing it leaves the node object as it was.  One
    addEventListener command is queued by the first call; a
    removeEventListener command follows from the second call only when the
    event type had no listener before. *)
Theorem listener_round_trip (w : world) (self : ref) (nd : Node) (ev : string) (l : listener) :
  nodes w !! self = Some nd →
  connected self w = true →
  listeners_ok (event_listeners nd) →
  l ∉ event.listeners_for ev (event_listeners nd) →
  ∃ w1,
    addEventListener self ev l w = Ok tt w1 ∧
    removeEventListener self ev l w1 =
      Ok tt (set_message_queue
               (fun q => q ++ command_of nd "addEventListener" [PStr ev] ::
                              if event.registered ev (event_listeners nd) then []
                              else [command_of nd "removeEventListener" [PStr ev]]) w).
Proof.
  intros Hnd Hc Hok Hl.
  set (nd1 := set_event_listeners (event.add_listener ev l (event_listeners nd)) nd).
  set (w0 := with_node self nd1 w).
  set (w1 := set_message_queue
               (fun q => q ++ [command_of nd "addEventListener" [PStr ev]]) w0).
  assert (nodes w0 !! self = Some nd1) as Hnd0 by apply lookup_insert_eq.
  assert (connected self w0 = true) as Hc0.
  { unfold w0. by rewrite (connected_with_node w self self nd nd1 Hnd eq_refl). }
  exists w1. split.
  - unfold addEventListener, event.addEventListener, _add_event_listener_web.
    rewrite (bind_ok _ _ _ _ _ (update_node_ok _ _ _ _ Hnd)). fold nd1. fold w0.
    unfold bind at 1, gets. rewrite Hc0.
    by rewrite (js_exec_connected w0 self nd1 _ _ Hnd0 Hc0).
  - assert (nodes w1 !! self = Some nd1) as Hnd1 by exact Hnd0.
    assert (set_event_listeners
              (event.remove_listener ev l (event_listeners nd1)) nd1 = nd) as Hback.
    { unfold nd1. simpl. rewrite (remove_added_listener ev l _ Hok Hl). by destruct nd. }
    set (w2 := with_node self nd w1).
    assert (nodes w2 !! self = Some nd) as Hnd2 by apply lookup_insert_eq.
    assert (connected self w2 = true) as Hc2.
    { unfold w2. rewrite (connected_with_node w1 self self nd1 nd Hnd1 eq_refl).
      exact Hc0. }
    assert (w2 = set_message_queue
                   (fun q => q ++ [command_of nd "addEventListener" [PStr ev]]) w) as Hw2.
    { unfold w2, w1, w0, with_node, set_nodes, set_message_queue. simpl.
      rewrite insert_insert_eq. rewrite (insert_id _ _ _ Hnd). by destruct w. }
    unfold removeEventListener, event.removeEventListener, _remove_event_listener_web.
    rewrite (bind_ok _ _ _ _ _ (update_node_ok _ _ _ _ Hnd1)). rewrite Hback. fold w2.
    unfold bind at 1, gets. rewrite Hc2.
    rewrite (bind_ok _ _ _ _ _ (get_node_ok _ _ _ Hnd2)).
    destruct (event.registered ev (event_listeners nd)); simpl.
    + unfold ret. by rewrite Hw2.
    + rewrite (js_exec_connected w2 self nd _ _ Hnd2 Hc2). rewrite Hw2.
      unfold set_message_queue. simpl. by rewrite <- app_assoc.
Qed.

(** X20, witness: the connected element of the sample world, which has a
    click listener, gets a listener for input and loses it again. *)
Lemma listener_round_trip_witness :
  message_queue
    (world_of (removeEventListener 1%nat "input" (Callback 9)
                 (world_of (addEventListener 1%nat "input" (Callback 9) listening_div)))) =
    [command_of (an_element "div" "1" (Some 0%nat) []) "addEventListener" [PStr "input"];
     command_of (an_element "div" "1" (Some 0%nat) []) "removeEventListener" [PStr "input"]].
Proof.
  destruct (listener_round_trip listening_div 1%nat
              (set_event_listeners [("click", [Callback 7])]
                 (an_element "div" "1" (Some 0%nat) []))
              "input" (Callback 9) eq_refl eq_refl)
    as (w1 & Hadd & Hrem).
  - by repeat constructor.
  - apply not_elem_of_nil.
  - rewrite Hadd. simpl. rewrite Hrem. reflexivity.
Defined.

(** ** A response that comes twice *)

Lemma on_response_idle (w : world) (self : ref) (m : msg) :
  (∀ nd z, nodes w !! self = Some nd →
           int_key (dict_get m "reqid" PNone) = IntKey z → tasks nd !! z = None) →
  world_of (on_response self m w) = w.
Proof.
  intros H. unfold on_response. destruct (truthy _); [|done].
  run_method. destruct (nodes w !! self) as [nd|] eqn:Hnd; [|done].
  destruct (int_key _) as [z| |] eqn:Hk; try done.
  by rewrite (H nd z eq_refl eq_refl).
Qed.

Lemma on_response_pops (w : world) (self : ref) (m : msg) (nd' : Node) (z : Z) :
  truthy (dict_get m "data" (PBool false)) = true →
  int_key (dict_get m "reqid" PNone) = IntKey z →
  nodes (world_of (on_response self m w)) !! self = Some nd' →
  tasks nd' !! z = None.
Proof.
  intros Ht Hk. unfold on_response. rewrite Ht.
  run_method. destruct (nodes w !! self) as [nd|] eqn:Hnd; [|simpl; congruence].
  rewrite Hk. destruct (tasks nd !! z) as [f|] eqn:Hf; simpl.
  - rewrite Hnd. simpl.
    assert (∀ n, <[self := set_tasks (delete z (tasks nd)) nd]> (nodes w) !! self = Some n →
                 tasks n !! z = None) as Hdel.
    { intros n. rewrite lookup_insert_eq. intros [= <-]. simpl. apply lookup_delete_eq. }
    destruct (futures w !! f) as [st|]; simpl; [|apply Hdel].
    destruct st; simpl; try apply Hdel.
    run_method. destruct (futures w !! f) as [[]|]; simpl; apply Hdel.
  - rewrite Hnd. by intros [= <-].
Qed.

(** X21.  A response that is delivered a second time changes nothing:
    whatever the message and the state, the world after [on_response] is
    left as it is by the same [on_response] again. *)
Theorem response_delivered_once (w : world) (self : ref) (m : msg) :
  let w1 := world_of (on_response self m w) in
  world_of (on_response self m w1) = w1.
Proof.
  intros w1. unfold w1.
  destruct (truthy (dict_get m "data" (PBool false))) eqn:Ht.
  - apply on_response_idle. intros nd' z Hnd' Hk.
    by apply (on_response_pops w self m nd' z Ht Hk).
  - unfold on_response. by rewrite Ht.
Qed.
